(** * RebelFLOW core: workflow engine, event bus and event propagator

    A shallow embedding of the TypeScript sources
    [WorkflowTypes.ts], [WorkflowEngine.ts], [NodeExecutor.ts],
    [EventTypes.ts], [EventBus.ts], [Subscription.ts] and
    [EventPropagator.ts], together with the properties that the design
    document states about them.

    Conventions of the embedding:
    - node, port, workflow and event identifiers are [string]s; [__proto__],
      the one key whose assignment creates no property on a plain object,
      is not used as a port identifier;
    - a JavaScript [Map<string, V>] or plain object used as a dictionary is a
      [gmap string V]; a [Set<string>] that is only tested, extended and
      shrunk is a [gset string]; a [Map] or [Set] whose iteration order is
      observed is an association list or a list;
    - a function that may [throw] returns an [outcome]; a recursive closure
      or method carries a fuel argument, and the development proves that
      the fuel handed to it always suffices;
    - an [async] body is cut at its [await]s: a run of the engine records
      where its body is suspended, and [Engine.step] takes it to the next
      suspension, so that control operations interleave between steps;
    - inside the engine, [await eventBus.publish(...)] appends to an event
      log (the subscribers of the bus are not part of the engine);
      [handleWorkflowError], which the source never awaits, runs up to its
      [await] where it is called and deletes the entry when it is resumed
      ([Engine.handleWorkflowErrorResumes]);
    - a call of the propagator is suspended at each [await], and calls on
      the same propagator can overlap ([EventPropagator.resume]);
    - user code (node executors, transformations, validators, bus
      callbacks, filters) is a Rocq function; a bus callback is described
      by the subscriptions it makes and the error it throws. *)

From stdpp Require Import gmap strings list relations sorting pretty.
From Stdlib Require Import ZArith Lia.

#[local] Set Warnings "-clear-no-such-hyp".

Open Scope string_scope.
Open Scope list_scope.
Open Scope nat_scope.

(** ** JavaScript values *)

(** The values that flow along connections ([any] in the source).  Numbers
    are integers here; objects and functions are truthy whatever they
    hold. *)
#[warnings="-register-all"]
Inductive value : Type :=
  | VUndefined
  | VNull
  | VBool (b : bool)
  | VNum (n : Z)
  | VStr (s : string)
  | VObj (fields : list (string * value))
  | VFun (name : string).

(** The truthiness test that [if (x)] and [a && b] apply. *)
Definition truthy (v : value) : bool :=
  match v with
  | VUndefined | VNull => false
  | VBool b => b
  | VNum n => negb (n =? 0)%Z
  | VStr s => negb (String.eqb s "")
  | VObj _ => true
  | VFun _ => true
  end.

(** The properties that every plain object inherits from
    [Object.prototype]: eleven methods, and the accessor [__proto__]. *)
Definition objectPrototype : list string :=
  ["constructor"; "hasOwnProperty"; "isPrototypeOf"; "propertyIsEnumerable";
   "toLocaleString"; "toString"; "valueOf"; "__defineGetter__";
   "__defineSetter__"; "__lookupGetter__"; "__lookupSetter__"; "__proto__"].

(** [obj[key]] on a plain object, given by its own properties: an own
    property is read; a key that is not an own property finds the inherited
    method of that name, or the prototype itself for [__proto__]; any other
    key reads as [undefined]. *)
Definition getProp (obj : gmap string value) (key : string) : value :=
  match obj !! key with
  | Some v => v
  | None =>
      if decide (key ∈ objectPrototype) then
        if decide (key = "__proto__") then VObj [] else VFun key
      else VUndefined
  end.

(** ** Outcomes of code that may throw *)

Inductive outcome (A : Type) : Type :=
  | Done (a : A)
  | Thrown (message : string)
  | OutOfFuel.
Arguments Done {A} a.
Arguments Thrown {A} message.
Arguments OutOfFuel {A}.

(** [for (const x of l) { f(x) }] over a threaded state, stopping at the
    first exception. *)
Fixpoint forEach {A S : Type} (f : A → S → outcome S) (l : list A) (s : S)
  : outcome S :=
  match l with
  | [] => Done s
  | x :: l' =>
      match f x s with
      | Done s' => forEach f l' s'
      | Thrown m => Thrown m
      | OutOfFuel => OutOfFuel
      end
  end.

(** ** WorkflowTypes.ts *)

Record NodePort := mkNodePort {
  portId : string;
  portName : string;
  portType : string
}.

Record Node := mkNode {
  nodeId : string;
  nodeType : string;
  nodeName : string;
  nodeInputs : list NodePort;
  nodeOutputPorts : list NodePort
}.

Record Connection := mkConnection {
  connectionId : string;
  sourceNodeId : string;
  sourcePortId : string;
  targetNodeId : string;
  targetPortId : string
}.

Record Workflow := mkWorkflow {
  workflowId : string;
  workflowName : string;
  nodes : list Node;
  connections : list Connection;
  entryPoints : list string;
  exitPoints : list string
}.

(** The connection fields under names that stay visible inside modules with
    fields of their own. *)
Definition WorkflowTypes_sourceNodeId : Connection → string := sourceNodeId.
Definition WorkflowTypes_targetNodeId : Connection → string := targetNodeId.

Inductive WorkflowStatus : Type :=
  | Pending | Running | Paused | Completed | Failed | Cancelled.

#[global] Instance WorkflowStatus_eq_dec : EqDecision WorkflowStatus.
Proof. solve_decision. Defined.

Record ExecutionContext := mkContext {
  ctxWorkflowId : string;
  nodeOutputs : gmap string (gmap string value);
  startTime : nat;
  ctxStatus : WorkflowStatus;
  variables : gmap string value
}.

Record Stats := mkStats {
  statsStartTime : nat;
  endTime : nat;
  executionTime : nat;
  nodesExecuted : nat
}.

Record WorkflowResult := mkResult {
  resWorkflowId : string;
  resStatus : WorkflowStatus;
  resOutputs : gmap string (gmap string value);
  resStats : Stats
}.

Record ExecutionOptions := mkOptions {
  optInputs : option (gmap string value);
  optTimeout : nat;
  optParallel : bool;
  optVariables : gmap string value
}.

(** ** EventTypes.ts *)

Module CoreEventTypes.
Definition WORKFLOW_STARTED : string := "workflow:started".
Definition WORKFLOW_COMPLETED : string := "workflow:completed".
Definition WORKFLOW_FAILED : string := "workflow:failed".
Definition WORKFLOW_PAUSED : string := "workflow:paused".
Definition WORKFLOW_RESUMED : string := "workflow:resumed".
Definition NODE_EXECUTION_STARTED : string := "node:execution:started".
Definition NODE_EXECUTION_COMPLETED : string := "node:execution:completed".
Definition NODE_EXECUTION_FAILED : string := "node:execution:failed".
Definition SYSTEM_ERROR : string := "system:error".
End CoreEventTypes.

(** What the engine and the node executor hand to [eventBus.publish]. *)
Inductive Payload : Type :=
  | PStarted (workflowId : string)
  | PCompleted (workflowId : string) (result : WorkflowResult)
  | PFailed (workflowId : string) (errorMessage : string)
  | PPaused (workflowId : string)
  | PResumed (workflowId : string)
  | PNodeStarted (nodeId nodeType : string) (inputs : gmap string value)
  | PNodeCompleted (nodeId nodeType : string) (outputs : gmap string value)
  | PNodeFailed (nodeId nodeType : string) (errorMessage : string).

Record Event := mkEvent {
  eventType : string;
  eventPayload : Payload
}.

(** ** Association lists for the [Map]s whose iteration order is observed *)

Section OrderedMap.
Context {K V : Type} `{EqDecision K}.

(** [m.get(k)] *)
Fixpoint mapGet (k : K) (m : list (K * V)) : option V :=
  match m with
  | [] => None
  | (k', v) :: m' => if decide (k' = k) then Some v else mapGet k m'
  end.

(** [m.set(k, v)]: an existing key keeps its place, a new key goes last. *)
Fixpoint mapSet (k : K) (v : V) (m : list (K * V)) : list (K * V) :=
  match m with
  | [] => [(k, v)]
  | (k', v') :: m' =>
      if decide (k' = k) then (k, v) :: m' else (k', v') :: mapSet k v m'
  end.
End OrderedMap.

(** ** NodeExecutor.ts *)

Module NodeExecutor.

(** User code registered with the executor.  It returns ([Done]), throws
    ([Thrown]) or never settles ([OutOfFuel]). *)
Definition NodeExecutorFn : Type :=
  string → gmap string value → ExecutionContext → outcome (gmap string value).
Definition TransformationFn : Type :=
  gmap string value → Node → ExecutionContext → outcome (gmap string value).
Definition ValidatorFn : Type :=
  gmap string value → Node → ExecutionContext → outcome bool.

Record t := mk {
  nodeTypeExecutors : gmap string NodeExecutorFn;
  inputTransformations : gmap string (list TransformationFn);
  outputTransformations : gmap string (list TransformationFn);
  inputValidators : gmap string (list ValidatorFn);
  outputValidators : gmap string (list ValidatorFn)
}.

Definition empty : t := mk ∅ ∅ ∅ ∅ ∅.

Definition registerNodeTypeExecutor (nodeType : string) (executor : NodeExecutorFn)
    (ex : t) : t :=
  mk (<[nodeType := executor]> (nodeTypeExecutors ex))
     (inputTransformations ex) (outputTransformations ex)
     (inputValidators ex) (outputValidators ex).

Definition registerInputTransformation (nodeType : string)
    (transformation : TransformationFn) (ex : t) : t :=
  mk (nodeTypeExecutors ex)
     (<[nodeType := default [] (inputTransformations ex !! nodeType)
                    ++ [transformation]]> (inputTransformations ex))
     (outputTransformations ex) (inputValidators ex) (outputValidators ex).

Definition registerOutputTransformation (nodeType : string)
    (transformation : TransformationFn) (ex : t) : t :=
  mk (nodeTypeExecutors ex) (inputTransformations ex)
     (<[nodeType := default [] (outputTransformations ex !! nodeType)
                    ++ [transformation]]> (outputTransformations ex))
     (inputValidators ex) (outputValidators ex).

Definition registerInputValidator (nodeType : string) (validator : ValidatorFn)
    (ex : t) : t :=
  mk (nodeTypeExecutors ex) (inputTransformations ex) (outputTransformations ex)
     (<[nodeType := default [] (inputValidators ex !! nodeType) ++ [validator]]>
        (inputValidators ex))
     (outputValidators ex).

Definition registerOutputValidator (nodeType : string) (validator : ValidatorFn)
    (ex : t) : t :=
  mk (nodeTypeExecutors ex) (inputTransformations ex) (outputTransformations ex)
     (inputValidators ex)
     (<[nodeType := default [] (outputValidators ex !! nodeType) ++ [validator]]>
        (outputValidators ex)).

(** [applyInputTransformations] and [applyOutputTransformations] *)
Definition applyTransformations (transformations : list TransformationFn)
    (node : Node) (data : gmap string value) (context : ExecutionContext)
  : outcome (gmap string value) :=
  forEach (λ (transformation : TransformationFn) transformed,
             transformation transformed node context)
          transformations data.

(** [validateInputs] and [validateOutputs]; [failure] is the message of the
    error thrown when a validator answers false. *)
Definition validate (validators : list ValidatorFn) (failure : string)
    (node : Node) (data : gmap string value) (context : ExecutionContext)
  : outcome unit :=
  forEach (λ (validator : ValidatorFn) (_ : unit),
             match validator data node context with
             | Done isValid => if (isValid : bool) then Done tt else Thrown failure
             | Thrown m => Thrown m
             | OutOfFuel => OutOfFuel
             end)
          validators tt.

(** The body of the [try] block of [executeNode], after the executor has
    been found. *)
Definition runNode (ex : t) (executor : NodeExecutorFn) (node : Node)
    (inputs : gmap string value) (context : ExecutionContext)
  : outcome (gmap string value) :=
  let type := nodeType node in
  match applyTransformations (default [] (inputTransformations ex !! type))
                             node inputs context with
  | Done transformedInputs =>
      match validate (default [] (inputValidators ex !! type))
                     ("Input validation failed for node " +:+ nodeId node)
                     node transformedInputs context with
      | Done _ =>
          match executor (nodeId node) transformedInputs context with
          | Done outputs =>
              match validate (default [] (outputValidators ex !! type))
                             ("Output validation failed for node " +:+ nodeId node)
                             node outputs context with
              | Done _ =>
                  applyTransformations
                    (default [] (outputTransformations ex !! type))
                    node outputs context
              | Thrown m => Thrown m
              | OutOfFuel => OutOfFuel
              end
          | Thrown m => Thrown m
          | OutOfFuel => OutOfFuel
          end
      | Thrown m => Thrown m
      | OutOfFuel => OutOfFuel
      end
  | Thrown m => Thrown m
  | OutOfFuel => OutOfFuel
  end.

(** [executeNode]: the events it publishes, and how it settles. *)
Definition executeNode (ex : t) (node : Node) (inputs : gmap string value)
    (context : ExecutionContext) : list Event * outcome (gmap string value) :=
  let id := nodeId node in
  let type := nodeType node in
  let failed m :=
    [mkEvent CoreEventTypes.NODE_EXECUTION_FAILED (PNodeFailed id type m)] in
  match nodeTypeExecutors ex !! type with
  | None =>
      let m := "No executor registered for node type: " +:+ type in
      (failed m, Thrown m)
  | Some executor =>
      let started :=
        [mkEvent CoreEventTypes.NODE_EXECUTION_STARTED (PNodeStarted id type inputs)] in
      match runNode ex executor node inputs context with
      | Done transformedOutputs =>
          (started ++ [mkEvent CoreEventTypes.NODE_EXECUTION_COMPLETED
                         (PNodeCompleted id type transformedOutputs)],
           Done transformedOutputs)
      | Thrown m => (started ++ failed m, Thrown m)
      | OutOfFuel => (started, OutOfFuel)
      end
  end.

End NodeExecutor.

(** ** WorkflowEngine.ts *)

Module Engine.

(** [getNodeDependencies]: the source node of every connection that targets
    [nodeId], in the order of [workflow.connections]. *)
Definition getNodeDependencies (nodeId : string) (workflow : Workflow)
  : list string :=
  foldl (λ dependencies connection,
           if decide (targetNodeId connection = nodeId)
           then dependencies ++ [sourceNodeId connection]
           else dependencies)
        [] (connections workflow).

(** The three mutable locals of [topologicalSort]. *)
Record SortState := mkSortState {
  result : list string;
  visited : gset string;
  temp : gset string
}.

Definition cycleMessage (nodeId : string) : string :=
  "Workflow contains a cycle involving node " +:+ nodeId.

(** The closure [visit] of [topologicalSort]. *)
Fixpoint visit (fuel : nat) (workflow : Workflow) (nodeId : string)
    (st : SortState) : outcome SortState :=
  match fuel with
  | O => OutOfFuel
  | S fuel' =>
      if decide (nodeId ∈ temp st) then Thrown (cycleMessage nodeId)
      else if decide (nodeId ∈ visited st) then Done st
      else
        let st1 := mkSortState (result st) (visited st) ({[nodeId]} ∪ temp st) in
        match forEach (visit fuel' workflow)
                      (getNodeDependencies nodeId workflow) st1 with
        | Done st2 =>
            Done (mkSortState (result st2 ++ [nodeId])
                              ({[nodeId]} ∪ visited st2)
                              (temp st2 ∖ {[nodeId]}))
        | Thrown m => Thrown m
        | OutOfFuel => OutOfFuel
        end
  end.

(** Enough fuel for any workflow: [visit] nests at most once per identifier
    that can be marked temporarily, and those are the entry points, the node
    ids and the sources of connections. *)
Definition sortFuel (workflow : Workflow) : nat :=
  S (length (entryPoints workflow) + length (nodes workflow)
     + length (connections workflow)).

Definition topologicalSort (workflow : Workflow) : outcome (list string) :=
  let fuel := sortFuel workflow in
  let st0 := mkSortState [] ∅ ∅ in
  match forEach (visit fuel workflow) (entryPoints workflow) st0 with
  | Done st1 =>
      match forEach (λ node st,
                       if decide (nodeId node ∈ visited st) then Done st
                       else visit fuel workflow (nodeId node) st)
                    (nodes workflow) st1 with
      | Done st2 => Done (result st2)
      | Thrown m => Thrown m
      | OutOfFuel => OutOfFuel
      end
  | Thrown m => Thrown m
  | OutOfFuel => OutOfFuel
  end.

(** [groupNodesByLevel].  [levels] and [levelGroups] are [Map]s that the
    source iterates, so both keep their insertion order. *)
Definition groupNodesByLevel (workflow : Workflow) (executionOrder : list string)
  : list (list string) :=
  let levels0 : list (string * nat) :=
    foldl (λ levels nodeId, mapSet nodeId 0 levels) [] executionOrder in
  let levels :=
    foldl (λ levels connection,
             let sourceLevel := default 0 (mapGet (sourceNodeId connection) levels) in
             let targetLevel := default 0 (mapGet (targetNodeId connection) levels) in
             if decide (targetLevel ≤ sourceLevel)
             then mapSet (targetNodeId connection) (sourceLevel + 1) levels
             else levels)
          levels0 (connections workflow) in
  let levelGroups : list (nat * list string) :=
    foldl (λ levelGroups entry,
             let '(nodeId, level) := entry in
             mapSet level (default [] (mapGet level levelGroups) ++ [nodeId])
                    levelGroups)
          [] levels in
  let sortedLevels := merge_sort (≤) (map fst levelGroups) in
  map (λ level, default [] (mapGet level levelGroups)) sortedLevels.

(** The level that [groupNodesByLevel] assigns to a node: the index of the
    group it is returned in. *)
Definition levelOf (groups : list (list string)) (nodeId : string) : option nat :=
  fst <$> list_find (λ group, nodeId ∈ group) groups.

(** [gatherInputs] *)
Definition gatherInputs (node : Node) (workflow : Workflow)
    (context : ExecutionContext) : gmap string value :=
  let inputs :=
    foldl (λ (inputs : gmap string value) connection,
             if decide (targetNodeId connection = nodeId node) then
               match nodeOutputs context !! sourceNodeId connection with
               | Some sourceOutputs =>
                   if truthy (getProp sourceOutputs (sourcePortId connection))
                   then <[targetPortId connection :=
                            getProp sourceOutputs (sourcePortId connection)]> inputs
                   else inputs
               | None => inputs
               end
             else inputs)
          ∅ (connections workflow) in
  if decide (nodeId node ∈ entryPoints workflow) then
    match nodeOutputs context !! nodeId node with
    | Some initialInputs => initialInputs ∪ inputs  (* Object.assign(inputs, initialInputs) *)
    | None => inputs
    end
  else inputs.

(** [createWorkflowResult]; [now] is the reading of [Date.now()]. *)
Definition createWorkflowResult (workflow : Workflow) (context : ExecutionContext)
    (nodesExecuted : nat) (now : nat) : WorkflowResult :=
  let outputs :=
    foldl (λ (outputs : gmap string (gmap string value)) exitNodeId,
             match nodeOutputs context !! exitNodeId with
             | Some nodeOutputs => <[exitNodeId := nodeOutputs]> outputs
             | None => outputs
             end)
          ∅ (exitPoints workflow) in
  mkResult (workflowId workflow) (ctxStatus context) outputs
           (mkStats (startTime context) now (now - startTime context) nodesExecuted).

(** *** Runs

    [executeWorkflow] is an [async] body inside a [Promise] executor.  A run
    records where that body is suspended ([Pc]), the objects the body
    allocates (execution context, abort controller, timer, promise), and the
    counter [nodesExecuted].  The entry of [activeWorkflows] shares the
    context, the controller and the promise callbacks with the body, so it
    refers to the run by its index. *)

Inductive PromiseState : Type :=
  | PromisePending
  | PromiseResolved (r : WorkflowResult)
  | PromiseRejected (errorMessage : string).

Inductive Pc : Type :=
  | AwaitStarted                            (* await publish(WORKFLOW_STARTED) *)
  | SeqLoop (executionOrder : list string)  (* rest of the sequential loop *)
  | ParLoop (levels : list (list string))   (* rest of the loop over levels *)
  | AwaitCompleted (r : WorkflowResult)     (* await publish(WORKFLOW_COMPLETED) *)
  | AwaitNode                               (* a node that never settles *)
  | Returned.                               (* the body has returned *)

Record Run := mkRun {
  runWorkflow : Workflow;
  runOptions : ExecutionOptions;
  runContext : ExecutionContext;
  signalAborted : bool;
  abortListener : bool;
  timeoutId : bool;
  promise : PromiseState;
  pc : Pc;
  runNodesExecuted : nat
}.

Record ActiveWorkflow := mkActive {
  status : WorkflowStatus;
  activeRun : nat
}.

(** [errorHandlers] holds the calls of [handleWorkflowError] that are
    suspended at their [await], each with the workflow id it was called
    with. *)
Record t := mk {
  nodeExecutor : NodeExecutor.t;
  runs : list Run;
  activeWorkflows : gmap string ActiveWorkflow;
  published : list Event;
  now : nat;
  errorHandlers : list string
}.

Definition create (nodeExecutor : NodeExecutor.t) (now : nat) : t :=
  mk nodeExecutor [] ∅ [] now [].

Definition publish (eventType : string) (payload : Payload) (e : t) : t :=
  mk (nodeExecutor e) (runs e) (activeWorkflows e)
     (published e ++ [mkEvent eventType payload]) (now e) (errorHandlers e).

Definition updateRun (rid : nat) (f : Run → Run) (e : t) : t :=
  mk (nodeExecutor e) (alter f rid (runs e)) (activeWorkflows e)
     (published e) (now e) (errorHandlers e).

Definition setActive (m : gmap string ActiveWorkflow) (e : t) : t :=
  mk (nodeExecutor e) (runs e) m (published e) (now e) (errorHandlers e).

Definition setContextStatus (st : WorkflowStatus) (r : Run) : Run :=
  let c := runContext r in
  mkRun (runWorkflow r) (runOptions r)
        (mkContext (ctxWorkflowId c) (nodeOutputs c) (startTime c) st (variables c))
        (signalAborted r) (abortListener r) (timeoutId r) (promise r) (pc r)
        (runNodesExecuted r).

Definition setNodeOutputs (outs : gmap string (gmap string value)) (r : Run) : Run :=
  let c := runContext r in
  mkRun (runWorkflow r) (runOptions r)
        (mkContext (ctxWorkflowId c) outs (startTime c) (ctxStatus c) (variables c))
        (signalAborted r) (abortListener r) (timeoutId r) (promise r) (pc r)
        (runNodesExecuted r).

Definition setAborted (r : Run) : Run :=
  mkRun (runWorkflow r) (runOptions r) (runContext r) true (abortListener r)
        (timeoutId r) (promise r) (pc r) (runNodesExecuted r).

Definition addAbortListener (r : Run) : Run :=
  mkRun (runWorkflow r) (runOptions r) (runContext r) (signalAborted r) true
        (timeoutId r) (promise r) (pc r) (runNodesExecuted r).

Definition clearTimeout (r : Run) : Run :=
  mkRun (runWorkflow r) (runOptions r) (runContext r) (signalAborted r)
        (abortListener r) false (promise r) (pc r) (runNodesExecuted r).

Definition setPc (p : Pc) (r : Run) : Run :=
  mkRun (runWorkflow r) (runOptions r) (runContext r) (signalAborted r)
        (abortListener r) (timeoutId r) (promise r) p (runNodesExecuted r).

Definition countNode (r : Run) : Run :=
  mkRun (runWorkflow r) (runOptions r) (runContext r) (signalAborted r)
        (abortListener r) (timeoutId r) (promise r) (pc r)
        (runNodesExecuted r + 1).

(** [resolve] and [reject] settle a promise once; later calls are ignored. *)
Definition settle (p : PromiseState) (r : Run) : Run :=
  match promise r with
  | PromisePending =>
      mkRun (runWorkflow r) (runOptions r) (runContext r) (signalAborted r)
            (abortListener r) (timeoutId r) p (pc r) (runNodesExecuted r)
  | _ => r
  end.

Definition resolve (rid : nat) (r : WorkflowResult) : t → t :=
  updateRun rid (settle (PromiseResolved r)).
Definition reject (rid : nat) (errorMessage : string) : t → t :=
  updateRun rid (settle (PromiseRejected errorMessage)).

Definition cancelledMessage : string := "Workflow execution was cancelled".
Definition timedOutMessage : string := "Workflow execution timed out".

(** [handleWorkflowError] is [async] and its callers never await it.  A
    call runs up to its [await this.eventBus.publish(...)]: it marks the
    entry and the context [failed], starts the publish, and is suspended
    there; the caller goes on, so its [reject] comes before the entry is
    deleted. *)
Definition handleWorkflowError (workflowId : string) (errorMessage : string)
    (e : t) : t :=
  match activeWorkflows e !! workflowId with
  | Some activeWorkflow =>
      let e1 := setActive (<[workflowId := mkActive Failed (activeRun activeWorkflow)]>
                             (activeWorkflows e)) e in
      let e2 := updateRun (activeRun activeWorkflow) (setContextStatus Failed) e1 in
      let e3 := publish CoreEventTypes.WORKFLOW_FAILED
                        (PFailed workflowId errorMessage) e2 in
      mk (nodeExecutor e3) (runs e3) (activeWorkflows e3) (published e3) (now e3)
         (errorHandlers e3 ++ [workflowId])
  | None => e
  end.

(** The rest of [handleWorkflowError], which runs when the publish it
    awaits has settled: the suspended call number [k] deletes whatever
    entry [activeWorkflows] holds under its workflow id at that time. *)
Definition handleWorkflowErrorResumes (k : nat) (e : t) : t :=
  match errorHandlers e !! k with
  | Some workflowId =>
      mk (nodeExecutor e) (runs e) (delete workflowId (activeWorkflows e))
         (published e) (now e) (delete k (errorHandlers e))
  | None => e
  end.

(** The listener that [executeWorkflow] registers for the signal's ['abort']
    event.  It runs when the event is dispatched, which is after the signal
    has become aborted. *)
Definition onAbort (rid : nat) (e : t) : t :=
  let e1 := updateRun rid clearTimeout e in
  match runs e1 !! rid with
  | Some r =>
      if negb (signalAborted r) then
        let workflowId := workflowId (runWorkflow r) in
        reject rid cancelledMessage
               (handleWorkflowError workflowId cancelledMessage e1)
      else e1
  | None => e1
  end.

(** [controller.abort()]: the first call marks the signal and dispatches
    ['abort'] to the listeners registered by then; later calls do nothing. *)
Definition abort (rid : nat) (e : t) : t :=
  match runs e !! rid with
  | Some r =>
      if signalAborted r then e
      else
        let e1 := updateRun rid setAborted e in
        if abortListener r then onAbort rid e1 else e1
  | None => e
  end.

(** The synchronous prefix of [executeWorkflow], up to its first [await].
    Returns the index of the new run. *)
Definition executeWorkflow (workflow : Workflow) (options : ExecutionOptions)
    (e : t) : t * nat :=
  let rid := length (runs e) in
  let context := mkContext (workflowId workflow) ∅ (now e) Running
                           (optVariables options) in
  let r := mkRun workflow options context false false
                 (bool_decide (0 < optTimeout options))
                 PromisePending AwaitStarted 0 in
  let e1 := mk (nodeExecutor e) (runs e ++ [r])
               (<[workflowId workflow := mkActive Running rid]> (activeWorkflows e))
               (published e) (now e) (errorHandlers e) in
  (publish CoreEventTypes.WORKFLOW_STARTED (PStarted (workflowId workflow)) e1, rid).

(** The callback of the timer armed by [executeWorkflow]. *)
Definition timeoutFires (rid : nat) (e : t) : t :=
  match runs e !! rid with
  | Some r =>
      if timeoutId r then
        let e1 := abort rid (updateRun rid clearTimeout e) in
        reject rid timedOutMessage
               (handleWorkflowError (workflowId (runWorkflow r)) timedOutMessage e1)
      else e
  | None => e
  end.

(** The [catch] block of [executeWorkflow]. *)
Definition catchError (rid : nat) (workflowId : string) (errorMessage : string)
    (e : t) : t :=
  updateRun rid (setPc Returned)
    (reject rid errorMessage (handleWorkflowError workflowId errorMessage e)).

(** The code after the loops: clear the timer, give up silently when the
    signal is aborted, otherwise build the result and publish it. *)
Definition finish (rid : nat) (r : Run) (e : t) : t :=
  let workflowId := workflowId (runWorkflow r) in
  let e1 := updateRun rid clearTimeout e in
  if signalAborted r then updateRun rid (setPc Returned) e1
  else
    let result := createWorkflowResult (runWorkflow r) (runContext r)
                                       (runNodesExecuted r) (now e) in
    let e2 :=
      match activeWorkflows e1 !! workflowId with
      | Some activeWorkflow =>
          setActive (<[workflowId := mkActive Completed (activeRun activeWorkflow)]>
                       (activeWorkflows e1)) e1
      | None => e1
      end in
    updateRun rid (setPc (AwaitCompleted result))
      (publish CoreEventTypes.WORKFLOW_COMPLETED (PCompleted workflowId result) e2).

Definition findNode (workflow : Workflow) (id : string) : option Node :=
  snd <$> list_find (λ n, nodeId n = id) (nodes workflow).

Definition publishAll (events : list Event) (e : t) : t :=
  mk (nodeExecutor e) (runs e) (activeWorkflows e) (published e ++ events) (now e)
     (errorHandlers e).

(** What [Promise.all] over a level has seen so far: the first rejection,
    and whether some node has not settled. *)
Record LevelProgress := mkLevel {
  levelEngine : t;
  levelFailure : option string;
  levelPending : bool
}.

(** One node of a level in parallel mode, started with the inputs gathered
    from [context], the context as it is when the level starts. *)
Definition runLevelNode (rid : nat) (workflow : Workflow)
    (context : ExecutionContext) (acc : LevelProgress) (id : string)
  : LevelProgress :=
  let e := levelEngine acc in
  match findNode workflow id with
  | None => acc
  | Some node =>
      let inputs := gatherInputs node workflow context in
      let '(events, settled) :=
        NodeExecutor.executeNode (nodeExecutor e) node inputs context in
      let e1 := publishAll events e in
      match settled with
      | Done outputs =>
          let e2 :=
            updateRun rid
              (λ r, countNode (setNodeOutputs
                      (<[id := outputs]> (nodeOutputs (runContext r))) r)) e1 in
          mkLevel e2 (levelFailure acc) (levelPending acc)
      | Thrown m =>
          mkLevel (abort rid e1) (Some (default m (levelFailure acc)))
                  (levelPending acc)
      | OutOfFuel => mkLevel e1 (levelFailure acc) true
      end
  end.

(** The body of [executeWorkflow] from one suspension to the next. *)
Definition step (rid : nat) (e : t) : t :=
  match runs e !! rid with
  | None => e
  | Some r =>
      let workflow := runWorkflow r in
      let options := runOptions r in
      let id := workflowId workflow in
      match pc r with
      | AwaitStarted =>
          match topologicalSort workflow with
          | Done executionOrder =>
              let e1 := updateRun rid addAbortListener e in
              let e2 :=
                match optInputs options with
                | Some inputs =>
                    updateRun rid
                      (λ r, setNodeOutputs
                              (foldl (λ outs entryNodeId, <[entryNodeId := inputs]> outs)
                                     (nodeOutputs (runContext r))
                                     (entryPoints workflow)) r) e1
                | None => e1
                end in
              if optParallel options
              then updateRun rid
                     (setPc (ParLoop (groupNodesByLevel workflow executionOrder))) e2
              else updateRun rid (setPc (SeqLoop executionOrder)) e2
          | Thrown m => catchError rid id m e
          | OutOfFuel => e
          end
      | SeqLoop [] => finish rid r e
      | SeqLoop (nodeId :: rest) =>
          if signalAborted r then finish rid r e
          else
            match findNode workflow nodeId with
            | None => updateRun rid (setPc (SeqLoop rest)) e
            | Some node =>
                let inputs := gatherInputs node workflow (runContext r) in
                let '(events, settled) :=
                  NodeExecutor.executeNode (nodeExecutor e) node inputs (runContext r) in
                let e1 := publishAll events e in
                match settled with
                | Done outputs =>
                    updateRun rid
                      (λ r, setPc (SeqLoop rest)
                              (countNode (setNodeOutputs
                                 (<[nodeId := outputs]> (nodeOutputs (runContext r))) r)))
                      e1
                | Thrown m => catchError rid id m e1
                | OutOfFuel => updateRun rid (setPc AwaitNode) e1
                end
            end
      | ParLoop [] => finish rid r e
      | ParLoop (level :: rest) =>
          if signalAborted r then finish rid r e
          else
            let joined :=
              foldl (runLevelNode rid workflow (runContext r))
                    (mkLevel e None false) level in
            match levelFailure joined with
            | Some m => catchError rid id m (levelEngine joined)
            | None =>
                if levelPending joined
                then updateRun rid (setPc AwaitNode) (levelEngine joined)
                else updateRun rid (setPc (ParLoop rest)) (levelEngine joined)
            end
      | AwaitCompleted result =>
          updateRun rid (setPc Returned)
            (resolve rid result (setActive (delete id (activeWorkflows e)) e))
      | AwaitNode => e
      | Returned => e
      end
  end.

(** [n] further steps of a run. *)
Fixpoint steps (n : nat) (rid : nat) (e : t) : t :=
  match n with
  | O => e
  | S n' => steps n' rid (step rid e)
  end.

Definition statusName (st : WorkflowStatus) : string :=
  match st with
  | Pending => "pending" | Running => "running" | Paused => "paused"
  | Completed => "completed" | Failed => "failed" | Cancelled => "cancelled"
  end.

(** [pauseWorkflow] *)
Definition pauseWorkflow (workflowId : string) (e : t) : outcome t :=
  match activeWorkflows e !! workflowId with
  | None => Thrown ("No active workflow with ID " +:+ workflowId)
  | Some activeWorkflow =>
      if decide (status activeWorkflow = Running) then
        let e1 := setActive (<[workflowId := mkActive Paused (activeRun activeWorkflow)]>
                               (activeWorkflows e)) e in
        let e2 := updateRun (activeRun activeWorkflow) (setContextStatus Paused) e1 in
        Done (publish CoreEventTypes.WORKFLOW_PAUSED (PPaused workflowId) e2)
      else Thrown ("Workflow " +:+ workflowId +:+ " is not running (status: "
                   +:+ statusName (status activeWorkflow) +:+ ")")
  end.

(** [resumeWorkflow] *)
Definition resumeWorkflow (workflowId : string) (e : t) : outcome t :=
  match activeWorkflows e !! workflowId with
  | None => Thrown ("No active workflow with ID " +:+ workflowId)
  | Some activeWorkflow =>
      if decide (status activeWorkflow = Paused) then
        let e1 := setActive (<[workflowId := mkActive Running (activeRun activeWorkflow)]>
                               (activeWorkflows e)) e in
        let e2 := updateRun (activeRun activeWorkflow) (setContextStatus Running) e1 in
        Done (publish CoreEventTypes.WORKFLOW_RESUMED (PResumed workflowId) e2)
      else Thrown ("Workflow " +:+ workflowId +:+ " is not paused (status: "
                   +:+ statusName (status activeWorkflow) +:+ ")")
  end.

(** [stopWorkflow] *)
Definition stopWorkflow (workflowId : string) (e : t) : outcome t :=
  match activeWorkflows e !! workflowId with
  | None => Thrown ("No active workflow with ID " +:+ workflowId)
  | Some activeWorkflow =>
      let e1 := setActive (<[workflowId := mkActive Cancelled (activeRun activeWorkflow)]>
                             (activeWorkflows e)) e in
      let e2 := updateRun (activeRun activeWorkflow) (setContextStatus Cancelled) e1 in
      let e3 := abort (activeRun activeWorkflow) e2 in
      Done (publish CoreEventTypes.WORKFLOW_FAILED
                    (PFailed workflowId cancelledMessage) e3)
  end.

(** [getWorkflowStatus] *)
Definition getWorkflowStatus (workflowId : string) (e : t) : WorkflowStatus :=
  match activeWorkflows e !! workflowId with
  | None => Completed
  | Some activeWorkflow => status activeWorkflow
  end.

(** *** Vocabulary for reading the event log of a run *)

(** The inputs with which [nodeId] was started, one entry for each
    [node:execution:started] event about it. *)
Definition recordedInputs (nodeId : string) (log : list Event)
  : list (gmap string value) :=
  omap (λ ev, match eventPayload ev with
              | PNodeStarted n _ inputs =>
                  if decide (n = nodeId) then Some inputs else None
              | _ => None
              end) log.

(** How often an event of type [eventType] was published. *)
Definition publishedCount (eventType0 : string) (log : list Event) : nat :=
  length (filter (λ ev, eventType ev = eventType0) log).

Definition promiseOf (rid : nat) (e : t) : option PromiseState :=
  promise <$> runs e !! rid.

Definition contextOf (rid : nat) (e : t) : option ExecutionContext :=
  runContext <$> runs e !! rid.

(** *** Reachable engine states *)

(** The states an engine can be in: a fresh engine, and from any state a
    call of [executeWorkflow], the continuation of a run to its next
    suspension, an expiring timer, a control operation that returns, or a
    suspended [handleWorkflowError] that resumes. *)
Inductive reachable : t → Prop :=
  | reachable_create ex time : reachable (create ex time)
  | reachable_execute e w o :
      reachable e → reachable (executeWorkflow w o e).1
  | reachable_step e rid : reachable e → reachable (step rid e)
  | reachable_timeout e rid : reachable e → reachable (timeoutFires rid e)
  | reachable_pause e id e' :
      reachable e → pauseWorkflow id e = Done e' → reachable e'
  | reachable_resume e id e' :
      reachable e → resumeWorkflow id e = Done e' → reachable e'
  | reachable_stop e id e' :
      reachable e → stopWorkflow id e = Done e' → reachable e'
  | reachable_errorHandler e k :
      reachable e → reachable (handleWorkflowErrorResumes k e).

(** No trace of [completed] in what a run reports: neither in its context,
    nor in the result it is about to resolve with, nor in the result it has
    resolved with. *)
Definition runOK (r : Run) : Prop :=
  ctxStatus (runContext r) ≠ Completed
  ∧ (∀ res, pc r = AwaitCompleted res → resStatus res ≠ Completed)
  ∧ (∀ res, promise r = PromiseResolved res → resStatus res ≠ Completed).

Definition runsOK (e : t) : Prop := Forall runOK (runs e).

(** *** Vocabulary for stating what the sort guarantees *)








(** *** Invariants of the sort, used to state its lemmas *)





End Engine.

(** ** Subscription.ts and EventBus.ts *)

Module EventBus.

(** The options a caller passes to [subscribe]; every field is optional. *)
Record SubscriptionOptions := mkOptions {
  priority : option Z;
  once : option bool;
  id : option string;
  async : option bool
}.

Definition defaultOptions : SubscriptionOptions := mkOptions None None None None.

(** The handle returned to the subscriber. *)
Record Subscription := mkSubscription {
  subEventType : string;
  subId : string
}.

(** What a callback does when it is called with the event data: the
    subscriptions it registers on the bus while it runs, and the error it
    throws, if any.  A callback that fails does so before it returns: one
    that returns a promise that is rejected later is not modelled. *)
#[warnings="-register-all"]
Inductive Reaction : Type :=
  | React (subscribes : list (string * (value → Reaction) * SubscriptionOptions))
          (error : option string).

Definition Callback : Type := value → Reaction.

Definition reactionSubscribes (r : Reaction)
  : list (string * Callback * SubscriptionOptions) :=
  match r with React l _ => l end.
Definition reactionError (r : Reaction) : option string :=
  match r with React _ err => err end.

(** An entry of the subscription table.  [uid] stands for the identity of
    the [SubscriptionInfo] object; the other fields are those the source
    stores, with the defaults of [subscribe] applied. *)
Record SubscriptionInfo := mkInfo {
  uid : nat;
  infoEventType : string;
  callback : Callback;
  infoPriority : Z;
  infoOnce : bool;
  infoAsync : bool;
  subscription : Subscription
}.

(** [subscriptions] is a [Map] from event type to a [Set] of entries; the
    set is iterated in insertion order, so it is a list. *)
Record t := mk {
  subscriptions : gmap string (list SubscriptionInfo);
  nextUid : nat
}.

Definition empty : t := mk ∅ 0.

(** One invocation of a callback by [publish]. *)
Record Call := mkCall {
  callUid : nat;
  callEventType : string
}.

(** [generateId] of [SubscriptionImpl]: an identifier not handed out before. *)
Definition generateId (n : nat) : string := "sub_" +:+ pretty n.

(** [subscribe] *)
Definition subscribe (eventType : string) (callback : Callback)
    (options : SubscriptionOptions) (bus : t) : t * Subscription :=
  let subscriptionSet := default [] (subscriptions bus !! eventType) in
  let subscription :=
    mkSubscription eventType
      (match id options with
       | Some s => if String.eqb s "" then generateId (nextUid bus) else s
       | None => generateId (nextUid bus)
       end) in
  let subscriptionInfo :=
    mkInfo (nextUid bus) eventType callback
           (default 0%Z (priority options))
           (default false (once options))
           (default true (async options))
           subscription in
  (mk (<[eventType := subscriptionSet ++ [subscriptionInfo]]> (subscriptions bus))
      (S (nextUid bus)),
   subscription).

(** The loop of [unsubscribe]: delete the first entry whose subscription
    has the given id. *)
Fixpoint removeFirst (id : string) (subscribers : list SubscriptionInfo)
  : list SubscriptionInfo :=
  match subscribers with
  | [] => []
  | sub :: rest =>
      if decide (subId (subscription sub) = id) then rest
      else sub :: removeFirst id rest
  end.

(** [unsubscribe] *)
Definition unsubscribe (subscription : Subscription) (bus : t) : t :=
  let eventType := subEventType subscription in
  match subscriptions bus !! eventType with
  | None => bus
  | Some subscribers =>
      let subscribers' := removeFirst (subId subscription) subscribers in
      match subscribers' with
      | [] => mk (delete eventType (subscriptions bus)) (nextUid bus)
      | _ => mk (<[eventType := subscribers']> (subscriptions bus)) (nextUid bus)
      end
  end.

(** [Array.prototype.sort] with the comparator
    [(a, b) => b.priority - a.priority]: a stable sort into descending
    priority. *)
Fixpoint insertByPriority (sub : SubscriptionInfo) (sorted : list SubscriptionInfo)
  : list SubscriptionInfo :=
  match sorted with
  | [] => [sub]
  | other :: rest =>
      if decide (infoPriority sub < infoPriority other)%Z
      then other :: insertByPriority sub rest
      else sub :: other :: rest
  end.

Definition sortByPriority (subscribers : list SubscriptionInfo)
  : list SubscriptionInfo :=
  foldr insertByPriority [] subscribers.

(** The payload of the [system:error] event that reports a failed handler. *)
Definition systemErrorData (eventType : string) (error : string) (data : value)
  : value :=
  VObj [("message", VStr ("Error in event handler for " +:+ eventType));
        ("error", VStr error);
        ("eventType", VStr eventType);
        ("data", data)].

(** What [publish] accumulates while it delivers: the table, the callbacks
    called so far, its own [toRemove] array, and the [toRemove] arrays of the
    [publish] calls it has made on [system:error], which remove nothing
    before they resume. *)
Record Delivery := mkDelivery {
  bus : t;
  calls : list Call;
  toRemove : list Subscription;
  nestedToRemove : list Subscription
}.

Definition applySubscribes (requests : list (string * Callback * SubscriptionOptions))
    (b : t) : t :=
  foldl (λ b request,
           let '(eventType, callback, options) := request in
           fst (subscribe eventType callback options b))
        b requests.

(** The arrow function that [publish] maps over the sorted subscribers:
    call the callback; on success note a [once] subscription for removal;
    on failure report on [system:error], unless the failed event is itself
    [system:error].  [republish] is [this.publish] on [system:error], run
    up to its [await]: it calls the subscribers of [system:error] at once,
    and what it would remove is kept for later. *)
Definition deliverTo
    (republish : value → t → outcome (t * list Call * list Subscription))
    (eventType : string) (data : value) (sub : SubscriptionInfo) (d : Delivery)
  : outcome Delivery :=
  let reaction := callback sub data in
  let b1 := applySubscribes (reactionSubscribes reaction) (bus d) in
  let calls1 := calls d ++ [mkCall (uid sub) eventType] in
  match reactionError reaction with
  | None =>
      Done (mkDelivery b1 calls1
              (if infoOnce sub then toRemove d ++ [subscription sub]
               else toRemove d)
              (nestedToRemove d))
  | Some error =>
      if decide (eventType ≠ CoreEventTypes.SYSTEM_ERROR) then
        match republish (systemErrorData eventType error data) b1 with
        | Done (b2, nested, removals) =>
            Done (mkDelivery b2 (calls1 ++ nested) (toRemove d)
                    (nestedToRemove d ++ removals))
        | Thrown m => Thrown m
        | OutOfFuel => OutOfFuel
        end
      else Done (mkDelivery b1 calls1 (toRemove d) (nestedToRemove d))
  end.

(** [publish] up to its [await Promise.all]: the callbacks of the sorted
    snapshot are called one after the other in the same turn, each failure
    reported as it happens; nothing is removed yet.  The result lists what
    the loops after the [await]s will remove: first what the reports noted,
    which resume before this call does, then this call's own [toRemove].
    The only recursive call is the one that reports a failed handler on
    [system:error]; [fuel] bounds its nesting. *)
Fixpoint publishCalls (fuel : nat) (eventType : string) (data : value) (b : t)
  : outcome (t * list Call * list Subscription) :=
  match fuel with
  | O => OutOfFuel
  | S fuel' =>
      match subscriptions b !! eventType with
      | None | Some [] => Done (b, [], [])
      | Some subscribers =>
          let sortedSubscribers := sortByPriority subscribers in
          match forEach (deliverTo (publishCalls fuel' CoreEventTypes.SYSTEM_ERROR)
                                   eventType data)
                        sortedSubscribers (mkDelivery b [] [] []) with
          | Done d => Done (bus d, calls d, nestedToRemove d ++ toRemove d)
          | Thrown m => Thrown m
          | OutOfFuel => OutOfFuel
          end
      end
  end.

(** [publish], from the call to the moment its promise resolves: the
    callbacks, then the removals, whose order does not change the table
    ([removals_permutation]). *)
Definition publish (fuel : nat) (eventType : string) (data : value) (b : t)
  : outcome (t * list Call) :=
  match publishCalls fuel eventType data b with
  | Done (b', cs, removals) =>
      Done (foldl (λ b subscription, unsubscribe subscription b) b' removals, cs)
  | Thrown m => Thrown m
  | OutOfFuel => OutOfFuel
  end.

(** A handler failure is reported at most one level deep, so two levels of
    fuel are always enough. *)
Definition publishFuel : nat := 2.

(** [hasSubscribers] *)
Definition hasSubscribers (eventType : string) (b : t) : bool :=
  match subscriptions b !! eventType with
  | Some (_ :: _) => true
  | _ => false
  end.

(** [getSubscriberCount] *)
Definition getSubscriberCount (eventType : string) (b : t) : nat :=
  match subscriptions b !! eventType with
  | Some subscribers => length subscribers
  | None => 0
  end.

(** [clearEventSubscriptions] *)
Definition clearEventSubscriptions (eventType : string) (b : t) : t :=
  mk (delete eventType (subscriptions b)) (nextUid b).

(** [clearAllSubscriptions] *)
Definition clearAllSubscriptions (b : t) : t := mk ∅ (nextUid b).

(** *** Vocabulary for the delivery order *)

(** The subscribers of [eventType] when [publish] is called. *)
Definition subscribersOf (eventType : string) (b : t) : list SubscriptionInfo :=
  default [] (subscriptions b !! eventType).

(** The callbacks that a [publish] of [eventType] started for that event,
    in the order it started them. *)
Definition startedFor (eventType : string) (cs : list Call) : list nat :=
  map callUid (filter (λ c, callEventType c = eventType) cs).

(** [a] stands before [b] in [l]. *)
Definition before {A : Type} (l : list A) (a b : A) : Prop :=
  ∃ i j, i < j ∧ l !! i = Some a ∧ l !! j = Some b.

(** Descending priority, as a property of a list. *)
Definition descending (l : list SubscriptionInfo) : Prop :=
  ∀ x y, before l x y → (infoPriority y ≤ infoPriority x)%Z.

(** Every entry of the table has an identity older than [nextUid]. *)
Definition wellFormed (b : t) : Prop :=
  ∀ eventType subscribers sub,
    subscriptions b !! eventType = Some subscribers → sub ∈ subscribers →
    uid sub < nextUid b.

End EventBus.

(** ** EventPropagator.ts *)

Module EventPropagator.

(** The propagator declares its own, smaller, [Workflow] and [Node]
    interfaces; [Connection] has the fields of the engine's. *)
Record Node := mkNode {
  id : string;
  type : string
}.

Record Workflow := mkWorkflow {
  workflowId : string;
  nodes : list Node;
  connections : list Connection
}.

Record PropagationOptions := mkOptions {
  propagateChain : bool;
  transform : option (gmap string value → string → string → gmap string value)
}.

Definition EventFilter : Type := string → gmap string value → bool.

(** The event bus is represented by the record of the [publish] calls made
    on it. *)
Record t := mk {
  workflows : gmap string Workflow;
  filters : list EventFilter;
  visitedNodes : gset string;
  published : list (string * gmap string value)
}.

Definition create : t := mk ∅ [] ∅ [].

(** [registerWorkflow]: the state it leaves, and whether it threw. *)
Definition registerWorkflow (workflow : Workflow) (p : t) : t * outcome unit :=
  if decide (is_Some (workflows p !! workflowId workflow)) then
    (p, Thrown ("Workflow with ID " +:+ workflowId workflow
                +:+ " is already registered"))
  else
    (mk (<[workflowId workflow := workflow]> (workflows p)) (filters p)
        (visitedNodes p) (published p),
     Done tt).

(** [unregisterWorkflow] *)
Definition unregisterWorkflow (workflowId : string) (p : t) : t :=
  mk (delete workflowId (workflows p)) (filters p) (visitedNodes p) (published p).

(** [hasWorkflow] *)
Definition hasWorkflow (workflowId : string) (p : t) : bool :=
  bool_decide (is_Some (workflows p !! workflowId)).

(** [addEventFilter] *)
Definition addEventFilter (filter : EventFilter) (p : t) : t :=
  mk (workflows p) (filters p ++ [filter]) (visitedNodes p) (published p).

(** [clearEventFilters] *)
Definition clearEventFilters (p : t) : t :=
  mk (workflows p) [] (visitedNodes p) (published p).

(** [passesFilters] *)
Definition passesFilters (p : t) (eventType : string) (data : gmap string value)
  : bool :=
  forallb (λ filter : EventFilter, filter eventType data) (filters p).

Definition nodeEventType (targetNodeId eventType : string) : string :=
  "node:" +:+ targetNodeId +:+ ":" +:+ eventType.

Definition markVisited (sourceNodeId : string) (p : t) : t :=
  mk (workflows p) (filters p) ({[sourceNodeId]} ∪ visitedNodes p) (published p).

Definition busPublish (eventType : string) (data : gmap string value) (p : t) : t :=
  mk (workflows p) (filters p) (visitedNodes p) (published p ++ [(eventType, data)]).

(** [propagateEventToConnectedNodes], from its call to its return when
    nothing else uses the propagator while the call is suspended at an
    [await].  The suspensions, and what other calls can do to the shared
    [visitedNodes] in between, are in [resume] below; the two agree on a
    call that runs alone ([completesAlone]). *)
Fixpoint propagateEventToConnectedNodes (fuel : nat) (workflow : Workflow)
    (sourceNodeId : string) (eventType : string) (data : gmap string value)
    (options : PropagationOptions) (p : t) : outcome t :=
  match fuel with
  | O => OutOfFuel
  | S fuel' =>
      if decide (sourceNodeId ∈ visitedNodes p) then Done p
      else
        let connections :=
          filter (λ conn, WorkflowTypes_sourceNodeId conn = sourceNodeId)
                 (connections workflow) in
        forEach
          (λ connection p,
             let targetNodeId := WorkflowTypes_targetNodeId connection in
             let eventData := <["sourceNodeId" := VStr sourceNodeId]> data in
             let eventData :=
               match transform options with
               | Some f => f eventData sourceNodeId targetNodeId
               | None => eventData
               end in
             if negb (passesFilters p eventType eventData) then Done p
             else
               let p1 := busPublish (nodeEventType targetNodeId eventType) eventData p in
               if propagateChain options
               then propagateEventToConnectedNodes fuel' workflow targetNodeId
                                                   eventType eventData options p1
               else Done p1)
          connections (markVisited sourceNodeId p)
  end.

(** Enough fuel for any workflow: a call nests once per connection target
    that has not been visited, and once more to find a node visited. *)
Definition propagationFuel (workflow : Workflow) : nat :=
  length (connections workflow) + 2.

Definition clearVisited (p : t) : t :=
  mk (workflows p) (filters p) ∅ (published p).

(** [propagateEvent], from its call to its return when nothing else uses
    the propagator in between. *)
Definition propagateEvent (workflowId sourceNodeId eventType : string)
    (data : gmap string value) (options : PropagationOptions) (p : t)
  : outcome t :=
  match workflows p !! workflowId with
  | None => Thrown ("Workflow with ID " +:+ workflowId +:+ " is not registered")
  | Some workflow =>
      propagateEventToConnectedNodes (propagationFuel workflow) workflow
        sourceNodeId eventType data options (clearVisited p)
  end.

(** *** Calls with their suspensions

    [propagateEvent] and [propagateEventToConnectedNodes] are [async].  A
    call runs until it reaches an [await], where it is suspended; other
    calls on the same propagator can be started or resumed before it goes
    on, and they share [visitedNodes], which every top-level call clears.
    A call is therefore a value of its own: the activations of
    [propagateEventToConnectedNodes] that are on its stack, each in its
    [for] loop, and the [await] at which it is suspended. *)

(** An activation of [propagateEventToConnectedNodes]: its arguments, and
    the connections its loop has not come to yet. *)
Record Frame := mkFrame {
  frameSource : string;
  frameData : gmap string value;
  framePending : list Connection
}.

(** Where a call is suspended: at [await this.eventBus.publish(...)], with
    the target and the payload of the connection at hand, or at the [await]
    of a call of [propagateEventToConnectedNodes] that has returned. *)
Inductive Suspension : Type :=
  | AwaitPublish (targetNodeId : string) (eventData : gmap string value)
  | AwaitCall.

Record Propagation := mkPropagation {
  callWorkflow : Workflow;
  callEventType : string;
  callOptions : PropagationOptions;
  suspendedAt : Suspension;
  callStack : list Frame
}.

(** The loop of [propagateEventToConnectedNodes] from the connection it is
    at to its next publish: connections whose payload the filters reject
    are skipped.  The result is the propagator after the publish with the
    target, the payload and the connections left, or [None] when the loop
    ends. *)
Fixpoint runToPublish (eventType : string) (options : PropagationOptions)
    (sourceNodeId : string) (data : gmap string value)
    (pending : list Connection) (p : t)
  : t * option (string * gmap string value * list Connection) :=
  match pending with
  | [] => (p, None)
  | connection :: rest =>
      let targetNodeId := WorkflowTypes_targetNodeId connection in
      let eventData := <["sourceNodeId" := VStr sourceNodeId]> data in
      let eventData :=
        match transform options with
        | Some f => f eventData sourceNodeId targetNodeId
        | None => eventData
        end in
      if negb (passesFilters p eventType eventData)
      then runToPublish eventType options sourceNodeId data rest p
      else (busPublish (nodeEventType targetNodeId eventType) eventData p,
            Some (targetNodeId, eventData, rest))
  end.

(** The activation [frame] goes on with its loop, above the activations
    [below]: up to the [await] of its next publish, or to its return, which
    leaves the caller at its own [await]. *)
Definition continueLoop (workflow : Workflow) (eventType : string)
    (options : PropagationOptions) (frame : Frame) (below : list Frame) (p : t)
  : t * Propagation :=
  match runToPublish eventType options (frameSource frame) (frameData frame)
                     (framePending frame) p with
  | (p', Some (targetNodeId, eventData, rest)) =>
      (p', mkPropagation workflow eventType options
             (AwaitPublish targetNodeId eventData)
             (mkFrame (frameSource frame) (frameData frame) rest :: below))
  | (p', None) => (p', mkPropagation workflow eventType options AwaitCall below)
  end.

(** A call of [propagateEventToConnectedNodes], up to its first [await] or
    to its return. *)
Definition enter (workflow : Workflow) (eventType : string)
    (options : PropagationOptions) (sourceNodeId : string)
    (data : gmap string value) (below : list Frame) (p : t) : t * Propagation :=
  if decide (sourceNodeId ∈ visitedNodes p)
  then (p, mkPropagation workflow eventType options AwaitCall below)
  else
    continueLoop workflow eventType options
      (mkFrame sourceNodeId data
         (filter (λ conn, WorkflowTypes_sourceNodeId conn = sourceNodeId)
                 (connections workflow)))
      below (markVisited sourceNodeId p).

(** [propagateEvent], up to its first [await]. *)
Definition start (workflowId sourceNodeId eventType : string)
    (data : gmap string value) (options : PropagationOptions) (p : t)
  : outcome (t * Propagation) :=
  match workflows p !! workflowId with
  | None => Thrown ("Workflow with ID " +:+ workflowId +:+ " is not registered")
  | Some workflow =>
      Done (enter workflow eventType options sourceNodeId data [] (clearVisited p))
  end.

(** A suspended call goes on, in the state [p] in which the propagator is
    by then, up to its next [await].  With nothing on its stack the call
    is [propagateEvent] at its [await], which returns. *)
Definition resume (c : Propagation) (p : t) : t * Propagation :=
  match suspendedAt c, callStack c with
  | AwaitPublish targetNodeId eventData, frame :: below =>
      if propagateChain (callOptions c)
      then enter (callWorkflow c) (callEventType c) (callOptions c)
                 targetNodeId eventData (frame :: below) p
      else continueLoop (callWorkflow c) (callEventType c) (callOptions c)
                        frame below p
  | AwaitCall, frame :: below =>
      continueLoop (callWorkflow c) (callEventType c) (callOptions c) frame below p
  | _, [] => (p, c)
  end.

(** The call has returned. *)
Definition finished (c : Propagation) : bool :=
  match suspendedAt c, callStack c with
  | AwaitCall, [] => true
  | _, _ => false
  end.

(** The call is resumed [n] times in a row: nothing else runs on the
    propagator in between. *)
Fixpoint resumeAlone (n : nat) (c : Propagation) (p : t) : t * Propagation :=
  match n with
  | O => (p, c)
  | S n' => let '(p', c') := resume c p in resumeAlone n' c' p'
  end.

(** A top-level call that nothing overlaps: started in state [p] and
    resumed until it has returned, with no other call started or resumed
    from its start to its return, it leaves the propagator in state [p']. *)
Definition completesAlone (workflowId sourceNodeId eventType : string)
    (data : gmap string value) (options : PropagationOptions) (p p' : t) : Prop :=
  ∃ p1 c1 n c',
    start workflowId sourceNodeId eventType data options p = Done (p1, c1)
    ∧ resumeAlone n c1 p1 = (p', c')
    ∧ finished c' = true.

(** *** Vocabulary for counting publishes *)

(** How often [eventType] was published. *)
Definition publishCount (eventType : string) (log : list (string * gmap string value))
  : nat :=
  length (filter (λ entry, entry.1 = eventType) log).

(** The number of connections of [workflow] that enter [nodeId]. *)
Definition inDegree (workflow : Workflow) (nodeId : string) : nat :=
  length (filter (λ conn, WorkflowTypes_targetNodeId conn = nodeId)
                 (connections workflow)).

(** The number of connections that enter [nodeId] from a node in [sources]. *)
Definition inDegreeFrom (workflow : Workflow) (sources : gset string)
    (nodeId : string) : nat :=
  length (filter (λ conn, WorkflowTypes_targetNodeId conn = nodeId
                          ∧ WorkflowTypes_sourceNodeId conn ∈ sources)
                 (connections workflow)).

(** The nodes a call from [source] can visit: [source] itself and the
    targets of connections. *)
Definition reach (wf : Workflow) (source : string) : gset string :=
  {[source]} ∪ list_to_set (map WorkflowTypes_targetNodeId (connections wf)).

End EventPropagator.

(** ** Scenarios of the design document, and small inputs *)

Module Scenarios.

Definition port (name : string) : NodePort := mkNodePort name name "number".

(** S1, the linear sum: [A] yields [v = 7], [B] doubles it, [C] passes it
    on. *)
Definition nodeA : Node := mkNode "A" "const" "A" [] [port "v"].
Definition nodeB : Node := mkNode "B" "double" "B" [port "v"] [port "v"].
Definition nodeC : Node := mkNode "C" "sink" "C" [port "v"] [port "v"].

Definition linear : Workflow :=
  mkWorkflow "S1" "Linear sum" [nodeA; nodeB; nodeC]
    [mkConnection "c1" "A" "v" "B" "v"; mkConnection "c2" "B" "v" "C" "v"]
    ["A"] ["C"].


(** The same graph with its two connections listed in the other order. *)
Definition linearReordered : Workflow :=
  mkWorkflow "S1" "Linear sum" [nodeA; nodeB; nodeC]
    [mkConnection "c2" "B" "v" "C" "v"; mkConnection "c1" "A" "v" "B" "v"]
    ["A"] ["C"].

(** S3, the cycle [A → B → A]. *)
Definition cyclic : Workflow :=
  mkWorkflow "S3" "Cycle" [nodeA; nodeB]
    [mkConnection "c1" "A" "v" "B" "v"; mkConnection "c2" "B" "v" "A" "v"]
    ["A"] ["B"].

Definition constExecutor (n : Z) : NodeExecutor.NodeExecutorFn :=
  λ _ _ _, Done {["v" := VNum n]}.

Definition doubleExecutor : NodeExecutor.NodeExecutorFn :=
  λ _ inputs _,
    match inputs !! "v" with
    | Some (VNum n) => Done {["v" := VNum (2 * n)]}
    | _ => Thrown "double: input v is not a number"
    end.

Definition sinkExecutor : NodeExecutor.NodeExecutorFn :=
  λ _ inputs _, Done inputs.

Definition executors (n : Z) : NodeExecutor.t :=
  NodeExecutor.registerNodeTypeExecutor "sink" sinkExecutor
    (NodeExecutor.registerNodeTypeExecutor "double" doubleExecutor
       (NodeExecutor.registerNodeTypeExecutor "const" (constExecutor n)
          NodeExecutor.empty)).

Definition noOptions : ExecutionOptions := mkOptions None 0 false ∅.

(** The engine after [executeWorkflow(linear)] has reached its first
    [await]. *)
Definition started (n : Z) : Engine.t :=
  (Engine.executeWorkflow linear noOptions (Engine.create (executors n) 0)).1.

(** A producer [U] connected to a consumer [V] that is also an entry
    point. *)
Definition nodeU : Node := mkNode "U" "const" "U" [] [port "p"].
Definition nodeV : Node := mkNode "V" "sink" "V" [port "q"] [port "q"].

Definition feedsEntry : Workflow :=
  mkWorkflow "W" "Producer and entry consumer" [nodeU; nodeV]
    [mkConnection "c" "U" "p" "V" "q"] ["V"] ["V"].

Definition feedsPlain : Workflow :=
  mkWorkflow "W" "Producer and consumer" [nodeU; nodeV]
    [mkConnection "c" "U" "p" "V" "q"] ["U"] ["V"].

(** The context when [V] gathers its inputs: [U] has produced [p = out]. *)
Definition afterU (out : value) (seed : option (gmap string value))
  : ExecutionContext :=
  mkContext "W"
    (match seed with
     | Some inputs => <["U" := {["p" := out]}]> {["V" := inputs]}
     | None => {["U" := {["p" := out]}]}
     end)
    0 Running ∅.

(** The engine after [executeWorkflow] on the producer/consumer workflow,
    where [U] yields [p = out], run for [n] steps. *)
Definition producerRun (w : Workflow) (out : value)
    (seed : option (gmap string value)) (n : nat) : Engine.t :=
  Engine.steps n 0
    (Engine.executeWorkflow w (mkOptions seed 0 false ∅)
       (Engine.create
          (NodeExecutor.registerNodeTypeExecutor "sink" sinkExecutor
             (NodeExecutor.registerNodeTypeExecutor "const"
                (λ _ _ _, Done {["p" := out]}) NodeExecutor.empty)) 0)).1.

(** S4: the linear run is stopped after its first node has completed. *)
Definition stoppedAfterFirstNode : outcome Engine.t :=
  Engine.stopWorkflow "S1" (Engine.steps 2 0 (started 7)).

(** Callbacks for the bus scenarios. *)
Definition returns : EventBus.Callback := λ _, EventBus.React [] None.
Definition throws : EventBus.Callback := λ _, EventBus.React [] (Some "Test error").

Definition withPriority (p : Z) : EventBus.SubscriptionOptions :=
  EventBus.mkOptions (Some p) None None None.
Definition onceOnly : EventBus.SubscriptionOptions :=
  EventBus.mkOptions None (Some true) None None.

(** Three subscribers of priorities 1, 3 and 2, subscribed in that order. *)
Definition prioritized : EventBus.t :=
  (EventBus.subscribe "workflow:started" returns (withPriority 2)
     (EventBus.subscribe "workflow:started" returns (withPriority 3)
        (EventBus.subscribe "workflow:started" returns (withPriority 1)
           EventBus.empty).1).1).1.

(** A single [once] subscriber, with the given callback. *)
Definition onceSubscriber (cb : EventBus.Callback) : EventBus.t :=
  (EventBus.subscribe "workflow:started" cb onceOnly EventBus.empty).1.

(** The bus after one [publish] of [workflow:started]. *)
Definition publishedOnce (b : EventBus.t) : EventBus.t :=
  match EventBus.publish EventBus.publishFuel "workflow:started" VNull b with
  | Done (b', _) => b'
  | _ => b
  end.

Definition callsOf (b : EventBus.t) : list nat :=
  match EventBus.publish EventBus.publishFuel "workflow:started" VNull b with
  | Done (_, cs) => map EventBus.callUid cs
  | _ => []
  end.

(** S6, the circular workflow [a → b → a], and a diamond. *)
Definition circular : EventPropagator.Workflow :=
  EventPropagator.mkWorkflow "circular"
    [EventPropagator.mkNode "a" "process"; EventPropagator.mkNode "b" "process"]
    [mkConnection "c1" "a" "out" "b" "in"; mkConnection "c2" "b" "out" "a" "in"].

Definition diamond : EventPropagator.Workflow :=
  EventPropagator.mkWorkflow "diamond"
    [EventPropagator.mkNode "s" "process"; EventPropagator.mkNode "l" "process";
     EventPropagator.mkNode "r" "process"; EventPropagator.mkNode "j" "process"]
    [mkConnection "c1" "s" "out" "l" "in"; mkConnection "c2" "s" "out" "r" "in";
     mkConnection "c3" "l" "out" "j" "in1"; mkConnection "c4" "r" "out" "j" "in2"].

Definition registered (w : EventPropagator.Workflow) : EventPropagator.t :=
  (EventPropagator.registerWorkflow w EventPropagator.create).1.

Definition chained : EventPropagator.PropagationOptions :=
  EventPropagator.mkOptions true None.

(** The event types published by a chained [propagateEvent] of ["ping"]. *)
Definition pings (w : EventPropagator.Workflow) (source : string) : list string :=
  match EventPropagator.propagateEvent (EventPropagator.workflowId w) source
          "ping" ∅ chained (registered w) with
  | Done p => map fst (EventPropagator.published p)
  | _ => []
  end.

(** S2, the diamond under parallel mode: [S] yields [x = 1], [L] yields
    [y = x + 1], [R] yields [z = x + 2], [J] yields [out = y + z]. *)
Definition diamondWorkflow : Workflow :=
  mkWorkflow "S2" "Diamond"
    [mkNode "S" "s" "S" [] [port "x"];
     mkNode "L" "l" "L" [port "x"] [port "y"];
     mkNode "R" "r" "R" [port "x"] [port "z"];
     mkNode "J" "j" "J" [port "y"; port "z"] [port "out"]]
    [mkConnection "c1" "S" "x" "L" "x"; mkConnection "c2" "S" "x" "R" "x";
     mkConnection "c3" "L" "y" "J" "y"; mkConnection "c4" "R" "z" "J" "z"]
    ["S"] ["J"].

Definition arithmetic (f : gmap string value → option (string * Z))
  : NodeExecutor.NodeExecutorFn :=
  λ _ inputs _,
    match f inputs with
    | Some (key, n) => Done {[key := VNum n]}
    | None => Thrown "missing input"
    end.

Definition number (inputs : gmap string value) (key : string) : option Z :=
  match inputs !! key with Some (VNum n) => Some n | _ => None end.

Definition diamondExecutors : NodeExecutor.t :=
  NodeExecutor.registerNodeTypeExecutor "j"
    (arithmetic (λ i, y ← number i "y"; z ← number i "z"; Some ("out", (y + z)%Z)))
    (NodeExecutor.registerNodeTypeExecutor "r"
       (arithmetic (λ i, x ← number i "x"; Some ("z", (x + 2)%Z)))
       (NodeExecutor.registerNodeTypeExecutor "l"
          (arithmetic (λ i, x ← number i "x"; Some ("y", (x + 1)%Z)))
          (NodeExecutor.registerNodeTypeExecutor "s"
             (arithmetic (λ _, Some ("x", 1%Z))) NodeExecutor.empty))).

(** The engine after [n] steps of a run of workflow [w]. *)
Definition runOf (w : Workflow) (ex : NodeExecutor.t) (parallel : bool) (n : nat)
  : Engine.t :=
  Engine.steps n 0
    (Engine.executeWorkflow w (mkOptions None 0 parallel ∅) (Engine.create ex 0)).1.

(** A callback that subscribes another callback to the event it is
    handling. *)
Definition subscribesAgain : EventBus.Callback :=
  λ _, EventBus.React [("workflow:started", returns, EventBus.defaultOptions)] None.

Definition selfExtending : EventBus.t :=
  (EventBus.subscribe "workflow:started" subscribesAgain EventBus.defaultOptions
     EventBus.empty).1.

(** One failing and one succeeding subscriber, and a listener on
    [system:error]. *)
Definition withFailure : EventBus.t :=
  (EventBus.subscribe "system:error" returns EventBus.defaultOptions
     (EventBus.subscribe "workflow:started" returns EventBus.defaultOptions
        (EventBus.subscribe "workflow:started" throws EventBus.defaultOptions
           EventBus.empty).1).1).1.

(** S5: the chain [n1 → n2 → n3], a filter that admits values above 50, and
    a transform that records the edge travelled. *)
Definition chain : EventPropagator.Workflow :=
  EventPropagator.mkWorkflow "chain"
    [EventPropagator.mkNode "n1" "source"; EventPropagator.mkNode "n2" "process";
     EventPropagator.mkNode "n3" "sink"]
    [mkConnection "c1" "n1" "out" "n2" "in"; mkConnection "c2" "n2" "out" "n3" "in"].

Definition above50 : EventPropagator.EventFilter :=
  λ _ data, match data !! "value" with
            | Some (VNum n) => bool_decide (50 < n)%Z
            | _ => false
            end.

Definition recordPath (data : gmap string value) (source target : string)
  : gmap string value :=
  <["path" := VStr (source +:+ "->" +:+ target)]> data.

Definition filtered : EventPropagator.t :=
  EventPropagator.addEventFilter above50 (registered chain).

Definition ticks (n : Z) : list (string * gmap string value) :=
  match EventPropagator.propagateEvent "chain" "n1" "tick" {["value" := VNum n]}
          (EventPropagator.mkOptions true (Some recordPath)) filtered with
  | Done p => EventPropagator.published p
  | _ => []
  end.

End Scenarios.

(** ** Derived notions for stating further properties *)

Module Derived.

(** The payload [propagateEventToConnectedNodes] builds for one connection
    out of [source]: the data with [sourceNodeId] added, transformed when
    the options say so. *)
Definition edgePayload (options : EventPropagator.PropagationOptions)
    (source : string) (data : gmap string value) (connection : Connection)
  : gmap string value :=
  let eventData := <["sourceNodeId" := VStr source]> data in
  match EventPropagator.transform options with
  | Some f => f eventData source (targetNodeId connection)
  | None => eventData
  end.

(** The connections of [wf] that leave [source]. *)
Definition outgoing (wf : EventPropagator.Workflow) (source : string)
  : list Connection :=
  filter (λ conn, sourceNodeId conn = source) (EventPropagator.connections wf).

(** [target] can be reached from [source] over one connection of [wf]. *)
Definition connects (wf : EventPropagator.Workflow) (source target : string)
  : Prop :=
  ∃ c, c ∈ EventPropagator.connections wf
       ∧ sourceNodeId c = source ∧ targetNodeId c = target.

(** The id under which the handle of a table entry is known. *)
Definition handleId (sub : EventBus.SubscriptionInfo) : string :=
  EventBus.subId (EventBus.subscription sub).

(** What the table of a bus looks like between two operations: no event
    type is mapped to an empty set, and the handle of every entry names the
    event type the entry is stored under. *)
Definition tidy (b : EventBus.t) : Prop :=
  ∀ eventType subscribers,
    EventBus.subscriptions b !! eventType = Some subscribers →
    subscribers ≠ []
    ∧ Forall (λ sub, EventBus.subEventType (EventBus.subscription sub) = eventType)
             subscribers.

(** The buses that the operations of [EventBus] can produce. *)
Inductive busReachable : EventBus.t → Prop :=
  | busReachable_empty : busReachable EventBus.empty
  | busReachable_subscribe b eventType cb options :
      busReachable b →
      busReachable (EventBus.subscribe eventType cb options b).1
  | busReachable_unsubscribe b handle :
      busReachable b → busReachable (EventBus.unsubscribe handle b)
  | busReachable_publish b fuel eventType data b' cs :
      busReachable b → EventBus.publish fuel eventType data b = Done (b', cs) →
      busReachable b'
  | busReachable_clearEvent b eventType :
      busReachable b → busReachable (EventBus.clearEventSubscriptions eventType b)
  | busReachable_clearAll b :
      busReachable b → busReachable (EventBus.clearAllSubscriptions b).

(** Three ordinary subscribers and a [once] subscriber of one event. *)
Definition withOnce : EventBus.t :=
  (EventBus.subscribe "workflow:started" Scenarios.returns Scenarios.onceOnly
     Scenarios.prioritized).1.

(** The executors of the linear sum, where [double] nodes accept only a
    positive input and add one to what the executor returns. *)
Definition positive : NodeExecutor.ValidatorFn :=
  λ data _ _, Done (match data !! "v" with
                    | Some (VNum n) => bool_decide (0 < n)%Z
                    | _ => false
                    end).

Definition increment : NodeExecutor.TransformationFn :=
  λ data _ _, Done (match data !! "v" with
                    | Some (VNum n) => <["v" := VNum (n + 1)]> data
                    | _ => data
                    end).

Definition guarded : NodeExecutor.t :=
  NodeExecutor.registerOutputTransformation "double" increment
    (NodeExecutor.registerInputValidator "double" positive
       (Scenarios.executors 7)).

Definition someContext : ExecutionContext := mkContext "S1" ∅ 0 Running ∅.

(** The value a call returned, or [fallback] when it threw. *)
Definition returned {A : Type} (o : outcome A) (fallback : A) : A :=
  match o with Done a => a | _ => fallback end.

(** Two calls on the circular workflow [a → b → a] that overlap.  The
    first, from [a], is started and resumed once; then a second call, from
    [b], is started, which clears [visitedNodes]; then the first call is
    resumed again. *)
Definition idle : EventPropagator.Propagation :=
  EventPropagator.mkPropagation Scenarios.circular "ping" Scenarios.chained
    EventPropagator.AwaitCall [].

Definition firstStarted : EventPropagator.t * EventPropagator.Propagation :=
  returned
    (EventPropagator.start "circular" "a" "ping" ∅ Scenarios.chained
       (Scenarios.registered Scenarios.circular))
    (Scenarios.registered Scenarios.circular, idle).

Definition firstResumed : EventPropagator.t * EventPropagator.Propagation :=
  EventPropagator.resume firstStarted.2 firstStarted.1.

Definition secondStarted : EventPropagator.t * EventPropagator.Propagation :=
  returned
    (EventPropagator.start "circular" "b" "ping" ∅ Scenarios.chained
       firstResumed.1)
    (firstResumed.1, idle).

Definition firstResumedAgain : EventPropagator.t * EventPropagator.Propagation :=
  EventPropagator.resume firstResumed.2 secondStarted.1.

(** The linear run after its first node, and the same run paused, stopped,
    or started with a timeout. *)
Definition afterFirstNode : Engine.t := Engine.steps 2 0 (Scenarios.started 7).

Definition paused : Engine.t :=
  returned (Engine.pauseWorkflow "S1" afterFirstNode) afterFirstNode.

Definition stopped : Engine.t :=
  returned Scenarios.stoppedAfterFirstNode afterFirstNode.

Definition timed : Engine.t :=
  (Engine.executeWorkflow Scenarios.linear (mkOptions None 1000 false ∅)
     (Engine.create (Scenarios.executors 7) 0)).1.

(** The linear run where [A] yields 0, which does not reach [B]: the
    executor of [B] throws. *)
Definition failingRun : Engine.t := Engine.steps 2 0 (Scenarios.started 0).



(** Fan-in: [U1], [U2], [U3] and the inherited method [toString] of the
    outputs of [U1] all feed port [q] of [V].  [U1] has produced 1, [U2]
    has produced 2 and [U3] has produced 0. *)
Definition fanIn (last : list Connection) : Workflow :=
  mkWorkflow "F" "Fan-in"
    [mkNode "U1" "const" "U1" [] [Scenarios.port "p"];
     mkNode "U2" "const" "U2" [] [Scenarios.port "p"];
     mkNode "U3" "const" "U3" [] [Scenarios.port "p"];
     Scenarios.nodeV]
    ([mkConnection "c1" "U1" "p" "V" "q"; mkConnection "c2" "U2" "p" "V" "q";
      mkConnection "c3" "U3" "p" "V" "q"] ++ last)
    ["U1"; "U2"; "U3"] ["V"].

Definition fanInContext : ExecutionContext :=
  mkContext "F"
    (<["U1" := {["p" := VNum 1]}]>
       (<["U2" := {["p" := VNum 2]}]> {["U3" := {["p" := VNum 0]}]}))
    0 Running ∅.

(** Two subscribers whose callbacks throw, and a [once] listener on
    [system:error]. *)
Definition twoFailures : EventBus.t :=
  (EventBus.subscribe "system:error" Scenarios.returns Scenarios.onceOnly
     (EventBus.subscribe "workflow:started" Scenarios.throws EventBus.defaultOptions
        (EventBus.subscribe "workflow:started" Scenarios.throws
           EventBus.defaultOptions EventBus.empty).1).1).1.

(** [bind] for outcomes: what [await] does with a settled promise. *)
Definition andThen {A B : Type} (o : outcome A) (k : A → outcome B) : outcome B :=
  match o with
  | Done a => k a
  | Thrown m => Thrown m
  | OutOfFuel => OutOfFuel
  end.

End Derived.

(** * Properties *)

(** ** Generic facts about [forEach] *)

Section ForEach.
Context {A S : Type} (f : A → S → outcome S).

(** A loop invariant over the elements processed so far: when every
    successful iteration extends it, it holds of the whole list at the end
    of the loop, and of the state in which an iteration failed. *)
Lemma forEach_invariant (P : list A → S → Prop) (pre l : list A) (s : S) :
  P pre s →
  (∀ seen x s0 s1, x ∈ l → P seen s0 → f x s0 = Done s1 → P (seen ++ [x]) s1) →
  match forEach f l s with
  | Done s' => P (pre ++ l) s'
  | Thrown m => ∃ seen x s0, x ∈ l ∧ P seen s0 ∧ f x s0 = Thrown m
  | OutOfFuel => ∃ seen x s0, x ∈ l ∧ P seen s0 ∧ f x s0 = OutOfFuel
  end.
Proof.
  revert pre s. induction l as [|x l IH]; intros pre s Hs Hstep; simpl.
  { by rewrite app_nil_r. }
  destruct (f x s) as [s1| m |] eqn:Hx.
  - assert (P (pre ++ [x]) s1) as Hs1 by (eapply Hstep; [left| |]; eauto).
    specialize (IH (pre ++ [x]) s1 Hs1).
    rewrite <- app_assoc in IH. simpl in IH.
    assert (∀ seen y s0 s2, y ∈ l → P seen s0 → f y s0 = Done s2 →
                            P (seen ++ [y]) s2) as Hstep'.
    { intros seen y s0 s2 Hy. apply Hstep. by right. }
    specialize (IH Hstep').
    destruct (forEach f l s1) as [s2|m|]; [done| |];
      destruct IH as (seen & y & s0 & Hy & H0 & Hf);
      exists seen, y, s0; (split_and!; [by right|done..]).
  - exists pre, x, s. split_and!; [left|done..].
  - exists pre, x, s. split_and!; [left|done..].
Qed.
End ForEach.

(** ** Topological sort *)

Section TopologicalSort.
Import Engine.
Variable w : Workflow.








Lemma size_list_to_set_le (l : list string) :
  size (list_to_set l : gset string) ≤ length l.
Proof.
  induction l as [|x l IH]; simpl; [done|].
  rewrite size_union_alt, size_singleton.
  assert (list_to_set l ∖ {[x]} ⊆ (list_to_set l : gset string)) as Hsub
    by set_solver.
  apply subseteq_size in Hsub. lia.
Qed.








End TopologicalSort.



(** ** The result of a run *)

(** C1.  Scenario S1 run to the end: the promise resolves with the outputs
    of [C] and three executed nodes, as the design document expects, but
    with status [running].  [createWorkflowResult] copies [context.status],
    and the engine only ever writes [completed] to the status of the entry
    in [activeWorkflows]. *)
Theorem linear_run_resolves_running :
  ∃ r, Engine.promiseOf 0 (Engine.steps 6 0 (Scenarios.started 7))
       = Some (Engine.PromiseResolved r)
    ∧ resStatus r = Running
    ∧ resOutputs r !! "C" = Some {["v" := VNum 14]}
    ∧ nodesExecuted (resStats r) = 3.
Proof. eexists. split; [vm_compute; reflexivity|]. by vm_compute. Qed.

(** *** No run ever reports [completed] *)

Section ResultStatus.
Import Engine.

Lemma runsOK_updateRun (rid : nat) (f : Run → Run) (e : t) :
  (∀ r, runOK r → runOK (f r)) → runsOK e → runsOK (updateRun rid f e).
Proof. intros Hf He. apply Forall_alter; [done|]. intros r _. apply Hf. Qed.

Lemma runOK_setContextStatus (st : WorkflowStatus) (r : Run) :
  st ≠ Completed → runOK r → runOK (setContextStatus st r).
Proof. intros Hst (_ & Hpc & Hpr). by split_and!. Qed.

Lemma runOK_setPc (p : Pc) (r : Run) :
  (∀ res, p = AwaitCompleted res → resStatus res ≠ Completed) →
  runOK r → runOK (setPc p r).
Proof. intros Hp (Hc & _ & Hpr). by split_and!. Qed.

Lemma runOK_settle (p : PromiseState) (r : Run) :
  (∀ res, p = PromiseResolved res → resStatus res ≠ Completed) →
  runOK r → runOK (settle p r).
Proof.
  intros Hp Hok. unfold settle.
  destruct (promise r) eqn:Hr; [|done..].
  destruct Hok as (Hc & Hpc & _). by split_and!.
Qed.

Lemma runOK_createWorkflowResult (r : Run) (n time : nat) :
  runOK r →
  resStatus (createWorkflowResult (runWorkflow r) (runContext r) n time)
  ≠ Completed.
Proof. by intros (Hc & _). Qed.

Lemma runsOK_handleWorkflowError (id m : string) (e : t) :
  runsOK e → runsOK (handleWorkflowError id m e).
Proof.
  intros He. unfold handleWorkflowError, runsOK in *.
  destruct (activeWorkflows e !! id); [|done]. simpl.
  apply Forall_alter; [done|]. intros r _. by apply runOK_setContextStatus.
Qed.

Lemma runsOK_reject (rid : nat) (m : string) (e : t) :
  runsOK e → runsOK (reject rid m e).
Proof.
  intros He. apply runsOK_updateRun; [|done].
  intros r. by apply runOK_settle.
Qed.

Lemma runsOK_catchError (rid : nat) (id m : string) (e : t) :
  runsOK e → runsOK (catchError rid id m e).
Proof.
  intros He. apply runsOK_updateRun; [intros r; by apply runOK_setPc|].
  by apply runsOK_reject, runsOK_handleWorkflowError.
Qed.

Lemma runsOK_clearTimeout (rid : nat) (e : t) :
  runsOK e → runsOK (updateRun rid clearTimeout e).
Proof. apply runsOK_updateRun. by intros r (? & ? & ?). Qed.

Lemma runsOK_onAbort (rid : nat) (e : t) : runsOK e → runsOK (onAbort rid e).
Proof.
  intros He%(runsOK_clearTimeout rid). unfold onAbort.
  destruct (runs _ !! rid) as [r|]; [|done].
  destruct (negb _); [|done].
  by apply runsOK_reject, runsOK_handleWorkflowError.
Qed.

Lemma runsOK_abort (rid : nat) (e : t) : runsOK e → runsOK (abort rid e).
Proof.
  intros He. unfold abort. destruct (runs e !! rid) as [r|]; [|done].
  destruct (signalAborted r); [done|].
  assert (runsOK (updateRun rid setAborted e)) as He1.
  { apply runsOK_updateRun; [|done]. by intros r0 (? & ? & ?). }
  destruct (abortListener r); [by apply runsOK_onAbort|done].
Qed.

Lemma runsOK_finish (rid : nat) (r : Run) (e : t) :
  runOK r → runsOK e → runsOK (finish rid r e).
Proof.
  intros Hr He%(runsOK_clearTimeout rid). unfold finish.
  destruct (signalAborted r).
  - apply runsOK_updateRun; [intros r0; by apply runOK_setPc|done].
  - apply runsOK_updateRun.
    + intros r0. apply runOK_setPc. intros res [= <-].
      by apply runOK_createWorkflowResult.
    + by destruct (activeWorkflows _ !! _).
Qed.

Lemma runsOK_runLevelNode (rid : nat) (w : Workflow) (c : ExecutionContext)
    (acc : LevelProgress) (id : string) :
  runsOK (levelEngine acc) → runsOK (levelEngine (runLevelNode rid w c acc id)).
Proof.
  intros He. unfold runLevelNode. destruct (findNode w id) as [node|]; [|done].
  destruct (NodeExecutor.executeNode _ _ _ _) as [events [outputs|m|]]; simpl.
  - apply runsOK_updateRun; [|done]. by intros r (? & ? & ?).
  - by apply runsOK_abort.
  - done.
Qed.

Lemma runsOK_step (rid : nat) (e : t) : runsOK e → runsOK (step rid e).
Proof.
  intros He. unfold step. destruct (runs e !! rid) as [r|] eqn:Hr; [|done].
  assert (runOK r) as Hok.
  { eapply (proj1 (Forall_lookup _ _)) in He; eauto. }
  destruct (pc r) as [|order|levels|res| |] eqn:Hpc; [| | | |done..].
  - destruct (topologicalSort _) as [order|m|]; [|by apply runsOK_catchError|done].
    assert (runsOK (updateRun rid addAbortListener e)) as He1.
    { apply runsOK_updateRun; [|done]. by intros r0 (? & ? & ?). }
    assert (runsOK
      match optInputs (runOptions r) with
      | Some inputs =>
          updateRun rid
            (λ r0, setNodeOutputs
                     (foldl (λ outs entryNodeId, <[entryNodeId := inputs]> outs)
                            (nodeOutputs (runContext r0))
                            (entryPoints (runWorkflow r))) r0)
            (updateRun rid addAbortListener e)
      | None => updateRun rid addAbortListener e
      end) as He2.
    { destruct (optInputs _); [|done].
      apply runsOK_updateRun; [|done]. by intros r0 (? & ? & ?). }
    destruct (optParallel _);
      (apply runsOK_updateRun; [intros r0; by apply runOK_setPc|done]).
  - destruct order as [|n rest]; [by apply runsOK_finish|].
    destruct (signalAborted r); [by apply runsOK_finish|].
    destruct (findNode _ n) as [node|].
    + destruct (NodeExecutor.executeNode _ _ _ _) as [events [outputs|m|]].
      * apply runsOK_updateRun; [|done]. intros r0 (? & ? & ?). by split_and!.
      * by apply runsOK_catchError.
      * apply runsOK_updateRun; [intros r0; by apply runOK_setPc|done].
    + apply runsOK_updateRun; [intros r0; by apply runOK_setPc|done].
  - destruct levels as [|level rest]; [by apply runsOK_finish|].
    destruct (signalAborted r); [by apply runsOK_finish|].
    assert (∀ acc, runsOK (levelEngine acc) →
              runsOK (levelEngine
                (foldl (runLevelNode rid (runWorkflow r) (runContext r)) acc level)))
      as Hfold.
    { clear Hpc. induction level as [|n level IH]; intros acc Hacc; simpl; [done|].
      by apply IH, runsOK_runLevelNode. }
    specialize (Hfold (mkLevel e None false) He).
    destruct (levelFailure _); [by apply runsOK_catchError|].
    destruct (levelPending _);
      (apply runsOK_updateRun; [intros r0; by apply runOK_setPc|done]).
  - apply runsOK_updateRun; [intros r0; by apply runOK_setPc|].
    apply runsOK_updateRun; [|done].
    intros r0. apply runOK_settle. intros res' [= <-].
    by apply (proj1 (proj2 Hok)).
Qed.

Lemma runsOK_reachable (e : t) : reachable e → runsOK e.
Proof.
  induction 1 as [ex time|e w o _ IH|e rid _ IH|e rid _ IH
                  |e id e' _ IH Hop|e id e' _ IH Hop|e id e' _ IH Hop
                  |e k _ IH].
  - constructor.
  - unfold executeWorkflow, runsOK. simpl. apply Forall_app. split; [done|].
    repeat constructor; simpl; done.
  - by apply runsOK_step.
  - unfold timeoutFires. destruct (runs e !! rid) as [r|]; [|done].
    destruct (timeoutId r); [|done].
    apply runsOK_reject, runsOK_handleWorkflowError, runsOK_abort.
    by apply runsOK_clearTimeout.
  - unfold pauseWorkflow in Hop. destruct (activeWorkflows e !! id); [|done].
    case_decide; [|done]. simplify_eq.
    unfold runsOK. simpl. apply Forall_alter; [done|].
    intros r _. by apply runOK_setContextStatus.
  - unfold resumeWorkflow in Hop. destruct (activeWorkflows e !! id); [|done].
    case_decide; [|done]. simplify_eq.
    unfold runsOK. simpl. apply Forall_alter; [done|].
    intros r _. by apply runOK_setContextStatus.
  - unfold stopWorkflow in Hop. destruct (activeWorkflows e !! id); [|done].
    simplify_eq. apply (runsOK_abort _ (updateRun _ _ (setActive _ e))).
    apply runsOK_updateRun; [|done]. intros r. by apply runOK_setContextStatus.
  - unfold handleWorkflowErrorResumes. by destruct (errorHandlers e !! k).
Qed.

(** X16.  Whatever the workflow, the executors and the interleaving of
    control operations: a promise that has been resolved carries a status
    other than [completed]. *)
Lemma resolved_status_never_completed (e : t) (rid : nat) (res : WorkflowResult) :
  reachable e → promiseOf rid e = Some (PromiseResolved res) →
  resStatus res ≠ Completed.
Proof.
  intros He%runsOK_reachable Hp. unfold promiseOf in Hp.
  destruct (runs e !! rid) as [r|] eqn:Hr; [|done]. simplify_eq/=.
  eapply (proj1 (Forall_lookup _ _)) in He as (_ & _ & Hres); eauto.
Qed.
End ResultStatus.

(** ** Gathering inputs *)

Section GatherInputs.
Import Engine.

(** X17.  Whatever [gatherInputs] hands to a node that is not an entry
    point is truthy: a falsy output never crosses a connection. *)
Lemma gatherInputs_only_truthy (node : Node) (w : Workflow)
    (context : ExecutionContext) (key : string) (v : value) :
  nodeId node ∉ entryPoints w →
  gatherInputs node w context !! key = Some v → truthy v = true.
Proof.
  intros Hentry. unfold gatherInputs. rewrite decide_False by done.
  assert (∀ inputs : gmap string value,
            (∀ k x, inputs !! k = Some x → truthy x = true) →
            ∀ k x,
              foldl (λ (inputs : gmap string value) connection,
                       if decide (targetNodeId connection = nodeId node) then
                         match nodeOutputs context !! sourceNodeId connection with
                         | Some sourceOutputs =>
                             if truthy (getProp sourceOutputs (sourcePortId connection))
                             then <[targetPortId connection :=
                                      getProp sourceOutputs (sourcePortId connection)]>
                                    inputs
                             else inputs
                         | None => inputs
                         end
                       else inputs) inputs (connections w) !! k = Some x →
              truthy x = true) as Hfold.
  { induction (connections w) as [|c cs IH]; intros inputs Hin k x; simpl; [apply Hin|].
    apply IH. clear k x. intros k x.
    case_decide; [|apply Hin].
    destruct (nodeOutputs context !! sourceNodeId c) as [outs|]; [|apply Hin].
    destruct (truthy (getProp outs (sourcePortId c))) eqn:Ht; [|apply Hin].
    destruct (decide (targetPortId c = k)) as [<-|Hne].
    - rewrite lookup_insert_eq. by intros [= <-].
    - rewrite lookup_insert_ne by done. apply Hin. }
  intros Hl. eapply (Hfold ∅); [|exact Hl].
  intros k x. by rewrite lookup_empty.
Qed.

(** X18.  For an entry node, every seeded key keeps the seeded value,
    whatever the connections deliver. *)
Lemma gatherInputs_seed_wins (node : Node) (w : Workflow)
    (context : ExecutionContext) (seed : gmap string value)
    (key : string) (v : value) :
  nodeId node ∈ entryPoints w →
  nodeOutputs context !! nodeId node = Some seed →
  seed !! key = Some v →
  gatherInputs node w context !! key = Some v.
Proof.
  intros Hentry Hseed Hkey. unfold gatherInputs.
  rewrite decide_True by done. rewrite Hseed.
  by apply lookup_union_Some_l.
Qed.
End GatherInputs.

(** C3.  A producer whose output is falsy: the consumer is started without
    the target port, although [context.nodeOutputs[U][p]] holds the value
    when the run has completed.  A truthy output does arrive. *)
Theorem gatherInputs_drops_falsy :
  Forall (λ out,
            Engine.gatherInputs Scenarios.nodeV Scenarios.feedsPlain
              (Scenarios.afterU out None) !! "q" = None
            ∧ let e := Scenarios.producerRun Scenarios.feedsPlain out None 5 in
              (∃ r, Engine.promiseOf 0 e = Some (Engine.PromiseResolved r))
              ∧ (nodeOutputs <$> Engine.contextOf 0 e) ≫= (.!! "U")
                = Some {["p" := out]}
              ∧ Engine.recordedInputs "V" (Engine.published e) = [∅])
         [VNum 0; VBool false; VStr ""; VNull]
  ∧ Engine.gatherInputs Scenarios.nodeV Scenarios.feedsPlain
      (Scenarios.afterU (VNum 7) None) !! "q" = Some (VNum 7).
Proof.
  split; [|by vm_compute].
  repeat constructor; try (by vm_compute); eexists; vm_compute; reflexivity.
Qed.

(** C4.  An entry node with an incoming connection and a seed under the
    same port: [Object.assign(inputs, initialInputs)] lets the seed replace
    the value that came over the connection; a seed under another port is
    merged in beside it. *)
Theorem gatherInputs_seed_overrides_connection :
  Engine.gatherInputs Scenarios.nodeV Scenarios.feedsEntry
    (Scenarios.afterU (VNum 1) (Some {["q" := VNum 2]})) !! "q" = Some (VNum 2)
  ∧ Engine.recordedInputs "V"
      (Engine.published
         (Scenarios.producerRun Scenarios.feedsEntry (VNum 1)
            (Some {["q" := VNum 2]}) 5))
    = [{["q" := VNum 2]}]
  ∧ Engine.gatherInputs Scenarios.nodeV Scenarios.feedsEntry
      (Scenarios.afterU (VNum 1) (Some {["other" := VNum 2]}))
    = {["q" := VNum 1; "other" := VNum 2]}.
Proof. split_and!; by vm_compute. Qed.

(** ** Levels for parallel execution *)

(** C5.  The chain [A → B → C] with the connection [B → C] listed before
    [A → B]: one pass over the connections raises [C] to level 1 while [B]
    is still at level 0, then raises [B] to level 1, and [C] is left on the
    level of its predecessor.  With the connections listed the other way
    round the same graph gets the levels of the longest paths. *)
Theorem groupNodesByLevel_depends_on_connection_order :
  Engine.topologicalSort Scenarios.linearReordered = Done ["A"; "B"; "C"]
  ∧ Engine.groupNodesByLevel Scenarios.linearReordered ["A"; "B"; "C"]
    = [["A"]; ["B"; "C"]]
  ∧ Engine.levelOf
      (Engine.groupNodesByLevel Scenarios.linearReordered ["A"; "B"; "C"]) "C"
    = Engine.levelOf
        (Engine.groupNodesByLevel Scenarios.linearReordered ["A"; "B"; "C"]) "B"
  ∧ Engine.groupNodesByLevel Scenarios.linear ["A"; "B"; "C"]
    = [["A"]; ["B"]; ["C"]].
Proof. split_and!; by vm_compute. Qed.

(** ** Stopping a run *)

Section Cancellation.
Import Engine.

Lemma promiseOf_updateRun (rid rid' : nat) (f : Run → Run) (e : t) :
  (∀ r, promise (f r) = promise r) →
  promiseOf rid' (updateRun rid f e) = promiseOf rid' e.
Proof.
  intros Hf. unfold promiseOf, updateRun. simpl.
  destruct (decide (rid = rid')) as [->|Hne].
  - rewrite list_lookup_alter_eq. destruct (runs e !! rid'); simpl; [|done].
    by rewrite Hf.
  - by rewrite list_lookup_alter_ne.
Qed.

(** When the ['abort'] listener runs on an aborted signal, all it does is
    clear the timer: its rejecting branch is never taken. *)
Lemma onAbort_aborted (rid : nat) (e : t) (r : Run) :
  runs e !! rid = Some r → signalAborted r = true →
  onAbort rid e = updateRun rid clearTimeout e.
Proof.
  intros Hr Ha. unfold onAbort.
  assert (runs (updateRun rid clearTimeout e) !! rid = Some (clearTimeout r)) as ->.
  { unfold updateRun. simpl. by rewrite list_lookup_alter_eq, Hr. }
  simpl. by rewrite Ha.
Qed.

(** [controller.abort()] settles no promise, removes no entry of
    [activeWorkflows] and publishes nothing. *)
Lemma abort_settles_nothing (rid : nat) (e : t) :
  (∀ rid', promiseOf rid' (abort rid e) = promiseOf rid' e)
  ∧ activeWorkflows (abort rid e) = activeWorkflows e
  ∧ published (abort rid e) = published e.
Proof.
  unfold abort. destruct (runs e !! rid) as [r|] eqn:Hr; [|done].
  destruct (signalAborted r) eqn:Ha; [done|].
  destruct (abortListener r).
  - rewrite (onAbort_aborted rid _ (setAborted r)); [| |done].
    + split_and!; [|done..]. intros rid'.
      by rewrite !promiseOf_updateRun.
    + unfold updateRun. simpl. by rewrite list_lookup_alter_eq, Hr.
  - split_and!; [|done..]. intros rid'. by rewrite promiseOf_updateRun.
Qed.

(** X19.  [stopWorkflow] publishes [workflow:failed] once and marks the
    entry [cancelled], but it settles no promise and the entry stays. *)
Lemma stopWorkflow_settles_nothing (id : string) (e e' : t) :
  stopWorkflow id e = Done e' →
  (∀ rid, promiseOf rid e' = promiseOf rid e)
  ∧ getWorkflowStatus id e' = Cancelled
  ∧ publishedCount CoreEventTypes.WORKFLOW_FAILED (published e')
    = S (publishedCount CoreEventTypes.WORKFLOW_FAILED (published e)).
Proof.
  unfold stopWorkflow. destruct (activeWorkflows e !! id) as [a|] eqn:Ha; [|done].
  intros [= <-].
  match goal with |- context [abort ?rid ?e0] =>
    destruct (abort_settles_nothing rid e0) as (Hp & Hact & Hpub)
  end.
  split_and!.
  - intros rid. transitivity (promiseOf rid
      (updateRun (activeRun a) (setContextStatus Cancelled)
         (setActive (<[id := mkActive Cancelled (activeRun a)]> (activeWorkflows e)) e))).
    + by rewrite <- Hp.
    + by rewrite promiseOf_updateRun.
  - unfold getWorkflowStatus, publish. simpl. rewrite Hact. simpl.
    by rewrite lookup_insert_eq.
  - unfold publish, publishedCount. simpl. rewrite Hpub. simpl.
    rewrite filter_app, length_app, filter_cons. simpl. lia.
Qed.

End Cancellation.

Lemma steps_fixed (n rid : nat) (e : Engine.t) :
  Engine.step rid e = e → Engine.steps n rid e = e.
Proof. intros H. induction n as [|n IH]; simpl; [done|]. by rewrite H. Qed.

(** C6.  Scenario S4: the linear run is stopped after its first node.
    [stopWorkflow] publishes [workflow:failed] once, but however long the
    run is driven afterwards its promise stays pending, its entry stays in
    [activeWorkflows], and [getWorkflowStatus] answers [cancelled]. *)
Theorem stopWorkflow_leaves_run_pending :
  ∃ e, Scenarios.stoppedAfterFirstNode = Done e
    ∧ ∀ n, let e' := Engine.steps n 0 e in
        Engine.promiseOf 0 e' = Some Engine.PromisePending
        ∧ is_Some (Engine.activeWorkflows e' !! "S1")
        ∧ Engine.getWorkflowStatus "S1" e' = Cancelled
        ∧ Engine.publishedCount CoreEventTypes.WORKFLOW_FAILED (Engine.published e') = 1.
Proof.
  eexists. split; [vm_compute; reflexivity|].
  intros [|n]; simpl.
  - split_and!; [by vm_compute|by eexists; vm_compute|by vm_compute..].
  - rewrite steps_fixed.
    + split_and!; [by vm_compute|by eexists; vm_compute|by vm_compute..].
    + by vm_compute.
Qed.

(** ** Event bus: delivery order *)

Section Sorting.
Import EventBus.

Lemma before_cons_inv {A : Type} (l : list A) (z a b : A) :
  before (z :: l) a b → (a = z ∧ b ∈ l) ∨ before l a b.
Proof.
  intros (i & j & Hij & Hi & Hj). destruct j as [|j]; [lia|].
  simpl in Hj. destruct i as [|i]; simpl in Hi.
  - left. split; [congruence|]. by eapply list_elem_of_lookup_2.
  - right. exists i, j. split_and!; [lia|done..].
Qed.

Lemma before_cons {A : Type} (l : list A) (z a b : A) :
  before l a b → before (z :: l) a b.
Proof.
  intros (i & j & Hij & Hi & Hj). exists (S i), (S j). split_and!; [lia|done..].
Qed.

Lemma before_head {A : Type} (l : list A) (a b : A) :
  b ∈ l → before (a :: l) a b.
Proof.
  intros [j Hj]%list_elem_of_lookup. exists 0, (S j). split_and!; [lia|done..].
Qed.

Lemma before_elem {A : Type} (l : list A) (a b : A) :
  before l a b → a ∈ l ∧ b ∈ l.
Proof.
  intros (i & j & _ & Hi & Hj). split; by eapply list_elem_of_lookup_2.
Qed.

Lemma insertByPriority_perm (sub : SubscriptionInfo) (l : list SubscriptionInfo) :
  insertByPriority sub l ≡ₚ sub :: l.
Proof.
  induction l as [|other rest IH]; simpl; [done|].
  case_decide; [|done]. rewrite IH. apply Permutation_swap.
Qed.

Lemma sortByPriority_perm (l : list SubscriptionInfo) : sortByPriority l ≡ₚ l.
Proof.
  induction l as [|sub l IH]; simpl; [done|].
  rewrite insertByPriority_perm. by rewrite IH.
Qed.

Lemma insertByPriority_before (sub : SubscriptionInfo)
    (l : list SubscriptionInfo) (x y : SubscriptionInfo) :
  descending l →
  before (insertByPriority sub l) x y →
  (x = sub ∧ y ∈ l ∧ (infoPriority y ≤ infoPriority sub)%Z)
  ∨ (y = sub ∧ x ∈ l ∧ (infoPriority sub < infoPriority x)%Z)
  ∨ before l x y.
Proof.
  induction l as [|other rest IH]; simpl; intros Hdesc Hb.
  - apply before_cons_inv in Hb as [[_ Hy]|Hb]; [by apply elem_of_nil in Hy|].
    apply before_elem in Hb as [Hx _]. by apply elem_of_nil in Hx.
  - case_decide as Hlt.
    + apply before_cons_inv in Hb as [[-> Hy]|Hb].
      * rewrite insertByPriority_perm in Hy.
        apply elem_of_cons in Hy as [->|Hy].
        -- right; left. split_and!; [done|left|done].
        -- right; right. by apply before_head.
      * assert (descending rest) as Hrest.
        { intros a b Hab. apply Hdesc. by apply before_cons. }
        destruct (IH Hrest Hb) as [(-> & Hy & Hp)|[(-> & Hx & Hp)|Hb']].
        -- left. split_and!; [done|by right|done].
        -- right; left. split_and!; [done|by right|done].
        -- right; right. by apply before_cons.
    + apply before_cons_inv in Hb as [[-> Hy]|Hb]; [|by right; right].
      left. split_and!; [done..|].
      apply elem_of_cons in Hy as [->|Hy]; [lia|].
      assert (infoPriority y ≤ infoPriority other)%Z
        by (apply Hdesc; by apply before_head).
      lia.
Qed.

(** [sortByPriority] puts higher priorities first and keeps subscribers of
    equal priority in the order of the table. *)
Lemma sortByPriority_stable (l : list SubscriptionInfo) (x y : SubscriptionInfo) :
  before (sortByPriority l) x y →
  (infoPriority y ≤ infoPriority x)%Z
  ∧ (infoPriority x = infoPriority y → before l x y).
Proof.
  revert x y. induction l as [|sub l IH]; simpl; intros x y Hb.
  - apply before_elem in Hb as [Hx _]. by apply elem_of_nil in Hx.
  - apply insertByPriority_before in Hb;
      [|intros a b Hab; by apply IH in Hab as [? _]].
    destruct Hb as [(-> & Hy & Hp)|[(-> & Hx & Hp)|Hb]].
    + split; [done|]. intros _. apply before_head.
      by rewrite <- (sortByPriority_perm l).
    + split; [lia|]. intros Heq. lia.
    + apply IH in Hb as [Hp Hst]. split; [done|].
      intros Heq. by apply before_cons, Hst.
Qed.
End Sorting.

Section Delivery.
Import EventBus.

(** The fallible shape of a loop body that in fact always completes. *)
Lemma forEach_total {A S : Type} (f : A → S → outcome S) (l : list A) (s : S) :
  (∀ x s0, ∃ s1, f x s0 = Done s1) → ∃ s', forEach f l s = Done s'.
Proof.
  intros Hf. revert s. induction l as [|x l IH]; intros s; simpl; [by eexists|].
  destruct (Hf x s) as [s1 ->]. apply IH.
Qed.

Lemma filter_calls_other (eventType : string) (cs : list Call) :
  Forall (λ c, callEventType c ≠ eventType) cs →
  filter (λ c, callEventType c = eventType) cs = [].
Proof.
  induction 1 as [|c cs Hc _ IH]; [done|].
  rewrite filter_cons. by case_decide.
Qed.

Lemma publishCalls_unfold (fuel : nat) (eventType : string) (data : value)
    (b : t) :
  publishCalls (S fuel) eventType data b
  = match subscriptions b !! eventType with
    | None | Some [] => Done (b, [], [])
    | Some subscribers =>
        match forEach (deliverTo (publishCalls fuel CoreEventTypes.SYSTEM_ERROR)
                                 eventType data)
                      (sortByPriority subscribers) (mkDelivery b [] [] []) with
        | Done d => Done (bus d, calls d, nestedToRemove d ++ toRemove d)
        | Thrown m => Thrown m
        | OutOfFuel => OutOfFuel
        end
    end.
Proof. done. Qed.

Lemma publish_unfold (fuel : nat) (eventType : string) (data : value) (b : t) :
  publish (S fuel) eventType data b
  = match subscriptions b !! eventType with
    | None | Some [] => Done (b, [])
    | Some subscribers =>
        match forEach (deliverTo (publishCalls fuel CoreEventTypes.SYSTEM_ERROR)
                                 eventType data)
                      (sortByPriority subscribers) (mkDelivery b [] [] []) with
        | Done d => Done (foldl (λ b subscription, unsubscribe subscription b)
                                (bus d) (nestedToRemove d ++ toRemove d),
                          calls d)
        | Thrown m => Thrown m
        | OutOfFuel => OutOfFuel
        end
    end.
Proof.
  unfold publish. rewrite publishCalls_unfold.
  destruct (subscriptions b !! eventType) as [[|sub subs]|]; [done| |done].
  by destruct (forEach _ _ _).
Qed.

(** Delivery of [system:error] itself never republishes. *)
Lemma deliverTo_system_error
    (republish : value → t → outcome (t * list Call * list Subscription))
    (data : value) (sub : SubscriptionInfo) (d : Delivery) :
  ∃ d', deliverTo republish CoreEventTypes.SYSTEM_ERROR data sub d = Done d'
        ∧ calls d' = calls d ++ [mkCall (uid sub) CoreEventTypes.SYSTEM_ERROR].
Proof.
  unfold deliverTo. destruct (reactionError (callback sub data)); [|by eexists].
  case_decide; [done|by eexists].
Qed.

(** The callbacks of a [publish] on [system:error] are called with one
    level of fuel, and are all subscribers of [system:error]. *)
Lemma publishCalls_system_error (fuel : nat) (data : value) (b : t) :
  ∃ b' cs removals,
    publishCalls (S fuel) CoreEventTypes.SYSTEM_ERROR data b
    = Done (b', cs, removals)
    ∧ Forall (λ c, callEventType c = CoreEventTypes.SYSTEM_ERROR) cs.
Proof.
  rewrite publishCalls_unfold.
  destruct (subscriptions b !! CoreEventTypes.SYSTEM_ERROR)
    as [[|sub subs]|]; [by eexists _, _, _..| |by eexists _, _, _].
  pose proof (forEach_invariant
    (deliverTo (publishCalls fuel CoreEventTypes.SYSTEM_ERROR)
               CoreEventTypes.SYSTEM_ERROR data)
    (λ _ d, Forall (λ c, callEventType c = CoreEventTypes.SYSTEM_ERROR) (calls d))
    [] (sortByPriority (sub :: subs)) (mkDelivery b [] [] [])) as Hloop.
  destruct (forEach_total
    (deliverTo (publishCalls fuel CoreEventTypes.SYSTEM_ERROR)
               CoreEventTypes.SYSTEM_ERROR data)
    (sortByPriority (sub :: subs)) (mkDelivery b [] [] [])) as [d Hd].
  { intros x s0. destruct (deliverTo_system_error
      (publishCalls fuel CoreEventTypes.SYSTEM_ERROR) data x s0) as (d' & -> & _).
    by eexists. }
  rewrite Hd in *. eexists _, _, _. split; [done|].
  apply Hloop; [by constructor|].
  intros seen x s0 s1 _ Hs0 Hx.
  destruct (deliverTo_system_error
    (publishCalls fuel CoreEventTypes.SYSTEM_ERROR) data x s0)
    as (d' & Hd' & Hcalls).
  rewrite Hx in Hd'. simplify_eq. rewrite Hcalls.
  apply Forall_app. split; [done|]. by repeat constructor.
Qed.

(** A [publish] on [system:error] completes with one level of fuel, and
    calls only subscribers of [system:error]. *)
Lemma publish_system_error (fuel : nat) (data : value) (b : t) :
  ∃ b' cs, publish (S fuel) CoreEventTypes.SYSTEM_ERROR data b = Done (b', cs)
           ∧ Forall (λ c, callEventType c = CoreEventTypes.SYSTEM_ERROR) cs.
Proof.
  destruct (publishCalls_system_error fuel data b)
    as (b' & cs & removals & Hrun & Hcs).
  unfold publish. rewrite Hrun. by eexists _, _.
Qed.

(** One subscriber delivered: its callback is called once for the event,
    whether or not it fails, and the delivery goes on. *)
Lemma deliverTo_done (eventType : string) (data : value)
    (sub : SubscriptionInfo) (d : Delivery) :
  ∃ d', deliverTo (publishCalls 1 CoreEventTypes.SYSTEM_ERROR) eventType data sub d
        = Done d'
    ∧ filter (λ c, callEventType c = eventType) (calls d')
      = filter (λ c, callEventType c = eventType) (calls d)
        ++ [mkCall (uid sub) eventType].
Proof.
  assert (filter (λ c, callEventType c = eventType) [mkCall (uid sub) eventType]
          = [mkCall (uid sub) eventType]) as Hone.
  { rewrite filter_cons. by case_decide. }
  unfold deliverTo. destruct (reactionError (callback sub data)) as [err|].
  - case_decide as Hne.
    + destruct (publishCalls_system_error 0 (systemErrorData eventType err data)
        (applySubscribes (reactionSubscribes (callback sub data)) (bus d)))
        as (b2 & nested & removals & -> & Hnested).
      eexists. split; [done|]. simpl.
      rewrite !filter_app, Hone, (filter_calls_other _ nested), app_nil_r; [done|].
      eapply Forall_impl; [done|]. simpl. intros c ->. done.
    + eexists. split; [done|]. simpl. by rewrite filter_app, Hone.
  - eexists. split; [done|]. simpl. by rewrite filter_app, Hone.
Qed.

(** [publish] always completes, and the callbacks it starts for the event
    are those of the sorted snapshot, in that order. *)
Lemma publish_delivers (eventType : string) (data : value) (b : t) :
  ∃ b' cs, publish publishFuel eventType data b = Done (b', cs)
    ∧ startedFor eventType cs
      = map uid (sortByPriority (subscribersOf eventType b)).
Proof.
  unfold publishFuel, subscribersOf, startedFor. rewrite publish_unfold.
  destruct (subscriptions b !! eventType) as [[|sub subs]|];
    [by eexists _, _..| |by eexists _, _].
  change (default [] (Some (sub :: subs))) with (sub :: subs).
  set (f := deliverTo (publishCalls 1 CoreEventTypes.SYSTEM_ERROR) eventType data).
  pose proof (forEach_invariant f
    (λ seen d, filter (λ c, callEventType c = eventType) (calls d)
               = map (λ s, mkCall (uid s) eventType) seen)
    [] (sortByPriority (sub :: subs)) (mkDelivery b [] [] [])) as Hloop.
  destruct (forEach_total f (sortByPriority (sub :: subs)) (mkDelivery b [] [] []))
    as [d Hd].
  { intros x s0. unfold f.
    destruct (deliverTo_done eventType data x s0) as (d' & -> & _). by eexists. }
  rewrite Hd in *. eexists _, _. split; [done|].
  cbn [calls]. rewrite Hloop; cbn [app calls].
  - rewrite <- list_fmap_compose. done.
  - done.
  - intros seen x s0 s1 _ Hs0 Hx.
    destruct (deliverTo_done eventType data x s0) as (d' & Hd' & Hcalls).
    unfold f in Hx. rewrite Hx in Hd'. simplify_eq.
    by rewrite Hcalls, Hs0, fmap_app.
Qed.

(** Whether or not callbacks fail, [publish] returns normally and has
    started the callback of every subscriber of the event exactly once. *)
Lemma publish_calls_each_subscriber_once (eventType : string) (data : value) (b : t) :
  ∃ b' cs, publish publishFuel eventType data b = Done (b', cs)
    ∧ startedFor eventType cs ≡ₚ map uid (subscribersOf eventType b).
Proof.
  destruct (publish_delivers eventType data b) as (b' & cs & Hrun & Hstarted).
  exists b', cs. split; [done|]. by rewrite Hstarted, sortByPriority_perm.
Qed.
End Delivery.

(** C8.  A [publish] starts the callbacks of the subscribers that are in
    the table when it is called, each once, by descending priority and, for
    equal priorities, in the order in which they were subscribed.  The
    callbacks it starts for the event all belong to identities handed out
    before the call, so a subscription registered while the event is being
    delivered is not called for it. *)
Theorem publish_order (eventType : string) (data : value) (b : EventBus.t) :
  EventBus.wellFormed b →
  ∃ b' cs sorted,
    EventBus.publish EventBus.publishFuel eventType data b = Done (b', cs)
    ∧ EventBus.startedFor eventType cs = map EventBus.uid sorted
    ∧ sorted ≡ₚ EventBus.subscribersOf eventType b
    ∧ (∀ x y, EventBus.before sorted x y →
         (EventBus.infoPriority y ≤ EventBus.infoPriority x)%Z
         ∧ (EventBus.infoPriority x = EventBus.infoPriority y →
            EventBus.before (EventBus.subscribersOf eventType b) x y))
    ∧ (∀ u, u ∈ EventBus.startedFor eventType cs → u < EventBus.nextUid b).
Proof.
  intros Hwf.
  destruct (publish_delivers eventType data b) as (b' & cs & Hrun & Hstarted).
  exists b', cs, (EventBus.sortByPriority (EventBus.subscribersOf eventType b)).
  split_and!; [done..|apply sortByPriority_perm| |].
  - intros x y. apply sortByPriority_stable.
  - intros u. rewrite Hstarted. intros (sub & -> & Hsub)%list_elem_of_fmap.
    rewrite sortByPriority_perm in Hsub. unfold EventBus.subscribersOf in Hsub.
    destruct (EventBus.subscriptions b !! eventType) as [subs|] eqn:Hsubs;
      simpl in Hsub; [|by apply elem_of_nil in Hsub].
    by eapply Hwf.
Qed.

(** *** The table stays well formed *)

Section WellFormed.
Import EventBus.

Lemma wellFormed_empty : wellFormed empty.
Proof. intros eventType subscribers sub Hl. simpl in Hl. by rewrite lookup_empty in Hl. Qed.

Lemma wellFormed_subscribe (eventType : string) (cb : Callback)
    (options : SubscriptionOptions) (b : t) :
  wellFormed b → wellFormed (subscribe eventType cb options b).1.
Proof.
  intros Hwf e subscribers sub. unfold subscribe. cbn [fst subscriptions nextUid].
  destruct (decide (eventType = e)) as [->|Hne].
  - rewrite lookup_insert_eq. intros [= <-].
    intros [Hold| ->%list_elem_of_singleton]%elem_of_app; [|simpl; lia].
    destruct (subscriptions b !! e) as [old|] eqn:Hlookup; simpl in Hold.
    + specialize (Hwf e old sub Hlookup Hold). lia.
    + by apply elem_of_nil in Hold.
  - rewrite lookup_insert_ne by done. intros Hl Hsub.
    specialize (Hwf e subscribers sub Hl Hsub). lia.
Qed.

Lemma elem_of_removeFirst (id : string) (l : list SubscriptionInfo)
    (sub : SubscriptionInfo) :
  sub ∈ removeFirst id l → sub ∈ l.
Proof.
  induction l as [|x l IH]; simpl; [done|].
  case_decide; [by right|].
  intros [->|Hsub]%elem_of_cons; [left|right; by apply IH].
Qed.

Lemma wellFormed_unsubscribe (subscription : Subscription) (b : t) :
  wellFormed b → wellFormed (unsubscribe subscription b).
Proof.
  intros Hwf. unfold unsubscribe.
  destruct (subscriptions b !! subEventType subscription) as [subscribers|] eqn:Hl;
    [|done].
  assert (∀ m, (∀ e l, m !! e = Some l →
                 ∃ l', subscriptions b !! e = Some l' ∧ ∀ x, x ∈ l → x ∈ l') →
               wellFormed (mk m (nextUid b))) as Hsub.
  { intros m Hm e l sub Hlookup Hin. simpl in *.
    destruct (Hm e l Hlookup) as (l' & Hl' & Hincl).
    eapply Hwf; [done|]. by apply Hincl. }
  destruct (removeFirst (subId subscription) subscribers) as [|x rest] eqn:Hrem;
    apply Hsub; intros e l Hlookup.
  - apply lookup_delete_Some in Hlookup as [_ Hlookup]. by exists l.
  - destruct (decide (subEventType subscription = e)) as [<-|Hne].
    + rewrite lookup_insert_eq in Hlookup. simplify_eq.
      exists subscribers. split; [done|]. intros y Hy.
      apply (elem_of_removeFirst (subId subscription)). by rewrite Hrem.
    + rewrite lookup_insert_ne in Hlookup by done. by exists l.
Qed.

Lemma wellFormed_applySubscribes
    (requests : list (string * Callback * SubscriptionOptions)) (b : t) :
  wellFormed b → wellFormed (applySubscribes requests b).
Proof.
  unfold applySubscribes. revert b.
  induction requests as [|[[e cb] o] requests IH]; intros b Hwf; simpl; [done|].
  by apply IH, wellFormed_subscribe.
Qed.

Lemma wellFormed_publishCalls (fuel : nat) (eventType : string) (data : value)
    (b b' : t) (cs : list Call) (removals : list Subscription) :
  publishCalls fuel eventType data b = Done (b', cs, removals) →
  wellFormed b → wellFormed b'.
Proof.
  revert eventType data b b' cs removals.
  induction fuel as [|fuel IH]; intros eventType data b b' cs removals Hrun Hwf;
    [done|].
  rewrite publishCalls_unfold in Hrun.
  destruct (subscriptions b !! eventType) as [[|sub subs]|]; [by simplify_eq..| |by simplify_eq].
  pose proof (forEach_invariant
    (deliverTo (publishCalls fuel CoreEventTypes.SYSTEM_ERROR) eventType data)
    (λ _ d, wellFormed (bus d)) [] (sortByPriority (sub :: subs))
    (mkDelivery b [] [] [])) as Hloop.
  destruct (forEach _ _ _) as [d| |]; [|done..].
  simplify_eq.
  apply Hloop; [done|]. clear Hloop.
  intros _ x s0 s1 _ Hs0 Hx. unfold deliverTo in Hx.
  pose proof (wellFormed_applySubscribes
    (reactionSubscribes (callback x data)) (bus s0) Hs0) as Hb1.
  destruct (reactionError (callback x data)) as [err|]; [|by simplify_eq].
  case_decide; [|by simplify_eq].
  destruct (publishCalls fuel _ _ _) as [[[b2 nested] removals]| |] eqn:Hnested;
    [|done..].
  simplify_eq. simpl. by eapply IH.
Qed.

Lemma wellFormed_publish (fuel : nat) (eventType : string) (data : value)
    (b b' : t) (cs : list Call) :
  publish fuel eventType data b = Done (b', cs) → wellFormed b → wellFormed b'.
Proof.
  unfold publish. intros Hrun Hwf.
  destruct (publishCalls fuel eventType data b) as [[[b1 cs1] removals]| |]
    eqn:Hcalls; [|done..].
  simplify_eq. apply wellFormed_publishCalls in Hcalls; [|done].
  revert Hcalls. generalize b1.
  induction removals as [|r rs IHr]; intros b0 Hb0; simpl; [done|].
  by apply IHr, wellFormed_unsubscribe.
Qed.
End WellFormed.

(** *** The removals after the [await]

    The [toRemove] arrays of a [publish] and of the reports it made are
    worked off once all callbacks have been called; the order in which the
    calls resume makes no difference to the table. *)

Section Removals.
Import EventBus.

Lemma removeFirst_comm (id1 id2 : string) (l : list SubscriptionInfo) :
  removeFirst id1 (removeFirst id2 l) = removeFirst id2 (removeFirst id1 l).
Proof.
  induction l as [|x l IH]; simpl; [done|].
  destruct (decide (subId (subscription x) = id2)) as [H2|H2];
    destruct (decide (subId (subscription x) = id1)) as [H1|H1]; simpl.
  - congruence.
  - by rewrite decide_True.
  - by rewrite decide_True.
  - rewrite !decide_False by done. by rewrite IH.
Qed.

(** The set an event type has after [unsubscribe]. *)
Lemma unsubscribe_lookup (handle : Subscription) (b : t) (eventType : string) :
  subscriptions (unsubscribe handle b) !! eventType
  = if decide (eventType = subEventType handle) then
      match subscriptions b !! eventType with
      | Some subscribers =>
          match removeFirst (subId handle) subscribers with
          | [] => None
          | remaining => Some remaining
          end
      | None => None
      end
    else subscriptions b !! eventType.
Proof.
  unfold unsubscribe. case_decide as He.
  - subst. destruct (subscriptions b !! subEventType handle) eqn:Hl; [|done].
    destruct (removeFirst _ _); simpl.
    + by rewrite lookup_delete_eq.
    + by rewrite lookup_insert_eq.
  - destruct (subscriptions b !! subEventType handle) eqn:Hl; [|done].
    destruct (removeFirst _ _); simpl.
    + by rewrite lookup_delete_ne.
    + by rewrite lookup_insert_ne.
Qed.

Lemma unsubscribe_nextUid (handle : Subscription) (b : t) :
  nextUid (unsubscribe handle b) = nextUid b.
Proof.
  unfold unsubscribe. destruct (subscriptions b !! _); [|done].
  by destruct (removeFirst _ _).
Qed.

Lemma unsubscribe_comm (first second : Subscription) (b : t) :
  unsubscribe first (unsubscribe second b)
  = unsubscribe second (unsubscribe first b).
Proof.
  assert (∀ b1 b2 : t, subscriptions b1 = subscriptions b2 →
            nextUid b1 = nextUid b2 → b1 = b2) as Hext.
  { intros [m1 n1] [m2 n2]; simpl. by intros -> ->. }
  apply Hext; [|by rewrite !unsubscribe_nextUid].
  apply map_eq. intros eventType. rewrite !unsubscribe_lookup.
  destruct (decide (eventType = subEventType first)) as [H1|H1];
    destruct (decide (eventType = subEventType second)) as [H2|H2]; [|done..].
  destruct (subscriptions b !! eventType) as [l|]; [|done].
  pose proof (removeFirst_comm (subId first) (subId second) l) as Hcomm.
  destruct (removeFirst (subId second) l) as [|x2 l2];
    destruct (removeFirst (subId first) l) as [|x1 l1]; simpl in *.
  - done.
  - by rewrite <- Hcomm.
  - by rewrite Hcomm.
  - by rewrite Hcomm.
Qed.

Lemma removals_permutation (removals removals' : list Subscription) (b : t) :
  removals ≡ₚ removals' →
  foldl (λ b subscription, unsubscribe subscription b) b removals
  = foldl (λ b subscription, unsubscribe subscription b) b removals'.
Proof.
  intros Hperm. revert b.
  induction Hperm as [|x l l' _ IH|x y l|l l' l'' _ IH1 _ IH2]; intros b; simpl.
  - done.
  - apply IH.
  - by rewrite unsubscribe_comm.
  - by rewrite IH1.
Qed.
End Removals.

(** A [once] listener on [system:error] hears of every callback that fails
    during one [publish]: each report calls it at once, and it is removed
    only after the subscribers of the published event have all been
    called. *)
Example once_listener_hears_every_failure :
  match EventBus.publish EventBus.publishFuel "workflow:started" VNull
          Derived.twoFailures with
  | Done (b', cs) =>
      cs = [EventBus.mkCall 0 "workflow:started"; EventBus.mkCall 2 "system:error";
            EventBus.mkCall 1 "workflow:started"; EventBus.mkCall 2 "system:error"]
      ∧ EventBus.getSubscriberCount "system:error" b' = 0
      ∧ EventBus.getSubscriberCount "workflow:started" b' = 2
  | _ => False
  end.
Proof. by vm_compute. Qed.

(** The theorem applied to three subscribers of priorities 1, 3 and 2. *)
Lemma publish_order_witness :
  ∃ b' cs sorted,
    EventBus.publish EventBus.publishFuel "workflow:started" VNull
      Scenarios.prioritized = Done (b', cs)
    ∧ EventBus.startedFor "workflow:started" cs = map EventBus.uid sorted
    ∧ sorted ≡ₚ EventBus.subscribersOf "workflow:started" Scenarios.prioritized
    ∧ (∀ x y, EventBus.before sorted x y →
         (EventBus.infoPriority y ≤ EventBus.infoPriority x)%Z
         ∧ (EventBus.infoPriority x = EventBus.infoPriority y →
            EventBus.before
              (EventBus.subscribersOf "workflow:started" Scenarios.prioritized) x y))
    ∧ (∀ u, u ∈ EventBus.startedFor "workflow:started" cs →
            u < EventBus.nextUid Scenarios.prioritized).
Proof.
  apply publish_order.
  repeat apply wellFormed_subscribe. apply wellFormed_empty.
Defined.

(** ** Event bus: [once] subscribers and failing callbacks *)

(** C7.  A [once] subscriber whose callback throws: [publish] completes and
    the callback was called once, but the subscriber is still in the table
    and the next [publish] calls it again.  The push onto [toRemove] sits in
    the [try] block after the call, so a throw skips it.  A [once]
    subscriber whose callback returns is removed. *)
Theorem once_subscriber_that_throws_stays :
  Scenarios.callsOf (Scenarios.onceSubscriber Scenarios.throws) = [0]
  ∧ EventBus.getSubscriberCount "workflow:started"
      (Scenarios.publishedOnce (Scenarios.onceSubscriber Scenarios.throws)) = 1
  ∧ Scenarios.callsOf
      (Scenarios.publishedOnce (Scenarios.onceSubscriber Scenarios.throws)) = [0]
  ∧ EventBus.getSubscriberCount "workflow:started"
      (Scenarios.publishedOnce (Scenarios.onceSubscriber Scenarios.returns)) = 0.
Proof. split_and!; by vm_compute. Qed.

(** ** Event propagator *)

Section Strings.
Lemma list_ascii_of_string_app (a b : string) :
  String.list_ascii_of_string (a +:+ b)
  = String.list_ascii_of_string a ++ String.list_ascii_of_string b.
Proof. induction a as [|c a IH]; simpl; [done|]. by rewrite IH. Qed.

Lemma string_app_inj_r (a b s : string) : a +:+ s = b +:+ s → a = b.
Proof.
  intros H. apply (f_equal String.list_ascii_of_string) in H.
  rewrite !list_ascii_of_string_app in H. apply app_inv_tail in H.
  rewrite <- (String.string_of_list_ascii_of_string a),
          <- (String.string_of_list_ascii_of_string b). by rewrite H.
Qed.

Lemma nodeEventType_inj (n m eventType : string) :
  EventPropagator.nodeEventType n eventType
  = EventPropagator.nodeEventType m eventType → n = m.
Proof.
  unfold EventPropagator.nodeEventType. intros H.
  apply (inj (String.app "node:")) in H. by apply string_app_inj_r in H.
Qed.
End Strings.

Section Propagation.
Import EventPropagator.
Variables (wf : Workflow) (eventType : string) (options : PropagationOptions).

(** A call leaves the workflows and the filters alone, and only adds to the
    visited set and to the log. *)
Lemma propagate_grows (fuel : nat) (source : string)
    (data : gmap string value) (p p' : t) :
  propagateEventToConnectedNodes fuel wf source eventType data options p = Done p' →
  visitedNodes p ⊆ visitedNodes p' ∧ source ∈ visitedNodes p'.
Proof.
  revert source data p p'.
  induction fuel as [|fuel IH]; intros source data p p' Hrun; [done|].
  simpl in Hrun. case_decide as Hvis; [by simplify_eq|].
  match type of Hrun with forEach ?f ?l ?s = _ =>
    pose proof (forEach_invariant f
      (λ _ q, visitedNodes (markVisited source p) ⊆ visitedNodes q) [] l s) as Hloop
  end.
  rewrite Hrun in Hloop. simpl in Hloop.
  assert ({[source]} ∪ visitedNodes p ⊆ visitedNodes p') as Hsub; [|set_solver].
  apply Hloop; [done|]. clear Hloop Hrun.
  intros _ c q q' _ Hq Hc. simpl in Hc.
  destruct (negb _); [by simplify_eq|].
  destruct (propagateChain options); [|by simplify_eq].
  apply IH in Hc as [Hc _]. simpl in Hc. set_solver.
Qed.

(** The recursion never throws. *)
Lemma propagate_not_thrown (fuel : nat) (source : string)
    (data : gmap string value) (p : t) (m : string) :
  propagateEventToConnectedNodes fuel wf source eventType data options p ≠ Thrown m.
Proof.
  revert source data p.
  induction fuel as [|fuel IH]; intros source data p Hrun; [done|].
  simpl in Hrun. case_decide as Hvis; [done|].
  match type of Hrun with forEach ?f ?l ?s = _ =>
    pose proof (forEach_invariant f (λ _ _, True) [] l s) as Hloop
  end.
  rewrite Hrun in Hloop.
  destruct Hloop as (_ & c & q & _ & _ & Hc); [done..|].
  simpl in Hc. destruct (negb _); [done|].
  destruct (propagateChain options); [|done]. by eapply IH.
Qed.

Lemma propagate_fuel (fuel : nat) (root source : string)
    (data : gmap string value) (p : t) :
  source ∈ reach wf root →
  size (reach wf root ∖ visitedNodes p) < fuel →
  propagateEventToConnectedNodes fuel wf source eventType data options p ≠ OutOfFuel.
Proof.
  revert source data p.
  induction fuel as [|fuel IH]; intros source data p Hsrc Hsize Hrun; [lia|].
  simpl in Hrun. case_decide as Hvis; [done|].
  match type of Hrun with forEach ?f ?l ?s = _ =>
    pose proof (forEach_invariant f
      (λ _ q, visitedNodes (markVisited source p) ⊆ visitedNodes q) [] l s) as Hloop
  end.
  rewrite Hrun in Hloop.
  destruct Hloop as (_ & c & q & Hin & Hq & Hc); [done| |].
  { intros _ c q q' _ Hq Hc. simpl in Hc.
    destruct (negb _); [by simplify_eq|].
    destruct (propagateChain options); [|by simplify_eq].
    apply propagate_grows in Hc as [Hc _]. simpl in Hc. set_solver. }
  simpl in Hc, Hq. destruct (negb _); [done|].
  destruct (propagateChain options); [|done].
  apply IH in Hc; [done| |].
  - unfold reach. apply elem_of_union_r, elem_of_list_to_set, list_elem_of_fmap.
    exists c. split; [done|]. by apply list_elem_of_filter in Hin as [_ ?].
  - simpl.
    assert (reach wf root ∖ visitedNodes q ⊂ reach wf root ∖ visitedNodes p) as Hlt
      by set_solver.
    apply subset_size in Hlt. lia.
Qed.

Lemma reach_size (root : string) : size (reach wf root) < propagationFuel wf.
Proof.
  unfold reach, propagationFuel, WorkflowTypes_targetNodeId.
  pose proof (size_list_to_set_le (map targetNodeId (connections wf))) as Hle.
  rewrite length_map in Hle.
  pose proof (size_union_alt ({[root]} : gset string)
                (list_to_set (map targetNodeId (connections wf)))) as Hu.
  rewrite size_singleton in Hu.
  assert (list_to_set (map targetNodeId (connections wf)) ∖ {[root]}
          ⊆ (list_to_set (map targetNodeId (connections wf)) : gset string)) as Hsub
    by set_solver.
  apply subseteq_size in Hsub. lia.
Qed.

Lemma inDegreeFrom_union (S1 S2 : gset string) (n : string) :
  S1 ## S2 →
  inDegreeFrom wf (S1 ∪ S2) n = inDegreeFrom wf S1 n + inDegreeFrom wf S2 n.
Proof.
  intros Hdisj. unfold inDegreeFrom.
  induction (connections wf) as [|c cs IH]; [done|].
  rewrite !filter_cons.
  repeat case_decide; simpl; rewrite IH; try lia; set_solver.
Qed.

Lemma inDegreeFrom_le (S1 : gset string) (n : string) :
  inDegreeFrom wf S1 n ≤ inDegree wf n.
Proof.
  unfold inDegreeFrom, inDegree.
  induction (connections wf) as [|c cs IH]; [done|].
  rewrite !filter_cons. repeat case_decide; simpl; try lia; naive_solver.
Qed.

Lemma inDegreeFrom_singleton (source n : string) :
  inDegreeFrom wf {[source]} n
  = length (filter (λ conn, targetNodeId conn = n)
              (filter (λ conn, sourceNodeId conn = source) (connections wf))).
Proof.
  unfold inDegreeFrom, WorkflowTypes_targetNodeId, WorkflowTypes_sourceNodeId.
  induction (connections wf) as [|c cs IH]; [done|].
  rewrite !filter_cons.
  repeat (case_decide; simpl; rewrite ?filter_cons); rewrite ?IH; try lia; set_solver.
Qed.

Lemma publishCount_snoc (n t : string) (data : gmap string value)
    (log : list (string * gmap string value)) :
  publishCount (nodeEventType n eventType)
    (log ++ [(nodeEventType t eventType, data)])
  = publishCount (nodeEventType n eventType) log
    + length (filter (λ conn, targetNodeId conn = n) [mkConnection "" "" "" t ""]).
Proof.
  unfold publishCount. rewrite filter_app, length_app, !filter_cons, !filter_nil.
  simpl. repeat case_decide; simpl; try lia.
  - by apply nodeEventType_inj in H.
  - by subst.
Qed.

(** Every publish on [node:n:eventType] made by a call belongs to a
    connection into [n] whose source the call has newly visited. *)
Lemma propagate_count (n : string) (fuel : nat) (source : string)
    (data : gmap string value) (p p' : t) :
  propagateEventToConnectedNodes fuel wf source eventType data options p = Done p' →
  publishCount (nodeEventType n eventType) (published p')
  ≤ publishCount (nodeEventType n eventType) (published p)
    + inDegreeFrom wf (visitedNodes p' ∖ visitedNodes p) n.
Proof.
  revert source data p p'.
  induction fuel as [|fuel IH]; intros source data p p' Hrun; [done|].
  pose proof (propagate_grows _ _ _ _ _ Hrun) as [Hgrow Hsrc].
  simpl in Hrun. case_decide as Hvis; [simplify_eq; lia|].
  match type of Hrun with forEach ?f ?l ?s = _ =>
    pose proof (forEach_invariant f
      (λ seen q,
         {[source]} ∪ visitedNodes p ⊆ visitedNodes q
         ∧ publishCount (nodeEventType n eventType) (published q)
           ≤ publishCount (nodeEventType n eventType) (published p)
             + length (filter (λ conn, targetNodeId conn = n) seen)
             + inDegreeFrom wf (visitedNodes q ∖ ({[source]} ∪ visitedNodes p)) n)
      [] l s) as Hloop
  end.
  rewrite Hrun in Hloop. simpl in Hloop.
  destruct Hloop as [_ Hcount].
  { split; [done|]. lia. }
  { clear Hrun. intros seen c q q' _ [Hq Hcnt] Hc. simpl in Hc.
    rewrite filter_app, length_app.
    destruct (negb _).
    { simplify_eq. split; [done|]. lia. }
    pose proof (publishCount_snoc n (WorkflowTypes_targetNodeId c)
      (match transform options with
       | Some f => f (<["sourceNodeId" := VStr source]> data) source
                     (WorkflowTypes_targetNodeId c)
       | None => <["sourceNodeId" := VStr source]> data
       end) (published q)) as Hsnoc.
    assert (length (filter (λ conn, targetNodeId conn = n)
                      [mkConnection "" "" "" (WorkflowTypes_targetNodeId c) ""])
            = length (filter (λ conn, targetNodeId conn = n) [c])) as Hsame.
    { rewrite !filter_cons, !filter_nil. unfold WorkflowTypes_targetNodeId. simpl.
      by repeat case_decide. }
    rewrite Hsame in Hsnoc. clear Hsame.
    destruct (propagateChain options).
    - pose proof (propagate_grows _ _ _ _ _ Hc) as [Hgrow' _].
      apply IH in Hc. simpl in Hc, Hgrow'. unfold busPublish in Hc. simpl in Hc.
      split; [set_solver|].
      assert (visitedNodes q' ∖ ({[source]} ∪ visitedNodes p)
              = (visitedNodes q ∖ ({[source]} ∪ visitedNodes p))
                ∪ (visitedNodes q' ∖ visitedNodes q)) as ->.
      { apply set_eq. intros x. rewrite !elem_of_union, !elem_of_difference.
        destruct (decide (x ∈ visitedNodes q)); set_solver. }
      rewrite inDegreeFrom_union by set_solver. lia.
    - simplify_eq. simpl. split; [done|]. lia. }
  rewrite <- inDegreeFrom_singleton in Hcount.
  assert (visitedNodes p' ∖ visitedNodes p
          = {[source]} ∪ (visitedNodes p' ∖ ({[source]} ∪ visitedNodes p))) as ->.
  { apply set_eq. intros x. rewrite !elem_of_union, !elem_of_difference,
      elem_of_union, elem_of_singleton.
    destruct (decide (x = source)); set_solver. }
  rewrite inDegreeFrom_union by set_solver. lia.
Qed.
End Propagation.

(** *** A call that runs alone *)

Section Alone.
Import EventPropagator.
Variables (wf : Workflow) (eventType : string) (options : PropagationOptions).

Lemma resumeAlone_add (n m : nat) (c : Propagation) (p : t) :
  resumeAlone (n + m) c p
  = resumeAlone m (resumeAlone n c p).2 (resumeAlone n c p).1.
Proof.
  revert c p. induction n as [|n IH]; intros c p; simpl; [done|].
  destruct (resume c p) as [p' c']. apply IH.
Qed.

(** From a state [pc], the call reaches [pc'] after [n] resumptions in a
    row. *)
Lemma resumeAlone_trans (n m : nat) (pc pc' pc'' : t * Propagation) :
  resumeAlone n pc.2 pc.1 = pc' → resumeAlone m pc'.2 pc'.1 = pc'' →
  resumeAlone (n + m) pc.2 pc.1 = pc''.
Proof. intros <- <-. apply resumeAlone_add. Qed.

(** The loop of an activation, resumed until the activation returns, does
    what [forEach] does with the body of the loop, given that a nested
    call does what the function does with less fuel. *)
Lemma loop_alone (fuel : nat) :
  (∀ source data p p' below,
     propagateEventToConnectedNodes fuel wf source eventType data options p
     = Done p' →
     ∃ n, resumeAlone n (enter wf eventType options source data below p).2
                        (enter wf eventType options source data below p).1
          = (p', mkPropagation wf eventType options AwaitCall below)) →
  ∀ source data pending p p' below,
    forEach
      (λ connection p,
         let targetNodeId := WorkflowTypes_targetNodeId connection in
         let eventData := <["sourceNodeId" := VStr source]> data in
         let eventData :=
           match transform options with
           | Some f => f eventData source targetNodeId
           | None => eventData
           end in
         if negb (passesFilters p eventType eventData) then Done p
         else
           let p1 := busPublish (nodeEventType targetNodeId eventType) eventData p in
           if propagateChain options
           then propagateEventToConnectedNodes fuel wf targetNodeId
                                               eventType eventData options p1
           else Done p1)
      pending p = Done p' →
    ∃ n, resumeAlone n
           (continueLoop wf eventType options (mkFrame source data pending)
              below p).2
           (continueLoop wf eventType options (mkFrame source data pending)
              below p).1
         = (p', mkPropagation wf eventType options AwaitCall below).
Proof.
  intros Hcall source data pending.
  induction pending as [|c rest IH]; intros p p' below Hrun.
  { simpl in Hrun. simplify_eq. by exists 0. }
  cbn [forEach] in Hrun. unfold continueLoop. cbn [framePending frameSource
    frameData runToPublish].
  destruct (negb (passesFilters p eventType _)) eqn:Hpass.
  { apply IH with (below := below) in Hrun. exact Hrun. }
  cbv zeta in Hrun.
  set (target := WorkflowTypes_targetNodeId c) in *.
  set (eventData := match transform options with
                    | Some f => f (<["sourceNodeId" := VStr source]> data)
                                  source target
                    | None => <["sourceNodeId" := VStr source]> data
                    end) in *.
  set (p1 := busPublish (nodeEventType target eventType) eventData p) in *.
  destruct (propagateChain options) eqn:Hchain.
  - destruct (propagateEventToConnectedNodes fuel wf target eventType eventData
                options p1) as [p2| |] eqn:Hnested; [|done..].
    destruct (Hcall _ _ _ _ (mkFrame source data rest :: below) Hnested)
      as [n1 Hn1].
    destruct (IH p2 p' below Hrun) as [n2 Hn2].
    exists (S (n1 + S n2)).
    cbn [resumeAlone fst snd]. unfold resume at 1.
    cbn [suspendedAt callStack callOptions callWorkflow callEventType].
    rewrite Hchain.
    destruct (enter wf eventType options target eventData
                (mkFrame source data rest :: below) p1) as [q1 d1] eqn:Henter.
    rewrite resumeAlone_add. simpl in Hn1. rewrite Hn1.
    cbn [resumeAlone fst snd]. unfold resume at 1.
    cbn [suspendedAt callStack callOptions callWorkflow callEventType].
    destruct (continueLoop wf eventType options (mkFrame source data rest)
                below p2) as [q2 d2] eqn:Hloop.
    exact Hn2.
  - destruct (IH p1 p' below Hrun) as [n2 Hn2].
    exists (S n2).
    cbn [resumeAlone fst snd]. unfold resume at 1.
    cbn [suspendedAt callStack callOptions callWorkflow callEventType].
    rewrite Hchain.
    destruct (continueLoop wf eventType options (mkFrame source data rest)
                below p1) as [q2 d2] eqn:Hloop.
    exact Hn2.
Qed.

(** A call of [propagateEventToConnectedNodes], resumed until it returns
    with nothing in between, does what the function does. *)
Lemma enter_alone (fuel : nat) (source : string) (data : gmap string value)
    (p p' : t) (below : list Frame) :
  propagateEventToConnectedNodes fuel wf source eventType data options p = Done p' →
  ∃ n, resumeAlone n (enter wf eventType options source data below p).2
                     (enter wf eventType options source data below p).1
       = (p', mkPropagation wf eventType options AwaitCall below).
Proof.
  revert source data p p' below.
  induction fuel as [|fuel IH]; intros source data p p' below Hrun; [done|].
  cbn [propagateEventToConnectedNodes] in Hrun. unfold enter.
  case_decide as Hvisited.
  { simplify_eq. by exists 0. }
  by apply (loop_alone fuel IH) with (below := below) in Hrun.
Qed.
End Alone.

(** A top-level call on a registered workflow terminates, whatever the
    graph; [propagateEvent] gives the state it leaves. *)
Lemma propagateEvent_returns (p : EventPropagator.t)
    (wf : EventPropagator.Workflow) (workflowId source eventType : string)
    (data : gmap string value) (options : EventPropagator.PropagationOptions) :
  EventPropagator.workflows p !! workflowId = Some wf →
  ∃ p', EventPropagator.propagateEvent workflowId source eventType data options p
        = Done p'.
Proof.
  intros Hwf. unfold EventPropagator.propagateEvent. rewrite Hwf.
  destruct (EventPropagator.propagateEventToConnectedNodes _ _ _ _ _ _ _)
    as [p'|m|] eqn:Hrun.
  - by exists p'.
  - by apply propagate_not_thrown in Hrun.
  - apply (propagate_fuel _ _ _ _ source) in Hrun; [done| |].
    + unfold EventPropagator.reach. set_solver.
    + simpl. pose proof (reach_size wf source).
      assert (size (EventPropagator.reach wf source ∖ ∅)
              ≤ size (EventPropagator.reach wf source))
        by (apply subseteq_size; set_solver).
      lia.
Qed.

(** What [propagateEvent] computes is the state that the call leaves when
    it runs from its start to its return with nothing in between. *)
Lemma completesAlone_propagateEvent (p p' : EventPropagator.t)
    (workflowId source eventType : string) (data : gmap string value)
    (options : EventPropagator.PropagationOptions) :
  EventPropagator.propagateEvent workflowId source eventType data options p
  = Done p' →
  EventPropagator.completesAlone workflowId source eventType data options p p'.
Proof.
  unfold EventPropagator.propagateEvent, EventPropagator.completesAlone,
    EventPropagator.start.
  destruct (EventPropagator.workflows p !! workflowId) as [wf|]; [|done].
  intros Hrun.
  destruct (enter_alone wf eventType options _ source data _ p' [] Hrun)
    as [n Hn].
  destruct (EventPropagator.enter wf eventType options source data []
              (EventPropagator.clearVisited p)) as [p1 c1].
  by exists p1, c1, n, (EventPropagator.mkPropagation wf eventType options
                       EventPropagator.AwaitCall []).
Qed.

(** The condition that nothing overlaps the call is needed.  On the
    circular workflow the first call, from [a], publishes on [node:b:ping]
    when it starts and on [node:a:ping] when it is resumed; a second call
    is then started from [b] and clears [visitedNodes]; resumed again, the
    first call finds [a] not visited and publishes on [node:b:ping] a
    second time, though one connection enters [b]. *)
Example overlapping_call_publishes_again :
  map fst (EventPropagator.published Derived.firstStarted.1) = ["node:b:ping"]
  ∧ map fst (EventPropagator.published Derived.firstResumed.1)
    = ["node:b:ping"; "node:a:ping"]
  ∧ map fst (EventPropagator.published Derived.secondStarted.1)
    = ["node:b:ping"; "node:a:ping"; "node:a:ping"]
  ∧ map fst (EventPropagator.published Derived.firstResumedAgain.1)
    = ["node:b:ping"; "node:a:ping"; "node:a:ping"; "node:b:ping"]
  ∧ EventPropagator.inDegree Scenarios.circular "b" = 1.
Proof. split_and!; by vm_compute. Qed.

(** C9, as the code has it.  A chained [propagateEvent] on a registered
    workflow that no other call on the propagator overlaps -- none is
    started and none is resumed from its start to its return -- terminates
    without an exception, and on every node it publishes at most once per
    connection that enters the node: a node is the source of a propagation
    at most once, but it receives the event over each of its incoming
    connections whose source was reached.  The state such a call leaves is
    the one [propagateEvent] computes.  In the circular workflow
    [a → b → a] a call from [a] that runs alone publishes on [node:b:ping]
    once and then on [node:a:ping] once, and nothing else. *)
Theorem propagateEvent_once_per_connection
    (p : EventPropagator.t) (wf : EventPropagator.Workflow)
    (workflowId source eventType : string) (data : gmap string value)
    (transform : option (gmap string value → string → string → gmap string value)) :
  EventPropagator.workflows p !! workflowId = Some wf →
  (∃ p', EventPropagator.completesAlone workflowId source eventType data
           (EventPropagator.mkOptions true transform) p p'
     ∧ EventPropagator.propagateEvent workflowId source eventType data
         (EventPropagator.mkOptions true transform) p = Done p'
     ∧ ∀ n, EventPropagator.publishCount
              (EventPropagator.nodeEventType n eventType)
              (EventPropagator.published p')
            ≤ EventPropagator.publishCount
                (EventPropagator.nodeEventType n eventType)
                (EventPropagator.published p)
              + EventPropagator.inDegree wf n)
  ∧ Scenarios.pings Scenarios.circular "a" = ["node:b:ping"; "node:a:ping"].
Proof.
  intros Hwf. split; [|by vm_compute].
  destruct (propagateEvent_returns p wf workflowId source eventType data
              (EventPropagator.mkOptions true transform) Hwf) as [p' Hrun].
  exists p'. split; [by apply completesAlone_propagateEvent|].
  split; [done|]. intros n.
  unfold EventPropagator.propagateEvent in Hrun. rewrite Hwf in Hrun.
  apply (propagate_count _ _ _ n) in Hrun. simpl in Hrun.
  pose proof (inDegreeFrom_le wf (EventPropagator.visitedNodes p' ∖ ∅) n). lia.
Qed.

(** The theorem applied to the diamond, from its top. *)
Lemma propagateEvent_once_per_connection_witness :
  (∃ p', EventPropagator.completesAlone "diamond" "s" "ping" ∅
           (EventPropagator.mkOptions true None)
           (Scenarios.registered Scenarios.diamond) p'
     ∧ EventPropagator.propagateEvent "diamond" "s" "ping" ∅
         (EventPropagator.mkOptions true None)
         (Scenarios.registered Scenarios.diamond) = Done p'
     ∧ ∀ n, EventPropagator.publishCount
              (EventPropagator.nodeEventType n "ping")
              (EventPropagator.published p')
            ≤ EventPropagator.publishCount
                (EventPropagator.nodeEventType n "ping")
                (EventPropagator.published (Scenarios.registered Scenarios.diamond))
              + EventPropagator.inDegree Scenarios.diamond n)
  ∧ Scenarios.pings Scenarios.circular "a" = ["node:b:ping"; "node:a:ping"].
Proof.
  apply (propagateEvent_once_per_connection
           (Scenarios.registered Scenarios.diamond) Scenarios.diamond).
  reflexivity.
Defined.

(** C9 as the design document states it fails twice.  In the circular
    workflow the event comes back to the originating node [a]; in the
    diamond the node [j] receives the event twice, once over each of its
    two incoming connections. *)
Lemma propagateEvent_publishes_back_and_twice :
  Scenarios.pings Scenarios.circular "a" ≠ ["node:b:ping"]
  ∧ "node:a:ping" ∈ Scenarios.pings Scenarios.circular "a"
  ∧ EventPropagator.publishCount "node:j:ping"
      (map (λ t, (t, ∅)) (Scenarios.pings Scenarios.diamond "s")) = 2.
Proof.
  split_and!.
  - by vm_compute.
  - vm_compute. right. left.
  - by vm_compute.
Qed.

(** C10.  [registerWorkflow] on an id that is registered throws "already
    registered" and leaves the propagator as it was, so [hasWorkflow]
    answers as before for every id; on an id that is not registered it
    returns normally and [hasWorkflow] then answers true for that id. *)
Theorem registerWorkflow_spec (w : EventPropagator.Workflow) (p : EventPropagator.t) :
  (EventPropagator.hasWorkflow (EventPropagator.workflowId w) p = true →
     EventPropagator.registerWorkflow w p
     = (p, Thrown ("Workflow with ID " +:+ EventPropagator.workflowId w
                   +:+ " is already registered"))
     ∧ ∀ id, EventPropagator.hasWorkflow id
               (EventPropagator.registerWorkflow w p).1
             = EventPropagator.hasWorkflow id p)
  ∧ (EventPropagator.hasWorkflow (EventPropagator.workflowId w) p = false →
     (EventPropagator.registerWorkflow w p).2 = Done tt
     ∧ EventPropagator.hasWorkflow (EventPropagator.workflowId w)
         (EventPropagator.registerWorkflow w p).1 = true).
Proof.
  unfold EventPropagator.hasWorkflow, EventPropagator.registerWorkflow. split.
  - intros Hhas%bool_decide_eq_true. by rewrite decide_True.
  - intros Hhas%bool_decide_eq_false. rewrite decide_False by done. simpl.
    split; [done|]. apply bool_decide_eq_true. by rewrite lookup_insert_eq.
Qed.

(** The theorem applied to the circular workflow, on a propagator that has
    it and on a fresh one. *)
Lemma registerWorkflow_spec_witness :
  (EventPropagator.registerWorkflow Scenarios.circular
     (Scenarios.registered Scenarios.circular)
   = (Scenarios.registered Scenarios.circular,
      Thrown "Workflow with ID circular is already registered")
   ∧ ∀ id, EventPropagator.hasWorkflow id
             (EventPropagator.registerWorkflow Scenarios.circular
                (Scenarios.registered Scenarios.circular)).1
           = EventPropagator.hasWorkflow id (Scenarios.registered Scenarios.circular))
  ∧ ((EventPropagator.registerWorkflow Scenarios.circular EventPropagator.create).2
     = Done tt
     ∧ EventPropagator.hasWorkflow "circular"
         (EventPropagator.registerWorkflow Scenarios.circular
            EventPropagator.create).1 = true).
Proof.
  split.
  - apply (proj1 (registerWorkflow_spec Scenarios.circular
                    (Scenarios.registered Scenarios.circular))).
    reflexivity.
  - apply (proj2 (registerWorkflow_spec Scenarios.circular EventPropagator.create)).
    reflexivity.
Defined.

(** ** The scenarios of the design document, on the model *)

(** S2: the diamond in parallel mode resolves with [out = 5] at [J], and
    its levels are [S], then [L] and [R], then [J]. *)
Example diamond_parallel :
  Engine.groupNodesByLevel Scenarios.diamondWorkflow ["S"; "L"; "R"; "J"]
  = [["S"]; ["L"; "R"]; ["J"]]
  ∧ ∃ r, Engine.promiseOf 0
           (Scenarios.runOf Scenarios.diamondWorkflow Scenarios.diamondExecutors true 6)
         = Some (Engine.PromiseResolved r)
      ∧ resOutputs r !! "J" = Some {["out" := VNum 5]}
      ∧ nodesExecuted (resStats r) = 4.
Proof.
  split; [by vm_compute|]. eexists. split; [vm_compute; reflexivity|]. by vm_compute.
Qed.

(** S3: the cycle is rejected with an error naming [A], [workflow:failed]
    is published and no node was started; the entry is marked [failed], and
    it is removed when the suspended [handleWorkflowError] resumes. *)
Example cycle_rejected :
  let e := Scenarios.runOf Scenarios.cyclic (Scenarios.executors 7) false 1 in
  Engine.promiseOf 0 e
  = Some (Engine.PromiseRejected "Workflow contains a cycle involving node A")
  ∧ map eventType (Engine.published e) = ["workflow:started"; "workflow:failed"]
  ∧ Engine.getWorkflowStatus "S3" e = Failed
  ∧ Engine.activeWorkflows (Engine.handleWorkflowErrorResumes 0 e) !! "S3" = None.
Proof. split_and!; by vm_compute. Qed.

(** The bus tests of the repository: priority order, and isolation of a
    failing subscriber, whose error is reported on [system:error]. *)
Example bus_priority_order : Scenarios.callsOf Scenarios.prioritized = [1; 2; 0].
Proof. by vm_compute. Qed.

Example bus_isolates_failure :
  EventBus.publish EventBus.publishFuel "workflow:started" VNull Scenarios.withFailure
  = Done (Scenarios.withFailure,
          [EventBus.mkCall 0 "workflow:started";
           EventBus.mkCall 2 "system:error";
           EventBus.mkCall 1 "workflow:started"]).
Proof. by vm_compute. Qed.

(** A subscription made while the event is delivered is not called for it;
    the next [publish] calls it. *)
Example bus_subscription_during_delivery :
  Scenarios.callsOf Scenarios.selfExtending = [0]
  ∧ Scenarios.callsOf (Scenarios.publishedOnce Scenarios.selfExtending) = [0; 1].
Proof. split; by vm_compute. Qed.

(** S5: with 60 the event reaches [n2] and [n3], each with the edge it
    travelled; with 42 the filter rejects it and nothing is published. *)
Example propagation_filter_and_transform :
  Scenarios.ticks 60
  = [("node:n2:tick",
      {["value" := VNum 60; "sourceNodeId" := VStr "n1"; "path" := VStr "n1->n2"]});
     ("node:n3:tick",
      {["value" := VNum 60; "sourceNodeId" := VStr "n2"; "path" := VStr "n2->n3"]})]
  ∧ Scenarios.ticks 42 = [].
Proof. split; by vm_compute. Qed.

(** * Further properties of the modelled code *)

(** ** Event propagator *)

Section PropagatorFacts.
Import EventPropagator.

Lemma propagate_keeps_tables (wf : Workflow) (eventType : string)
    (options : PropagationOptions) (fuel : nat) (source : string)
    (data : gmap string value) (p p' : t) :
  propagateEventToConnectedNodes fuel wf source eventType data options p = Done p' →
  workflows p' = workflows p ∧ filters p' = filters p
  ∧ ∃ new, published p' = published p ++ new.
Proof.
  revert source data p p'.
  induction fuel as [|fuel IH]; intros source data p p' Hrun; [done|].
  simpl in Hrun. case_decide as Hvis.
  { simplify_eq. split_and!; [done..|]. exists []. by rewrite app_nil_r. }
  match type of Hrun with forEach ?f ?l ?s = _ =>
    pose proof (forEach_invariant f
      (λ _ q, workflows q = workflows p ∧ filters q = filters p
              ∧ ∃ new, published q = published p ++ new) [] l s) as Hloop
  end.
  rewrite Hrun in Hloop. apply Hloop; clear Hloop Hrun.
  { split_and!; [done..|]. exists []. by rewrite app_nil_r. }
  intros _ c q q' _ (Hw & Hf & new & Hnew) Hc. simpl in Hc.
  destruct (negb _); [simplify_eq; split_and!; [done..|by exists new]|].
  destruct (propagateChain options).
  - apply IH in Hc as (Hw' & Hf' & new' & Hnew'). simpl in *.
    split_and!; [congruence..|].
    eexists. by rewrite Hnew', Hnew, <- !app_assoc.
  - simplify_eq. simpl. split_and!; [done..|].
    eexists. by rewrite Hnew, <- app_assoc.
Qed.
End PropagatorFacts.

(** A call without [propagateChain] that runs alone. *)
Lemma direct_call
    (p : EventPropagator.t) (wf : EventPropagator.Workflow)
    (workflowId source eventType : string) (data : gmap string value)
    (transform : option (gmap string value → string → string → gmap string value)) :
  EventPropagator.workflows p !! workflowId = Some wf →
  let options := EventPropagator.mkOptions false transform in
  ∃ p', EventPropagator.propagateEvent workflowId source eventType data options p
        = Done p'
    ∧ EventPropagator.published p'
      = EventPropagator.published p
        ++ map (λ c, (EventPropagator.nodeEventType (targetNodeId c) eventType,
                      Derived.edgePayload options source data c))
               (filter (λ c, EventPropagator.passesFilters p eventType
                               (Derived.edgePayload options source data c) = true)
                       (Derived.outgoing wf source))
    ∧ EventPropagator.visitedNodes p' = {[source]}
    ∧ EventPropagator.workflows p' = EventPropagator.workflows p
    ∧ EventPropagator.filters p' = EventPropagator.filters p.
Proof.
  intros Hwf options. unfold EventPropagator.propagateEvent. rewrite Hwf.
  unfold EventPropagator.propagationFuel.
  replace (length (EventPropagator.connections wf) + 2)
    with (S (S (length (EventPropagator.connections wf)))) by lia.
  cbn [EventPropagator.propagateEventToConnectedNodes].
  rewrite decide_False by (simpl; set_solver).
  match goal with |- ∃ p', forEach ?f ?l ?s = _ ∧ _ =>
    pose proof (forEach_invariant f
      (λ seen q,
         EventPropagator.workflows q = EventPropagator.workflows p
         ∧ EventPropagator.filters q = EventPropagator.filters p
         ∧ EventPropagator.visitedNodes q = {[source]}
         ∧ EventPropagator.published q
           = EventPropagator.published p
             ++ map (λ c, (EventPropagator.nodeEventType (targetNodeId c) eventType,
                           Derived.edgePayload options source data c))
                    (filter (λ c, EventPropagator.passesFilters p eventType
                                    (Derived.edgePayload options source data c) = true)
                            seen))
      [] l s) as Hloop;
    destruct (forEach_total f l s) as [p' Hrun]
  end.
  { intros c q. simpl. destruct (negb _); by eexists. }
  rewrite Hrun in *. exists p'. split; [done|].
  destruct Hloop as (Hw & Hf & Hv & Hpub).
  { simpl. split_and!; [done..|set_solver|by rewrite app_nil_r]. }
  { intros seen c q q' _ (Hw & Hf & Hv & Hpub) Hc. simpl in Hc.
    assert (EventPropagator.passesFilters q eventType
              (Derived.edgePayload options source data c)
            = EventPropagator.passesFilters p eventType
                (Derived.edgePayload options source data c)) as Hpass.
    { unfold EventPropagator.passesFilters. by rewrite Hf. }
    unfold Derived.edgePayload, WorkflowTypes_targetNodeId in *. simpl in *.
    rewrite filter_app, fmap_app, filter_cons, filter_nil.
    rewrite Hpass in Hc.
    case_decide as Hp.
    - rewrite Hp in Hc. simpl in Hc. simplify_eq. simpl. split_and!; [done..|].
      by rewrite Hpub, <- app_assoc.
    - apply not_true_is_false in Hp. rewrite Hp in Hc. simpl in Hc. simplify_eq.
      simpl. rewrite app_nil_r. by split_and!. }
  simpl in Hpub. by split_and!.
Qed.

(** X1.  Without [propagateChain], a [propagateEvent] that no other call on
    the propagator overlaps publishes once for each connection that leaves
    the source node and whose payload passes every filter, in the order of
    [workflow.connections], on the event type [node:<target>:<eventType>],
    and it goes no further: when it returns the source is the only visited
    node. *)
Theorem propagateEvent_direct
    (p : EventPropagator.t) (wf : EventPropagator.Workflow)
    (workflowId source eventType : string) (data : gmap string value)
    (transform : option (gmap string value → string → string → gmap string value)) :
  EventPropagator.workflows p !! workflowId = Some wf →
  let options := EventPropagator.mkOptions false transform in
  ∃ p', EventPropagator.completesAlone workflowId source eventType data options
          p p'
    ∧ EventPropagator.published p'
      = EventPropagator.published p
        ++ map (λ c, (EventPropagator.nodeEventType (targetNodeId c) eventType,
                      Derived.edgePayload options source data c))
               (filter (λ c, EventPropagator.passesFilters p eventType
                               (Derived.edgePayload options source data c) = true)
                       (Derived.outgoing wf source))
    ∧ EventPropagator.visitedNodes p' = {[source]}
    ∧ EventPropagator.workflows p' = EventPropagator.workflows p
    ∧ EventPropagator.filters p' = EventPropagator.filters p.
Proof.
  intros Hwf options.
  destruct (direct_call p wf workflowId source eventType data transform Hwf)
    as (p' & Hrun & Hrest).
  exists p'. split; [by apply completesAlone_propagateEvent|exact Hrest].
Qed.

(** The theorem applied to the chain [n1 → n2 → n3] with its filter, when
    [n1] emits. *)
Lemma propagateEvent_direct_witness :
  ∃ p', EventPropagator.completesAlone "chain" "n1" "tick" {["value" := VNum 60]}
          (EventPropagator.mkOptions false None) Scenarios.filtered p'
    ∧ EventPropagator.published p'
      = EventPropagator.published Scenarios.filtered
        ++ map (λ c, (EventPropagator.nodeEventType (targetNodeId c) "tick",
                      Derived.edgePayload (EventPropagator.mkOptions false None)
                        "n1" {["value" := VNum 60]} c))
               (filter (λ c, EventPropagator.passesFilters Scenarios.filtered "tick"
                               (Derived.edgePayload
                                  (EventPropagator.mkOptions false None)
                                  "n1" {["value" := VNum 60]} c) = true)
                       (Derived.outgoing Scenarios.chain "n1"))
    ∧ EventPropagator.visitedNodes p' = {["n1"]}
    ∧ EventPropagator.workflows p' = EventPropagator.workflows Scenarios.filtered
    ∧ EventPropagator.filters p' = EventPropagator.filters Scenarios.filtered.
Proof.
  apply (propagateEvent_direct Scenarios.filtered Scenarios.chain).
  reflexivity.
Defined.

(** X2.  Filters are conjunctive and are consulted before every publish:
    when one of the registered filters rejects every payload,
    [propagateEvent] publishes nothing, chained or not. *)
Theorem propagateEvent_rejecting_filter
    (p p' : EventPropagator.t) (workflowId source eventType : string)
    (data : gmap string value) (options : EventPropagator.PropagationOptions)
    (f : EventPropagator.EventFilter) :
  f ∈ EventPropagator.filters p → (∀ t d, f t d = false) →
  EventPropagator.propagateEvent workflowId source eventType data options p
  = Done p' →
  EventPropagator.published p' = EventPropagator.published p.
Proof.
  intros Hf Hrej. unfold EventPropagator.propagateEvent.
  destruct (EventPropagator.workflows p !! workflowId) as [wf|]; [|done].
  destruct (EventPropagator.propagationFuel wf) as [|fuel]; [done|].
  cbn [EventPropagator.propagateEventToConnectedNodes].
  case_decide; [by intros [= <-]|]. intros Hrun.
  match type of Hrun with forEach ?g ?l ?s = _ =>
    pose proof (forEach_invariant g
      (λ _ q, EventPropagator.filters q = EventPropagator.filters p
              ∧ EventPropagator.published q = EventPropagator.published p)
      [] l s) as Hloop
  end.
  rewrite Hrun in Hloop. apply Hloop; [done|]. clear Hloop Hrun.
  intros _ c q q' _ [Hfq Hpq] Hc. simpl in Hc.
  assert (∀ d, EventPropagator.passesFilters q eventType d = false) as Hpass.
  { intros d. unfold EventPropagator.passesFilters. rewrite Hfq.
    apply not_true_is_false. intros Hall.
    rewrite forallb_forall in Hall. specialize (Hall f).
    rewrite Hrej in Hall. apply list_elem_of_In in Hf. by apply Hall in Hf. }
  rewrite Hpass in Hc. simpl in Hc. by simplify_eq.
Qed.

(** The theorem applied to the filtered chain with a second filter that
    rejects everything. *)
Lemma propagateEvent_rejecting_filter_witness :
  ∃ p', EventPropagator.propagateEvent "chain" "n1" "tick" {["value" := VNum 60]}
          Scenarios.chained
          (EventPropagator.addEventFilter (λ _ _, false) Scenarios.filtered)
        = Done p'
    ∧ EventPropagator.published p'
      = EventPropagator.published
          (EventPropagator.addEventFilter (λ _ _, false) Scenarios.filtered).
Proof.
  eexists. split; [vm_compute; reflexivity|].
  apply (propagateEvent_rejecting_filter
           (EventPropagator.addEventFilter (λ _ _, false) Scenarios.filtered)
           _ "chain" "n1" "tick" {["value" := VNum 60]} Scenarios.chained
           (λ _ _, false)).
  - right. left.
  - reflexivity.
  - vm_compute. reflexivity.
Defined.

(** X3.  [unregisterWorkflow] undoes [registerWorkflow]: registering a
    workflow whose id is free and unregistering that id again gives back
    the propagator that was there before. *)
Theorem unregisterWorkflow_registerWorkflow
    (w : EventPropagator.Workflow) (p : EventPropagator.t) :
  EventPropagator.hasWorkflow (EventPropagator.workflowId w) p = false →
  EventPropagator.unregisterWorkflow (EventPropagator.workflowId w)
    (EventPropagator.registerWorkflow w p).1 = p.
Proof.
  intros Hfree%bool_decide_eq_false.
  unfold EventPropagator.registerWorkflow, EventPropagator.unregisterWorkflow.
  rewrite decide_False by done. destruct p as [ws fs vs ps]. simpl in *. f_equal.
  apply delete_insert_id. by apply eq_None_not_Some.
Qed.

Lemma unregisterWorkflow_registerWorkflow_witness :
  EventPropagator.unregisterWorkflow "circular"
    (EventPropagator.registerWorkflow Scenarios.circular
       (Scenarios.registered Scenarios.chain)).1
  = Scenarios.registered Scenarios.chain.
Proof.
  apply (unregisterWorkflow_registerWorkflow Scenarios.circular
           (Scenarios.registered Scenarios.chain)).
  reflexivity.
Defined.

(** X4.  After [unregisterWorkflow(id)] the workflow is gone whatever was
    registered: [hasWorkflow(id)] is false, [propagateEvent] on that id
    throws "is not registered", the id can be registered again, and the
    other workflows are untouched. *)
Theorem unregisterWorkflow_spec (id : string) (p : EventPropagator.t) :
  let p' := EventPropagator.unregisterWorkflow id p in
  EventPropagator.hasWorkflow id p' = false
  ∧ (∀ source eventType data options,
       EventPropagator.propagateEvent id source eventType data options p'
       = Thrown ("Workflow with ID " +:+ id +:+ " is not registered"))
  ∧ (∀ w, EventPropagator.workflowId w = id →
          (EventPropagator.registerWorkflow w p').2 = Done tt)
  ∧ (∀ other, other ≠ id →
       EventPropagator.workflows p' !! other = EventPropagator.workflows p !! other).
Proof.
  unfold EventPropagator.unregisterWorkflow, EventPropagator.hasWorkflow,
    EventPropagator.propagateEvent, EventPropagator.registerWorkflow. simpl.
  split_and!.
  - apply bool_decide_eq_false. rewrite lookup_delete_eq. by intros [? ?].
  - intros. by rewrite lookup_delete_eq.
  - intros w ->. rewrite decide_False; [done|]. simpl.
    rewrite lookup_delete_eq. by intros [? ?].
  - intros other Hne. by rewrite lookup_delete_ne.
Qed.

Section ChainReach.
Import EventPropagator.
Variables (wf : Workflow) (eventType : string)
  (transform0 : option (gmap string value → string → string → gmap string value)).

(** With no filter registered, a chained call publishes to every successor
    of every node it newly visits, and visits those successors. *)
Lemma propagate_chain_covers (fuel : nat) (source : string)
    (data : gmap string value) (p p' : t) :
  filters p = [] →
  propagateEventToConnectedNodes fuel wf source eventType data
    (mkOptions true transform0) p = Done p' →
  visitedNodes p ⊆ visitedNodes p' ∧ source ∈ visitedNodes p'
  ∧ ∃ new, published p' = published p ++ new
      ∧ ∀ v, v ∈ visitedNodes p' → v ∉ visitedNodes p →
          ∀ t, Derived.connects wf v t →
               t ∈ visitedNodes p' ∧ nodeEventType t eventType ∈ map fst new.
Proof.
  revert source data p p'.
  induction fuel as [|fuel IH]; intros source data p p' Hfil Hrun; [done|].
  simpl in Hrun. case_decide as Hvis.
  { simplify_eq. split_and!; [done..|]. exists []. rewrite app_nil_r.
    split; [done|]. intros v Hv Hv'. done. }
  match type of Hrun with forEach ?f ?l ?s = _ =>
    pose proof (forEach_invariant f
      (λ seen q,
         filters q = []
         ∧ {[source]} ∪ visitedNodes p ⊆ visitedNodes q
         ∧ ∃ new, published q = published p ++ new
             ∧ (∀ c, c ∈ seen →
                  targetNodeId c ∈ visitedNodes q
                  ∧ nodeEventType (targetNodeId c) eventType ∈ map fst new)
             ∧ (∀ v, v ∈ visitedNodes q → v ∉ {[source]} ∪ visitedNodes p →
                  ∀ t, Derived.connects wf v t →
                       t ∈ visitedNodes q
                       ∧ nodeEventType t eventType ∈ map fst new))
      [] l s) as Hloop
  end.
  rewrite Hrun in Hloop. simpl in Hloop.
  destruct Hloop as (_ & Hsub & new & Hnew & Hseen & Hrest).
  { split_and!; [done..|]. exists []. rewrite app_nil_r. split_and!; [done| |].
    - intros c Hc. by apply elem_of_nil in Hc.
    - intros v Hv Hv'. set_solver. }
  { clear Hrun. intros seen c q q' _ (Hfq & Hsub & new & Hnew & Hseen & Hrest) Hc.
    simpl in Hc. unfold passesFilters in Hc. rewrite Hfq in Hc. simpl in Hc.
    pose proof (propagate_keeps_tables _ _ _ _ _ _ _ _ Hc) as (_ & Hfq' & _).
    apply IH in Hc as (Hsub' & Htgt & new' & Hnew' & Hcov); [|done].
    simpl in *. unfold WorkflowTypes_targetNodeId in *.
    split_and!; [congruence|set_solver|].
    eexists. split; [by rewrite Hnew', Hnew, <- !app_assoc|].
    split.
    - intros c' [Hc'| ->%list_elem_of_singleton]%elem_of_app.
      + destruct (Hseen c' Hc') as [Hin Hpub]. split; [set_solver|].
        rewrite !fmap_app. apply elem_of_app. by left.
      + split; [done|]. rewrite !fmap_app. simpl.
        apply elem_of_app. right. left.
    - intros v Hv Hv' t Ht.
      destruct (decide (v ∈ visitedNodes q)) as [Hq|Hq].
      + destruct (Hrest v Hq Hv' t Ht) as [Hin Hpub]. split; [set_solver|].
        rewrite !fmap_app. apply elem_of_app. by left.
      + destruct (Hcov v Hv Hq t Ht) as [Hin Hpub]. split; [done|].
        rewrite !fmap_app. apply elem_of_app. right. by right. }
  split_and!; [set_solver..|]. exists new. split; [done|].
  intros v Hv Hv' t Ht.
  destruct (decide (v = source)) as [->|Hne].
  - destruct Ht as (c & Hc & Hs & <-). apply Hseen.
    apply list_elem_of_filter. by split.
  - apply (Hrest v); [done|set_solver|done].
Qed.
End ChainReach.

(** A chained call that runs alone, with no filter registered. *)
Lemma chained_call_reaches
    (p p' : EventPropagator.t) (wf : EventPropagator.Workflow)
    (workflowId source eventType : string) (data : gmap string value)
    (transform : option (gmap string value → string → string → gmap string value)) :
  EventPropagator.workflows p !! workflowId = Some wf →
  EventPropagator.filters p = [] →
  EventPropagator.propagateEvent workflowId source eventType data
    (EventPropagator.mkOptions true transform) p = Done p' →
  ∃ new, EventPropagator.published p' = EventPropagator.published p ++ new
    ∧ ∀ target, tc (Derived.connects wf) source target →
        EventPropagator.nodeEventType target eventType ∈ map fst new.
Proof.
  intros Hwf Hfil. unfold EventPropagator.propagateEvent. rewrite Hwf. intros Hrun.
  apply propagate_chain_covers in Hrun as (_ & Hsrc & new & Hnew & Hcov); [|done].
  exists new. split; [done|]. simpl in Hcov.
  assert (∀ v target, tc (Derived.connects wf) v target →
            v ∈ EventPropagator.visitedNodes p' →
            EventPropagator.nodeEventType target eventType ∈ map fst new) as Hall.
  { induction 1 as [v t Hvt|v y t Hvy _ IH]; intros Hv.
    - apply (Hcov v); [done|set_solver|done].
    - apply IH. apply (Hcov v); [done|set_solver|done]. }
  intros target Hpath. by eapply Hall.
Qed.

(** X5.  With no filter registered, a chained [propagateEvent] that no
    other call on the propagator overlaps terminates and reaches the whole
    graph behind the source: every node that can be reached from the source
    over one or more connections gets the event published on its
    [node:<id>:<eventType>] during the call. *)
Theorem propagateEvent_chain_reaches
    (p : EventPropagator.t) (wf : EventPropagator.Workflow)
    (workflowId source eventType : string) (data : gmap string value)
    (transform : option (gmap string value → string → string → gmap string value)) :
  EventPropagator.workflows p !! workflowId = Some wf →
  EventPropagator.filters p = [] →
  ∃ p', EventPropagator.completesAlone workflowId source eventType data
          (EventPropagator.mkOptions true transform) p p'
    ∧ ∃ new, EventPropagator.published p' = EventPropagator.published p ++ new
        ∧ ∀ target, tc (Derived.connects wf) source target →
            EventPropagator.nodeEventType target eventType ∈ map fst new.
Proof.
  intros Hwf Hfilters.
  destruct (propagateEvent_returns p wf workflowId source eventType data
              (EventPropagator.mkOptions true transform) Hwf) as [p' Hrun].
  exists p'. split; [by apply completesAlone_propagateEvent|].
  by eapply chained_call_reaches.
Qed.

(** The theorem applied to the diamond, from its top. *)
Lemma propagateEvent_chain_reaches_witness :
  ∃ p', EventPropagator.completesAlone "diamond" "s" "ping" ∅
          (EventPropagator.mkOptions true None)
          (Scenarios.registered Scenarios.diamond) p'
    ∧ ∃ new, EventPropagator.published p'
             = EventPropagator.published (Scenarios.registered Scenarios.diamond)
               ++ new
        ∧ ∀ target, tc (Derived.connects Scenarios.diamond) "s" target →
            EventPropagator.nodeEventType target "ping" ∈ map fst new.
Proof.
  apply (propagateEvent_chain_reaches (Scenarios.registered Scenarios.diamond)
           Scenarios.diamond "diamond" "s" "ping" ∅ None).
  - reflexivity.
  - reflexivity.
Defined.

(** ** Event bus *)

Section BusFacts.
Import EventBus.

Lemma tidy_subscribe (eventType : string) (cb : Callback)
    (options : SubscriptionOptions) (b : t) :
  Derived.tidy b → Derived.tidy (subscribe eventType cb options b).1.
Proof.
  intros Hb e subscribers. unfold subscribe. cbn [fst subscriptions].
  destruct (decide (eventType = e)) as [->|Hne].
  - rewrite lookup_insert_eq. intros [= <-]. split; [by destruct (default _ _)|].
    apply Forall_app. split; [|by repeat constructor].
    destruct (subscriptions b !! e) as [old|] eqn:Hold; simpl; [|constructor].
    by apply Hb.
  - rewrite lookup_insert_ne by done. apply Hb.
Qed.

Lemma Forall_removeFirst (P : SubscriptionInfo → Prop) (id : string)
    (l : list SubscriptionInfo) :
  Forall P l → Forall P (removeFirst id l).
Proof.
  induction 1 as [|x l Hx Hl IH]; simpl; [constructor|].
  case_decide; [done|by constructor].
Qed.

Lemma tidy_unsubscribe (handle : Subscription) (b : t) :
  Derived.tidy b → Derived.tidy (unsubscribe handle b).
Proof.
  intros Hb. unfold unsubscribe.
  destruct (subscriptions b !! subEventType handle) as [subscribers|] eqn:Hl; [|done].
  destruct (removeFirst (subId handle) subscribers) as [|x rest] eqn:Hrem;
    intros e l; simpl.
  - intros [_ Hlookup]%lookup_delete_Some. by apply Hb.
  - destruct (decide (subEventType handle = e)) as [<-|Hne].
    + rewrite lookup_insert_eq. intros [= <-]. split; [done|].
      rewrite <- Hrem. apply Forall_removeFirst. by apply Hb.
    + rewrite lookup_insert_ne by done. apply Hb.
Qed.

Lemma tidy_applySubscribes
    (requests : list (string * Callback * SubscriptionOptions)) (b : t) :
  Derived.tidy b → Derived.tidy (applySubscribes requests b).
Proof.
  unfold applySubscribes. revert b.
  induction requests as [|[[e cb] o] requests IH]; intros b Hb; simpl; [done|].
  by apply IH, tidy_subscribe.
Qed.

Lemma tidy_publishCalls (fuel : nat) (eventType : string) (data : value)
    (b b' : t) (cs : list Call) (removals : list Subscription) :
  publishCalls fuel eventType data b = Done (b', cs, removals) →
  Derived.tidy b → Derived.tidy b'.
Proof.
  revert eventType data b b' cs removals.
  induction fuel as [|fuel IH]; intros eventType data b b' cs removals Hrun Hb;
    [done|].
  rewrite publishCalls_unfold in Hrun.
  destruct (subscriptions b !! eventType) as [[|sub subs]|]; [by simplify_eq..| |by simplify_eq].
  pose proof (forEach_invariant
    (deliverTo (publishCalls fuel CoreEventTypes.SYSTEM_ERROR) eventType data)
    (λ _ d, Derived.tidy (bus d)) [] (sortByPriority (sub :: subs))
    (mkDelivery b [] [] [])) as Hloop.
  destruct (forEach _ _ _) as [d| |]; [|done..].
  simplify_eq.
  apply Hloop; [done|]. clear Hloop.
  intros _ x s0 s1 _ Hs0 Hx. unfold deliverTo in Hx.
  pose proof (tidy_applySubscribes
    (reactionSubscribes (callback x data)) (bus s0) Hs0) as Hb1.
  destruct (reactionError (callback x data)) as [err|]; [|by simplify_eq].
  case_decide; [|by simplify_eq].
  destruct (publishCalls fuel _ _ _) as [[[b2 nested] removals]| |] eqn:Hnested;
    [|done..].
  simplify_eq. simpl. by eapply IH.
Qed.

Lemma tidy_publish (fuel : nat) (eventType : string) (data : value)
    (b b' : t) (cs : list Call) :
  publish fuel eventType data b = Done (b', cs) → Derived.tidy b → Derived.tidy b'.
Proof.
  unfold publish. intros Hrun Hb.
  destruct (publishCalls fuel eventType data b) as [[[b1 cs1] removals]| |]
    eqn:Hcalls; [|done..].
  simplify_eq. apply tidy_publishCalls in Hcalls; [|done].
  revert Hcalls. generalize b1.
  induction removals as [|r rs IHr]; intros b0 Hb0; simpl; [done|].
  by apply IHr, tidy_unsubscribe.
Qed.

Lemma tidy_reachable (b : t) : Derived.busReachable b → Derived.tidy b.
Proof.
  induction 1 as [|b e cb o _ IH|b h _ IH|b fuel e d b' cs _ IH Hrun|b e _ IH|b _ IH].
  - intros e l Hl. simpl in Hl. by rewrite lookup_empty in Hl.
  - by apply tidy_subscribe.
  - by apply tidy_unsubscribe.
  - by eapply tidy_publish.
  - intros e' l. simpl. intros [_ Hl]%lookup_delete_Some. by apply IH.
  - intros e' l Hl. simpl in Hl. by rewrite lookup_empty in Hl.
Qed.
End BusFacts.

(** X6.  However a bus has been used, its table holds no empty subscriber
    set, so an event type is a key of the table exactly when it has a
    subscriber, and every stored handle names the event type it is stored
    under: [unsubscribe] removes the key with the last subscriber. *)
Theorem bus_table_tidy (b : EventBus.t) (eventType : string) :
  Derived.busReachable b →
  (EventBus.hasSubscribers eventType b = true
   ↔ is_Some (EventBus.subscriptions b !! eventType))
  ∧ (EventBus.getSubscriberCount eventType b = 0
     ↔ EventBus.subscriptions b !! eventType = None)
  ∧ Forall (λ sub, EventBus.subEventType (EventBus.subscription sub) = eventType)
           (EventBus.subscribersOf eventType b).
Proof.
  intros Hb%tidy_reachable.
  unfold EventBus.hasSubscribers, EventBus.getSubscriberCount, EventBus.subscribersOf.
  destruct (EventBus.subscriptions b !! eventType) as [l|] eqn:Hl; simpl.
  - destruct (Hb _ _ Hl) as [Hne Hall]. destruct l as [|x l]; [done|].
    split_and!; [|done..]. split; [by eexists|done].
  - split_and!; [|done|constructor]. split; [done|]. by intros [? ?].
Qed.

(** The theorem applied to the bus with three subscribers of
    [workflow:started]. *)
Lemma bus_table_tidy_witness :
  (EventBus.hasSubscribers "workflow:started" Scenarios.prioritized = true
   ↔ is_Some (EventBus.subscriptions Scenarios.prioritized !! "workflow:started"))
  ∧ (EventBus.getSubscriberCount "workflow:started" Scenarios.prioritized = 0
     ↔ EventBus.subscriptions Scenarios.prioritized !! "workflow:started" = None)
  ∧ Forall (λ sub, EventBus.subEventType (EventBus.subscription sub)
                   = "workflow:started")
           (EventBus.subscribersOf "workflow:started" Scenarios.prioritized).
Proof.
  apply bus_table_tidy.
  repeat apply Derived.busReachable_subscribe. apply Derived.busReachable_empty.
Defined.

Section Unsubscribe.
Import EventBus.

Lemma removeFirst_absent (id : string) (l : list SubscriptionInfo) :
  Forall (λ sub, Derived.handleId sub ≠ id) l → removeFirst id l = l.
Proof.
  induction 1 as [|x l Hx _ IH]; simpl; [done|].
  unfold Derived.handleId in Hx. rewrite decide_False by done. by rewrite IH.
Qed.

Lemma removeFirst_filter (id : string) (l : list SubscriptionInfo) :
  NoDup (map Derived.handleId l) →
  removeFirst id l = filter (λ sub, Derived.handleId sub ≠ id) l.
Proof.
  induction l as [|x l IH]; simpl; [done|]. intros [Hx Hl]%NoDup_cons.
  rewrite filter_cons. unfold Derived.handleId at 2.
  destruct (decide (subId (subscription x) = id)) as [Heq|Hne].
  - rewrite decide_False by (intros Hn; by apply Hn).
    rewrite <- IH by done. symmetry. apply removeFirst_absent.
    apply Forall_forall. intros y Hy Hid. apply Hx.
    apply list_elem_of_fmap. exists y. split; [|done].
    unfold Derived.handleId in *. congruence.
  - rewrite decide_True by done. f_equal. by apply IH.
Qed.

(** What [unsubscribe] does to the subscribers of the handle's event type,
    and that it touches no other. *)
Lemma unsubscribe_subscribersOf (handle : Subscription) (b : t) :
  subscribersOf (subEventType handle) (unsubscribe handle b)
  = removeFirst (subId handle) (subscribersOf (subEventType handle) b)
  ∧ ∀ other, other ≠ subEventType handle →
      subscriptions (unsubscribe handle b) !! other = subscriptions b !! other.
Proof.
  unfold unsubscribe, subscribersOf.
  destruct (subscriptions b !! subEventType handle) as [l|] eqn:Hl; simpl.
  - destruct (removeFirst (subId handle) l) as [|x rest] eqn:Hrem; simpl.
    + rewrite lookup_delete_eq. split; [done|].
      intros other Hne. by rewrite lookup_delete_ne.
    + rewrite lookup_insert_eq. split; [done|].
      intros other Hne. by rewrite lookup_insert_ne.
  - by rewrite Hl.
Qed.
End Unsubscribe.

(** X7.  [unsubscribe] undoes [subscribe]: when no subscriber of the event
    type already carries the id of the new handle, subscribing and then
    unsubscribing the returned handle leaves the table as it was. *)
Theorem unsubscribe_subscribe (eventType : string) (cb : EventBus.Callback)
    (options : EventBus.SubscriptionOptions) (b : EventBus.t) :
  Derived.busReachable b →
  Forall (λ sub, Derived.handleId sub
                 ≠ EventBus.subId (EventBus.subscribe eventType cb options b).2)
         (EventBus.subscribersOf eventType b) →
  EventBus.subscriptions
    (EventBus.unsubscribe (EventBus.subscribe eventType cb options b).2
       (EventBus.subscribe eventType cb options b).1)
  = EventBus.subscriptions b.
Proof.
  intros Hb%tidy_reachable Hfresh.
  unfold EventBus.subscribe, EventBus.unsubscribe, EventBus.subscribersOf in *.
  cbn [fst snd EventBus.subscriptions EventBus.subEventType EventBus.subId
       EventBus.nextUid] in *.
  rewrite lookup_insert_eq.
  set (id := match EventBus.id options with
             | Some s => if String.eqb s "" then EventBus.generateId (EventBus.nextUid b)
                         else s
             | None => EventBus.generateId (EventBus.nextUid b)
             end) in *.
  assert (∀ old new, Forall (λ sub, Derived.handleId sub ≠ id) old →
            Derived.handleId new = id →
            EventBus.removeFirst id (old ++ [new]) = old) as Hrem.
  { intros old new Hold Hnew. induction Hold as [|x old Hx _ IH]; simpl.
    - unfold Derived.handleId in Hnew. by rewrite decide_True.
    - unfold Derived.handleId in Hx. rewrite decide_False by done. by rewrite IH. }
  rewrite Hrem; [|done..].
  destruct (EventBus.subscriptions b !! eventType) as [old|] eqn:Hold; simpl.
  - destruct (Hb _ _ Hold) as [Hne _]. destruct old as [|x old]; [done|].
    simpl. rewrite insert_insert_eq. by apply insert_id.
  - simpl. by apply delete_insert_id.
Qed.

Lemma unsubscribe_subscribe_witness :
  EventBus.subscriptions
    (EventBus.unsubscribe
       (EventBus.subscribe "workflow:started" Scenarios.returns
          EventBus.defaultOptions Scenarios.prioritized).2
       (EventBus.subscribe "workflow:started" Scenarios.returns
          EventBus.defaultOptions Scenarios.prioritized).1)
  = EventBus.subscriptions Scenarios.prioritized.
Proof.
  apply unsubscribe_subscribe.
  - repeat apply Derived.busReachable_subscribe. apply Derived.busReachable_empty.
  - repeat constructor; by vm_compute.
Defined.

(** X8.  [unsubscribe] is idempotent as long as the subscribers of the
    event type carry distinct ids: a second call with the same handle finds
    nothing to remove. *)
Theorem unsubscribe_idempotent (handle : EventBus.Subscription) (b : EventBus.t) :
  NoDup (map Derived.handleId
           (EventBus.subscribersOf (EventBus.subEventType handle) b)) →
  EventBus.unsubscribe handle (EventBus.unsubscribe handle b)
  = EventBus.unsubscribe handle b.
Proof.
  intros Hnodup. unfold EventBus.subscribersOf in Hnodup.
  unfold EventBus.unsubscribe at 2 3.
  destruct (EventBus.subscriptions b !! EventBus.subEventType handle)
    as [l|] eqn:Hl; simpl in Hnodup.
  - assert (Forall (λ sub, Derived.handleId sub ≠ EventBus.subId handle)
              (EventBus.removeFirst (EventBus.subId handle) l)) as Habsent.
    { rewrite removeFirst_filter by done. apply Forall_forall.
      by intros x [? _]%list_elem_of_filter. }
    destruct (EventBus.removeFirst (EventBus.subId handle) l) as [|x rest] eqn:Hrem.
    + unfold EventBus.unsubscribe. simpl. by rewrite lookup_delete_eq.
    + unfold EventBus.unsubscribe. simpl. rewrite lookup_insert_eq.
      rewrite removeFirst_absent by done. by rewrite insert_insert_eq.
  - unfold EventBus.unsubscribe. by rewrite Hl.
Qed.

Lemma unsubscribe_idempotent_witness :
  EventBus.unsubscribe (EventBus.mkSubscription "workflow:started" "sub_1")
    (EventBus.unsubscribe (EventBus.mkSubscription "workflow:started" "sub_1")
       Scenarios.prioritized)
  = EventBus.unsubscribe (EventBus.mkSubscription "workflow:started" "sub_1")
      Scenarios.prioritized.
Proof.
  apply unsubscribe_idempotent.
  vm_compute. repeat constructor; set_solver.
Defined.

Section OnceRemoval.
Import EventBus.

Lemma NoDup_handleId_inj (l : list SubscriptionInfo) (x y : SubscriptionInfo) :
  NoDup (map Derived.handleId l) → x ∈ l → y ∈ l →
  Derived.handleId x = Derived.handleId y → x = y.
Proof.
  intros Hnd [i Hi]%list_elem_of_lookup [j Hj]%list_elem_of_lookup Heq.
  assert (i = j) as ->; [|congruence].
  eapply NoDup_lookup; [exact Hnd| |].
  - by rewrite list_lookup_fmap, Hi.
  - by rewrite list_lookup_fmap, Hj, Heq.
Qed.

Lemma filter_ext_in {A : Type} (P Q : A → Prop)
    `{∀ x, Decision (P x)} `{∀ x, Decision (Q x)} (l : list A) :
  (∀ x, x ∈ l → P x ↔ Q x) → filter P l = filter Q l.
Proof.
  induction l as [|x l IH]; intros Hext; [done|].
  rewrite !filter_cons.
  pose proof (Hext x (list_elem_of_here _ _)) as Hx.
  rewrite IH by (intros y Hy; apply Hext; by right).
  repeat case_decide; tauto.
Qed.

(** Unsubscribing the handles of the entries [gone] one after the other
    removes exactly the entries with their ids. *)
Lemma unsubscribe_all (eventType : string) (gone : list SubscriptionInfo) (b : t) :
  Forall (λ sub, subEventType (subscription sub) = eventType) gone →
  NoDup (map Derived.handleId (subscribersOf eventType b)) →
  let b' := foldl (λ b handle, unsubscribe handle b) b (map subscription gone) in
  subscribersOf eventType b'
  = filter (λ sub, Derived.handleId sub ∉ map Derived.handleId gone)
           (subscribersOf eventType b)
  ∧ ∀ other, other ≠ eventType →
      subscriptions b' !! other = subscriptions b !! other.
Proof.
  intros Hgone. revert b.
  induction Hgone as [|r gone Hr _ IH]; intros b Hnd; simpl.
  { split; [|done]. induction (subscribersOf eventType b) as [|x l IHl]; [done|].
    simpl in Hnd. apply NoDup_cons in Hnd as [_ Hl].
    rewrite filter_cons, decide_True by apply not_elem_of_nil.
    f_equal. by apply IHl. }
  destruct (unsubscribe_subscribersOf (subscription r) b) as [Hsubs Hother].
  rewrite Hr in Hsubs, Hother.
  rewrite removeFirst_filter in Hsubs by done.
  destruct (IH (unsubscribe (subscription r) b)) as [IH1 IH2].
  { rewrite Hsubs. clear -Hnd.
    induction (subscribersOf eventType b) as [|x l IHl]; [constructor|].
    simpl in Hnd. apply NoDup_cons in Hnd as [Hx Hl].
    rewrite filter_cons. case_decide; [|by apply IHl].
    simpl. apply NoDup_cons. split; [|by apply IHl].
    intros (y & Hy & [_ Hin]%list_elem_of_filter)%list_elem_of_fmap.
    apply Hx. apply list_elem_of_fmap. by exists y. }
  split.
  - rewrite IH1, Hsubs, list_filter_filter. apply filter_ext_in.
    intros x _. rewrite not_elem_of_cons. unfold Derived.handleId. tauto.
  - intros other Hne. rewrite IH2 by done. by apply Hother.
Qed.
End OnceRemoval.

(** X9.  When the callbacks of an event's subscribers all return without
    subscribing anything, and the subscribers carry distinct ids, [publish]
    calls them in priority order, removes exactly the [once] subscribers
    from the event's set, and leaves the other event types alone. *)
Theorem publish_removes_once (eventType : string) (data : value) (b : EventBus.t) :
  Derived.busReachable b →
  NoDup (map Derived.handleId (EventBus.subscribersOf eventType b)) →
  Forall (λ sub, EventBus.callback sub data = EventBus.React [] None)
         (EventBus.subscribersOf eventType b) →
  ∃ b', EventBus.publish EventBus.publishFuel eventType data b
        = Done (b', map (λ sub, EventBus.mkCall (EventBus.uid sub) eventType)
                        (EventBus.sortByPriority
                           (EventBus.subscribersOf eventType b)))
    ∧ EventBus.subscribersOf eventType b'
      = filter (λ sub, EventBus.infoOnce sub = false)
               (EventBus.subscribersOf eventType b)
    ∧ ∀ other, other ≠ eventType →
        EventBus.subscriptions b' !! other = EventBus.subscriptions b !! other.
Proof.
  intros Hb%tidy_reachable Hnd Hquiet.
  unfold EventBus.publishFuel. rewrite publish_unfold.
  destruct (EventBus.subscriptions b !! eventType) as [subs|] eqn:Hsubs.
  2:{ exists b. unfold EventBus.subscribersOf. by rewrite Hsubs. }
  assert (EventBus.subscribersOf eventType b = subs) as Hsubs'.
  { unfold EventBus.subscribersOf. by rewrite Hsubs. }
  rewrite Hsubs' in *.
  destruct (Hb _ _ Hsubs) as [Hne Hkey].
  destruct subs as [|s0 subs0]; [done|].
  set (subs := s0 :: subs0) in *.
  set (f := EventBus.deliverTo
              (EventBus.publishCalls 1 CoreEventTypes.SYSTEM_ERROR) eventType data).
  pose proof (forEach_invariant f
    (λ seen d,
       EventBus.bus d = b
       ∧ EventBus.calls d
         = map (λ sub, EventBus.mkCall (EventBus.uid sub) eventType) seen
       ∧ EventBus.toRemove d
         = map EventBus.subscription
               (filter (λ sub, EventBus.infoOnce sub = true) seen)
       ∧ EventBus.nestedToRemove d = [])
    [] (EventBus.sortByPriority subs) (EventBus.mkDelivery b [] [] [])) as Hloop.
  assert (∀ x d, x ∈ EventBus.sortByPriority subs →
            f x d = Done (EventBus.mkDelivery (EventBus.bus d)
                     (EventBus.calls d ++ [EventBus.mkCall (EventBus.uid x) eventType])
                     (if EventBus.infoOnce x
                      then EventBus.toRemove d ++ [EventBus.subscription x]
                      else EventBus.toRemove d)
                     (EventBus.nestedToRemove d))) as Hstep.
  { intros x d Hx. rewrite sortByPriority_perm in Hx.
    eapply (proj1 (Forall_forall _ _)) in Hquiet; [|exact Hx].
    unfold f, EventBus.deliverTo. by rewrite Hquiet. }
  lapply Hloop; [clear Hloop; intros Hloop|done].
  lapply Hloop; [clear Hloop; intros Hloop|].
  2:{ intros seen x d d' Hx (Hbus & Hcalls & Hrem & Hnested) Hrun.
      rewrite (Hstep x d Hx) in Hrun. injection Hrun as <-. simpl.
      rewrite fmap_app, filter_app, fmap_app, filter_cons, filter_nil.
      split_and!; [done|by rewrite Hcalls| |done].
      rewrite Hrem. case_decide as Honce.
      + by rewrite Honce.
      + destruct (EventBus.infoOnce x); [done|]. by rewrite app_nil_r. }
  fold f. destruct (forEach f _ _) as [d|m|].
  - cbv beta in Hloop. rewrite app_nil_l in Hloop.
    destruct Hloop as (Hbus & Hcalls & Hrem & Hnested).
    eexists. split; [by rewrite Hcalls|].
    rewrite Hbus, Hrem, Hnested, app_nil_l.
    set (gone := filter (λ sub, EventBus.infoOnce sub = true)
                        (EventBus.sortByPriority subs)).
    destruct (unsubscribe_all eventType gone b) as [Hleft Hother].
    { apply Forall_forall. intros x [_ Hx]%list_elem_of_filter.
      rewrite sortByPriority_perm in Hx.
      by eapply (proj1 (Forall_forall _ _)) in Hkey. }
    { by rewrite Hsubs'. }
    split; [|done]. rewrite Hleft, Hsubs'. apply filter_ext_in.
    intros x Hx. split.
    + intros Hnot. destruct (EventBus.infoOnce x) eqn:Honce; [|done].
      exfalso. apply Hnot. apply list_elem_of_fmap. exists x. split; [done|].
      apply list_elem_of_filter. split; [done|]. by rewrite sortByPriority_perm.
    + intros Hkeep (y & Hid & [Honce Hy]%list_elem_of_filter)%list_elem_of_fmap.
      rewrite sortByPriority_perm in Hy.
      assert (x = y) as -> by (by eapply NoDup_handleId_inj).
      congruence.
  - destruct Hloop as (seen & x & d & Hx & _ & Hrun). by rewrite Hstep in Hrun.
  - destruct Hloop as (seen & x & d & Hx & _ & Hrun). by rewrite Hstep in Hrun.
Qed.

Lemma publish_removes_once_witness :
  ∃ b', EventBus.publish EventBus.publishFuel "workflow:started" VNull
          Derived.withOnce
        = Done (b', map (λ sub, EventBus.mkCall (EventBus.uid sub) "workflow:started")
                        (EventBus.sortByPriority
                           (EventBus.subscribersOf "workflow:started"
                              Derived.withOnce)))
    ∧ EventBus.subscribersOf "workflow:started" b'
      = filter (λ sub, EventBus.infoOnce sub = false)
               (EventBus.subscribersOf "workflow:started" Derived.withOnce)
    ∧ ∀ other, other ≠ "workflow:started" →
        EventBus.subscriptions b' !! other
        = EventBus.subscriptions Derived.withOnce !! other.
Proof.
  apply publish_removes_once.
  - repeat apply Derived.busReachable_subscribe. apply Derived.busReachable_empty.
  - vm_compute. repeat constructor; set_solver.
  - repeat constructor.
Defined.

(** X10.  A failing handler of [system:error] is not reported again: a
    [publish] of [system:error] calls the subscribers of [system:error], in
    priority order, and nothing else, whatever those callbacks do. *)
Theorem publish_system_error_not_republished (data : value) (b : EventBus.t) :
  ∃ b', EventBus.publish EventBus.publishFuel CoreEventTypes.SYSTEM_ERROR data b
        = Done (b', map (λ sub, EventBus.mkCall (EventBus.uid sub)
                                  CoreEventTypes.SYSTEM_ERROR)
                        (EventBus.sortByPriority
                           (EventBus.subscribersOf CoreEventTypes.SYSTEM_ERROR b))).
Proof.
  destruct (publish_delivers CoreEventTypes.SYSTEM_ERROR data b)
    as (b' & cs & Hrun & Hstarted).
  destruct (publish_system_error 1 data b) as (b'' & cs' & Hrun' & Hall).
  unfold EventBus.publishFuel in *. rewrite Hrun in Hrun'. simplify_eq.
  exists b''. rewrite Hrun. do 2 f_equal.
  unfold EventBus.startedFor in Hstarted. clear Hrun.
  revert Hstarted Hall.
  generalize (EventBus.sortByPriority
                (EventBus.subscribersOf CoreEventTypes.SYSTEM_ERROR b)).
  induction cs' as [|c cs IH]; intros [|sub subs] Hstarted Hall.
  - done.
  - done.
  - apply Forall_cons in Hall as [Hc _].
    rewrite filter_cons, decide_True in Hstarted by done. done.
  - apply Forall_cons in Hall as [Hc Hall].
    rewrite filter_cons, decide_True in Hstarted by done.
    simpl in Hstarted. injection Hstarted as Huid Hrest.
    simpl. f_equal; [|by apply IH].
    destruct c as [u ty]. simpl in *. by subst.
Qed.

(** ** Node executor *)

Section NodeExecutorFacts.
Import NodeExecutor.

Lemma forEach_app {A S : Type} (f : A → S → outcome S) (l1 l2 : list A) (s : S) :
  forEach f (l1 ++ l2) s = Derived.andThen (forEach f l1 s) (forEach f l2).
Proof.
  revert s. induction l1 as [|x l1 IH]; intros s; simpl; [done|].
  destruct (f x s); simpl; [apply IH|done..].
Qed.

(** Validation succeeds exactly when every validator answers [true]. *)
Lemma validate_Done (validators : list ValidatorFn) (failure : string)
    (node : Node) (data : gmap string value) (context : ExecutionContext) :
  validate validators failure node data context = Done tt
  ↔ Forall (λ validator, validator data node context = Done true) validators.
Proof.
  unfold validate. induction validators as [|v vs IH]; simpl.
  - split; [constructor|done].
  - rewrite Forall_cons.
    destruct (v data node context) as [[|]|m|]; simpl.
    + rewrite IH. naive_solver.
    + split; [done|]. by intros [? _].
    + split; [done|]. by intros [? _].
    + split; [done|]. by intros [? _].
Qed.

(** Validation stops at the first validator that answers [false]. *)
Lemma validate_rejects (accepting rest : list ValidatorFn) (rejecting : ValidatorFn)
    (failure : string) (node : Node) (data : gmap string value)
    (context : ExecutionContext) :
  Forall (λ validator, validator data node context = Done true) accepting →
  rejecting data node context = Done false →
  validate (accepting ++ rejecting :: rest) failure node data context
  = Thrown failure.
Proof.
  intros Hacc Hrej. unfold validate.
  induction Hacc as [|v vs Hv _ IH]; simpl.
  - by rewrite Hrej.
  - by rewrite Hv.
Qed.
End NodeExecutorFacts.

(** X11.  [executeNode] returns outputs only when an executor is registered
    for the node's type, every input validator accepted the transformed
    inputs, the executor returned, and every output validator accepted what
    the executor returned, before the output transformations.  What it
    returns is the transformed output, and it has published
    [node:execution:started] with the inputs as given, then
    [node:execution:completed] with the transformed outputs. *)
Theorem executeNode_success (ex : NodeExecutor.t) (node : Node)
    (inputs : gmap string value) (context : ExecutionContext)
    (events : list Event) (outputs : gmap string value) :
  NodeExecutor.executeNode ex node inputs context = (events, Done outputs) →
  ∃ executor transformedInputs raw,
    NodeExecutor.nodeTypeExecutors ex !! nodeType node = Some executor
    ∧ NodeExecutor.applyTransformations
        (default [] (NodeExecutor.inputTransformations ex !! nodeType node))
        node inputs context = Done transformedInputs
    ∧ Forall (λ validator, validator transformedInputs node context = Done true)
             (default [] (NodeExecutor.inputValidators ex !! nodeType node))
    ∧ executor (nodeId node) transformedInputs context = Done raw
    ∧ Forall (λ validator, validator raw node context = Done true)
             (default [] (NodeExecutor.outputValidators ex !! nodeType node))
    ∧ NodeExecutor.applyTransformations
        (default [] (NodeExecutor.outputTransformations ex !! nodeType node))
        node raw context = Done outputs
    ∧ events = [mkEvent CoreEventTypes.NODE_EXECUTION_STARTED
                  (PNodeStarted (nodeId node) (nodeType node) inputs);
                mkEvent CoreEventTypes.NODE_EXECUTION_COMPLETED
                  (PNodeCompleted (nodeId node) (nodeType node) outputs)].
Proof.
  unfold NodeExecutor.executeNode, NodeExecutor.runNode.
  destruct (NodeExecutor.nodeTypeExecutors ex !! nodeType node) as [executor|];
    [|done].
  destruct (NodeExecutor.applyTransformations _ node inputs context)
    as [tin| |] eqn:Htin; [|done..].
  destruct (NodeExecutor.validate _ _ node tin context) as [[]| |] eqn:Hvin;
    [|done..].
  destruct (executor (nodeId node) tin context) as [raw| |] eqn:Hraw; [|done..].
  destruct (NodeExecutor.validate _ _ node raw context) as [[]| |] eqn:Hvout;
    [|done..].
  destruct (NodeExecutor.applyTransformations _ node raw context)
    as [outs| |] eqn:Houts; [|done..].
  intros [= <- <-]. exists executor, tin, raw.
  apply validate_Done in Hvin, Hvout. by split_and!.
Qed.

Lemma executeNode_success_witness :
  ∃ executor transformedInputs raw,
    NodeExecutor.nodeTypeExecutors Derived.guarded !! "double" = Some executor
    ∧ NodeExecutor.applyTransformations
        (default [] (NodeExecutor.inputTransformations Derived.guarded !! "double"))
        Scenarios.nodeB {["v" := VNum 3]} Derived.someContext
      = Done transformedInputs
    ∧ Forall (λ validator,
                validator transformedInputs Scenarios.nodeB Derived.someContext
                = Done true)
             (default [] (NodeExecutor.inputValidators Derived.guarded !! "double"))
    ∧ executor "B" transformedInputs Derived.someContext = Done raw
    ∧ Forall (λ validator,
                validator raw Scenarios.nodeB Derived.someContext = Done true)
             (default [] (NodeExecutor.outputValidators Derived.guarded !! "double"))
    ∧ NodeExecutor.applyTransformations
        (default [] (NodeExecutor.outputTransformations Derived.guarded !! "double"))
        Scenarios.nodeB raw Derived.someContext
      = Done {["v" := VNum 7]}
    ∧ [mkEvent "node:execution:started"
         (PNodeStarted "B" "double" {["v" := VNum 3]});
       mkEvent "node:execution:completed"
         (PNodeCompleted "B" "double" {["v" := VNum 7]})]
      = [mkEvent CoreEventTypes.NODE_EXECUTION_STARTED
           (PNodeStarted "B" "double" {["v" := VNum 3]});
         mkEvent CoreEventTypes.NODE_EXECUTION_COMPLETED
           (PNodeCompleted "B" "double" {["v" := VNum 7]})].
Proof.
  apply (executeNode_success Derived.guarded Scenarios.nodeB
           {["v" := VNum 3]} Derived.someContext).
  vm_compute. reflexivity.
Defined.

(** X12.  When an input validator answers [false] on the transformed
    inputs, after the validators registered before it have accepted them,
    [executeNode] throws [Input validation failed for node <id>] whatever
    the executor and the validators registered later would do, and it has
    published [node:execution:started] and then [node:execution:failed]
    with that message. *)
Theorem executeNode_input_rejected (ex : NodeExecutor.t)
    (executor : NodeExecutor.NodeExecutorFn) (node : Node)
    (inputs transformedInputs : gmap string value) (context : ExecutionContext)
    (accepting rest : list NodeExecutor.ValidatorFn)
    (rejecting : NodeExecutor.ValidatorFn) :
  NodeExecutor.nodeTypeExecutors ex !! nodeType node = Some executor →
  NodeExecutor.applyTransformations
    (default [] (NodeExecutor.inputTransformations ex !! nodeType node))
    node inputs context = Done transformedInputs →
  NodeExecutor.inputValidators ex !! nodeType node
  = Some (accepting ++ rejecting :: rest) →
  Forall (λ validator, validator transformedInputs node context = Done true)
         accepting →
  rejecting transformedInputs node context = Done false →
  let message := "Input validation failed for node " +:+ nodeId node in
  NodeExecutor.executeNode ex node inputs context
  = ([mkEvent CoreEventTypes.NODE_EXECUTION_STARTED
        (PNodeStarted (nodeId node) (nodeType node) inputs);
      mkEvent CoreEventTypes.NODE_EXECUTION_FAILED
        (PNodeFailed (nodeId node) (nodeType node) message)],
     Thrown message).
Proof.
  intros Hex Htin Hvs Hacc Hrej message.
  unfold NodeExecutor.executeNode, NodeExecutor.runNode.
  rewrite Hex, Htin, Hvs. simpl.
  by rewrite (validate_rejects accepting rest rejecting).
Qed.

Lemma executeNode_input_rejected_witness :
  NodeExecutor.executeNode Derived.guarded Scenarios.nodeB {["v" := VNum 0]}
    Derived.someContext
  = ([mkEvent CoreEventTypes.NODE_EXECUTION_STARTED
        (PNodeStarted "B" "double" {["v" := VNum 0]});
      mkEvent CoreEventTypes.NODE_EXECUTION_FAILED
        (PNodeFailed "B" "double" "Input validation failed for node B")],
     Thrown "Input validation failed for node B").
Proof.
  apply (executeNode_input_rejected Derived.guarded Scenarios.doubleExecutor
           Scenarios.nodeB {["v" := VNum 0]} {["v" := VNum 0]}
           Derived.someContext [] [] Derived.positive).
  - vm_compute. reflexivity.
  - vm_compute. reflexivity.
  - vm_compute. reflexivity.
  - constructor.
  - vm_compute. reflexivity.
Defined.

(** X13.  Transformations run in the order of their registration: one
    registered for a node type is applied to the result of those registered
    before it for that type, and it is not called when one of them throws.
    This holds for input and for output transformations. *)
Theorem registered_transformation_runs_last (nodeType : string)
    (transformation : NodeExecutor.TransformationFn) (ex : NodeExecutor.t)
    (node : Node) (data : gmap string value) (context : ExecutionContext) :
  NodeExecutor.applyTransformations
    (default [] (NodeExecutor.inputTransformations
                   (NodeExecutor.registerInputTransformation nodeType
                      transformation ex) !! nodeType))
    node data context
  = Derived.andThen
      (NodeExecutor.applyTransformations
         (default [] (NodeExecutor.inputTransformations ex !! nodeType))
         node data context)
      (λ transformed, transformation transformed node context)
  ∧ NodeExecutor.applyTransformations
      (default [] (NodeExecutor.outputTransformations
                     (NodeExecutor.registerOutputTransformation nodeType
                        transformation ex) !! nodeType))
      node data context
    = Derived.andThen
        (NodeExecutor.applyTransformations
           (default [] (NodeExecutor.outputTransformations ex !! nodeType))
           node data context)
        (λ transformed, transformation transformed node context).
Proof.
  unfold NodeExecutor.applyTransformations. simpl.
  rewrite !lookup_insert_eq. simpl. rewrite !forEach_app.
  split.
  - destruct (forEach _ _ data); simpl; [|done..].
    by destruct (transformation a node context).
  - destruct (forEach _ _ data); simpl; [|done..].
    by destruct (transformation a node context).
Qed.

(** X14.  Registrations are per node type: registering an executor, a
    transformation or a validator for one type changes nothing in the
    execution of a node of another type. *)
Theorem registration_leaves_other_types (registeredType : string)
    (executor : NodeExecutor.NodeExecutorFn)
    (transformation : NodeExecutor.TransformationFn)
    (validator : NodeExecutor.ValidatorFn) (ex : NodeExecutor.t) (node : Node)
    (inputs : gmap string value) (context : ExecutionContext) :
  nodeType node ≠ registeredType →
  Forall (λ ex', NodeExecutor.executeNode ex' node inputs context
                 = NodeExecutor.executeNode ex node inputs context)
    [NodeExecutor.registerNodeTypeExecutor registeredType executor ex;
     NodeExecutor.registerInputTransformation registeredType transformation ex;
     NodeExecutor.registerOutputTransformation registeredType transformation ex;
     NodeExecutor.registerInputValidator registeredType validator ex;
     NodeExecutor.registerOutputValidator registeredType validator ex].
Proof.
  intros Hne.
  repeat constructor;
    unfold NodeExecutor.executeNode, NodeExecutor.runNode; simpl;
    by rewrite lookup_insert_ne.
Qed.

Lemma registration_leaves_other_types_witness :
  Forall (λ ex', NodeExecutor.executeNode ex' Scenarios.nodeA ∅ Derived.someContext
                 = NodeExecutor.executeNode (Scenarios.executors 7)
                     Scenarios.nodeA ∅ Derived.someContext)
    [NodeExecutor.registerNodeTypeExecutor "double" Scenarios.sinkExecutor
       (Scenarios.executors 7);
     NodeExecutor.registerInputTransformation "double" Derived.increment
       (Scenarios.executors 7);
     NodeExecutor.registerOutputTransformation "double" Derived.increment
       (Scenarios.executors 7);
     NodeExecutor.registerInputValidator "double" Derived.positive
       (Scenarios.executors 7);
     NodeExecutor.registerOutputValidator "double" Derived.positive
       (Scenarios.executors 7)].
Proof.
  apply registration_leaves_other_types. by vm_compute.
Defined.

(** X15.  The events of one [executeNode]: [node:execution:started] at most
    once, [node:execution:completed] once exactly when outputs are
    returned and [node:execution:failed] once exactly when an error is
    thrown, never both; the failure event is the last one and carries the
    error that is thrown.  Without an executor for the node's type nothing
    but the failure event is published. *)
Theorem executeNode_event_protocol (ex : NodeExecutor.t) (node : Node)
    (inputs : gmap string value) (context : ExecutionContext) :
  let '(events, settled) := NodeExecutor.executeNode ex node inputs context in
  Engine.publishedCount CoreEventTypes.NODE_EXECUTION_STARTED events
  = (if NodeExecutor.nodeTypeExecutors ex !! nodeType node is Some _ then 1 else 0)
  ∧ Engine.publishedCount CoreEventTypes.NODE_EXECUTION_COMPLETED events
    = (if settled is Done _ then 1 else 0)
  ∧ Engine.publishedCount CoreEventTypes.NODE_EXECUTION_FAILED events
    = (if settled is Thrown _ then 1 else 0)
  ∧ length events
    = (if NodeExecutor.nodeTypeExecutors ex !! nodeType node is Some _ then 1 else 0)
      + (if settled is OutOfFuel then 0 else 1)
  ∧ ∀ message, settled = Thrown message →
      last events = Some (mkEvent CoreEventTypes.NODE_EXECUTION_FAILED
                            (PNodeFailed (nodeId node) (nodeType node) message)).
Proof.
  unfold NodeExecutor.executeNode.
  destruct (NodeExecutor.nodeTypeExecutors ex !! nodeType node) as [executor|].
  - destruct (NodeExecutor.runNode ex executor node inputs context);
      (split_and!; [done..|]); by intros ? [= <-].
  - split_and!; [done..|]. by intros ? [= <-].
Qed.

(** ** Workflow engine *)

Section EngineFacts.
Import Engine.

Lemma reachable_steps (n rid : nat) (e : t) :
  reachable e → reachable (steps n rid e).
Proof.
  revert e. induction n as [|n IH]; intros e He; simpl; [done|].
  apply IH. by constructor.
Qed.


Lemma promiseOf_handleWorkflowError (rid : nat) (id message : string) (e : t) :
  promiseOf rid (handleWorkflowError id message e) = promiseOf rid e.
Proof.
  unfold handleWorkflowError. destruct (activeWorkflows e !! id) as [a|]; [|done].
  unfold promiseOf. simpl.
  destruct (decide (activeRun a = rid)) as [->|Hne].
  - rewrite list_lookup_alter_eq. by destruct (runs e !! rid).
  - by rewrite list_lookup_alter_ne.
Qed.

Lemma promiseOf_reject (rid : nat) (message : string) (e : t) :
  promiseOf rid e = Some PromisePending →
  promiseOf rid (reject rid message e) = Some (PromiseRejected message).
Proof.
  unfold promiseOf, reject, updateRun. simpl. rewrite list_lookup_alter_eq.
  destruct (runs e !! rid) as [r|]; [|done]. simpl. intros [= Hp].
  unfold settle. by rewrite Hp.
Qed.

(** Up to its [await], [handleWorkflowError] marks the entry, publishes and
    is suspended; the entry is still there. *)
Lemma handleWorkflowError_active (id message : string) (e : t) (a : ActiveWorkflow) :
  activeWorkflows e !! id = Some a →
  activeWorkflows (handleWorkflowError id message e)
  = <[id := mkActive Failed (activeRun a)]> (activeWorkflows e)
  ∧ published (handleWorkflowError id message e)
    = published e ++ [mkEvent CoreEventTypes.WORKFLOW_FAILED (PFailed id message)]
  ∧ errorHandlers (handleWorkflowError id message e) = errorHandlers e ++ [id].
Proof. intros Ha. unfold handleWorkflowError. by rewrite Ha. Qed.

Lemma abort_keeps_handlers (rid : nat) (e : t) :
  errorHandlers (abort rid e) = errorHandlers e.
Proof.
  unfold abort. destruct (runs e !! rid) as [r|] eqn:Hr; [|done].
  destruct (signalAborted r) eqn:Ha; [done|].
  destruct (abortListener r); [|done].
  rewrite (onAbort_aborted rid _ (setAborted r)); [done| |done].
  unfold updateRun. simpl. by rewrite list_lookup_alter_eq, Hr.
Qed.

(** The suspended call that was added last resumes: the entry under its
    workflow id is deleted. *)
Lemma handleWorkflowErrorResumes_last (id : string) (e : t) (handlers : list string) :
  errorHandlers e = handlers ++ [id] →
  let e' := handleWorkflowErrorResumes (length handlers) e in
  activeWorkflows e' = delete id (activeWorkflows e)
  ∧ errorHandlers e' = handlers
  ∧ runs e' = runs e
  ∧ published e' = published e.
Proof.
  intros He. unfold handleWorkflowErrorResumes. rewrite He.
  rewrite lookup_app_r, Nat.sub_diag by done. simpl.
  split_and!; [done| |done..].
  rewrite delete_middle. apply app_nil_r.
Qed.
End EngineFacts.

Lemma resolved_status_never_completed_witness :
  resStatus (mkResult "S1" Running {["C" := {["v" := VNum 14]}]} (mkStats 0 0 0 3))
  ≠ Completed.
Proof.
  apply (resolved_status_never_completed
           (Engine.steps 6 0 (Scenarios.started 7)) 0).
  - apply reachable_steps, Engine.reachable_execute, Engine.reachable_create.
  - vm_compute. reflexivity.
Defined.

Lemma gatherInputs_only_truthy_witness : truthy (VNum 5) = true.
Proof.
  apply (gatherInputs_only_truthy Scenarios.nodeV Scenarios.feedsPlain
           (Scenarios.afterU (VNum 5) None) "q").
  - vm_compute. set_solver.
  - vm_compute. reflexivity.
Defined.

Lemma gatherInputs_seed_wins_witness :
  Engine.gatherInputs Scenarios.nodeV Scenarios.feedsEntry
    (Scenarios.afterU (VNum 1) (Some {["q" := VNum 2]})) !! "q"
  = Some (VNum 2).
Proof.
  apply (gatherInputs_seed_wins Scenarios.nodeV Scenarios.feedsEntry
           (Scenarios.afterU (VNum 1) (Some {["q" := VNum 2]}))
           {["q" := VNum 2]}).
  - vm_compute. set_solver.
  - vm_compute. reflexivity.
  - vm_compute. reflexivity.
Defined.

Lemma stopWorkflow_settles_nothing_witness :
  (∀ rid, Engine.promiseOf rid Derived.stopped
          = Engine.promiseOf rid Derived.afterFirstNode)
  ∧ Engine.getWorkflowStatus "S1" Derived.stopped = Cancelled
  ∧ Engine.publishedCount CoreEventTypes.WORKFLOW_FAILED
      (Engine.published Derived.stopped)
    = S (Engine.publishedCount CoreEventTypes.WORKFLOW_FAILED
           (Engine.published Derived.afterFirstNode)).
Proof.
  apply (stopWorkflow_settles_nothing "S1").
  vm_compute. reflexivity.
Defined.




(** X22.  Fan-in on one input port of a node that is not an entry point:
    the last connection into the port whose source port reads as a truthy
    value decides the input.  Connections listed after it whose source has
    produced nothing, or whose source port reads as a falsy value, leave it
    in place.  A source port that is not an own property of the outputs
    reads as the inherited member of that name, if there is one
    ([getProp]), so such a connection does deliver.  The port is not
    [__proto__], the one key whose assignment creates no property. *)
Theorem gatherInputs_last_truthy_wins (node : Node) (workflow : Workflow)
    (context : ExecutionContext) (earlier later : list Connection)
    (connection : Connection) (sourceOutputs : gmap string value) :
  nodeId node ∉ entryPoints workflow →
  connections workflow = earlier ++ connection :: later →
  targetNodeId connection = nodeId node →
  targetPortId connection ≠ "__proto__" →
  nodeOutputs context !! sourceNodeId connection = Some sourceOutputs →
  truthy (getProp sourceOutputs (sourcePortId connection)) = true →
  Forall (λ c, targetNodeId c = nodeId node →
               targetPortId c = targetPortId connection →
               ∀ outs, nodeOutputs context !! sourceNodeId c = Some outs →
                       truthy (getProp outs (sourcePortId c)) = false) later →
  Engine.gatherInputs node workflow context !! targetPortId connection
  = Some (getProp sourceOutputs (sourcePortId connection)).
Proof.
  intros Hentry Hconns Htarget _ Hsource Htruthy Hlater.
  unfold Engine.gatherInputs. rewrite decide_False by done.
  rewrite Hconns, foldl_app. simpl.
  rewrite decide_True by done. rewrite Hsource, Htruthy.
  match goal with |- context [foldl _ ?a later] =>
    remember a as acc eqn:Heq
  end.
  assert (acc !! targetPortId connection
          = Some (getProp sourceOutputs (sourcePortId connection))) as Hacc
    by (subst acc; apply lookup_insert_eq).
  clear Heq Hconns. revert acc Hacc.
  induction Hlater as [|c later Hc _ IH]; intros acc Hacc; simpl; [done|].
  apply IH. cbv beta. case_decide as Ht; [|done].
  destruct (nodeOutputs context !! sourceNodeId c) as [outs|] eqn:Houts; [|done].
  destruct (truthy (getProp outs (sourcePortId c))) eqn:Htr; [|done].
  destruct (decide (targetPortId c = targetPortId connection)) as [Hport|Hport].
  - by rewrite (Hc Ht Hport outs) in Htr.
  - by rewrite lookup_insert_ne.
Qed.

(** Three connections into port [q]: the second, from [U2], decides, since
    the third delivers the falsy 0; the first is overwritten. *)
Lemma gatherInputs_last_truthy_wins_witness :
  Engine.gatherInputs Scenarios.nodeV (Derived.fanIn []) Derived.fanInContext
    !! "q"
  = Some (getProp {["p" := VNum 2]} "p").
Proof.
  apply (gatherInputs_last_truthy_wins Scenarios.nodeV (Derived.fanIn [])
           Derived.fanInContext
           [mkConnection "c1" "U1" "p" "V" "q"]
           [mkConnection "c3" "U3" "p" "V" "q"]
           (mkConnection "c2" "U2" "p" "V" "q") {["p" := VNum 2]}).
  - vm_compute. set_solver.
  - reflexivity.
  - reflexivity.
  - done.
  - vm_compute. reflexivity.
  - vm_compute. reflexivity.
  - repeat constructor. intros _ _ outs. vm_compute. by intros [= <-].
Defined.

(** A connection from a port that the source has not produced, but whose
    name every object inherits, delivers the inherited method: listed
    last, it overwrites port [q]. *)
Example gatherInputs_inherited_port :
  Engine.gatherInputs Scenarios.nodeV
    (Derived.fanIn [mkConnection "c4" "U1" "toString" "V" "q"])
    Derived.fanInContext !! "q"
  = Some (VFun "toString").
Proof. by vm_compute. Qed.

(** X23.  [pauseWorkflow] suspends nothing: it changes the two status
    fields and publishes [workflow:paused], and leaves every run where it
    is, with its abort signal, its promise, its outputs and its counter, so
    the body of [executeWorkflow] goes on with the next node. *)
Theorem pauseWorkflow_suspends_nothing (id : string) (e e' : Engine.t)
    (rid : nat) (r : Engine.Run) :
  Engine.pauseWorkflow id e = Done e' →
  Engine.runs e !! rid = Some r →
  ∃ r', Engine.runs e' !! rid = Some r'
    ∧ Engine.pc r' = Engine.pc r
    ∧ Engine.signalAborted r' = Engine.signalAborted r
    ∧ Engine.promise r' = Engine.promise r
    ∧ nodeOutputs (Engine.runContext r') = nodeOutputs (Engine.runContext r)
    ∧ Engine.runNodesExecuted r' = Engine.runNodesExecuted r.
Proof.
  unfold Engine.pauseWorkflow.
  destruct (Engine.activeWorkflows e !! id) as [a|]; [|done].
  case_decide; [|done]. intros [= <-] Hr. simpl.
  destruct (decide (Engine.activeRun a = rid)) as [->|Hne].
  - rewrite list_lookup_alter_eq, Hr. by eexists.
  - rewrite list_lookup_alter_ne by done. by eexists.
Qed.

Lemma pauseWorkflow_suspends_nothing_witness :
  ∃ r', Engine.runs Derived.paused !! 0 = Some r'
    ∧ Engine.pc r' = Engine.SeqLoop ["B"; "C"]
    ∧ Engine.signalAborted r' = false
    ∧ Engine.promise r' = Engine.PromisePending
    ∧ nodeOutputs (Engine.runContext r') = {["A" := {["v" := VNum 7]}]}
    ∧ Engine.runNodesExecuted r' = 1.
Proof.
  refine (pauseWorkflow_suspends_nothing "S1" Derived.afterFirstNode
            Derived.paused 0
            (Engine.mkRun Scenarios.linear Scenarios.noOptions
               (mkContext "S1" {["A" := {["v" := VNum 7]}]} 0 Running ∅)
               false true false Engine.PromisePending
               (Engine.SeqLoop ["B"; "C"]) 1) _ _).
  - vm_compute. reflexivity.
  - vm_compute. reflexivity.
Defined.

(** X24.  Pause and resume: after a [pauseWorkflow] that returned, a second
    [pauseWorkflow] throws [Workflow <id> is not running (status: paused)],
    and [resumeWorkflow] returns, restores [activeWorkflows] to what it was
    before the pause, and has published [workflow:paused] and then
    [workflow:resumed]. *)
Theorem resumeWorkflow_pauseWorkflow (id : string) (e e1 : Engine.t) :
  Engine.pauseWorkflow id e = Done e1 →
  Engine.pauseWorkflow id e1
  = Thrown ("Workflow " +:+ id +:+ " is not running (status: paused)")
  ∧ ∃ e2, Engine.resumeWorkflow id e1 = Done e2
      ∧ Engine.activeWorkflows e2 = Engine.activeWorkflows e
      ∧ Engine.published e2
        = Engine.published e
          ++ [mkEvent CoreEventTypes.WORKFLOW_PAUSED (PPaused id);
              mkEvent CoreEventTypes.WORKFLOW_RESUMED (PResumed id)].
Proof.
  unfold Engine.pauseWorkflow at 1.
  destruct (Engine.activeWorkflows e !! id) as [[st run]|] eqn:Ha; [|done].
  case_decide as Hst; [|done]. simpl in Hst. subst st. intros [= <-].
  unfold Engine.pauseWorkflow, Engine.resumeWorkflow. simpl.
  rewrite lookup_insert_eq. simpl.
  split; [done|]. eexists. split; [done|]. simpl.
  rewrite insert_insert_eq, <- app_assoc. split; [|done].
  by apply insert_id.
Qed.

Lemma resumeWorkflow_pauseWorkflow_witness :
  Engine.pauseWorkflow "S1" Derived.paused
  = Thrown ("Workflow " +:+ "S1" +:+ " is not running (status: paused)")
  ∧ ∃ e2, Engine.resumeWorkflow "S1" Derived.paused = Done e2
      ∧ Engine.activeWorkflows e2 = Engine.activeWorkflows Derived.afterFirstNode
      ∧ Engine.published e2
        = Engine.published Derived.afterFirstNode
          ++ [mkEvent CoreEventTypes.WORKFLOW_PAUSED (PPaused "S1");
              mkEvent CoreEventTypes.WORKFLOW_RESUMED (PResumed "S1")].
Proof.
  apply resumeWorkflow_pauseWorkflow. vm_compute. reflexivity.
Defined.

(** X25.  When the timer of a run expires while its promise is pending and
    an entry for the workflow id is active, the promise is rejected at once
    with [Workflow execution timed out] and [workflow:failed] is published
    once with that error, while the entry is still in [activeWorkflows],
    marked [failed]: the call of [handleWorkflowError] is suspended at its
    publish.  When that call resumes, it deletes the entry, and
    [getWorkflowStatus] answers [completed] from then on. *)
Theorem timeoutFires_rejects (rid : nat) (e : Engine.t) (r : Engine.Run)
    (a : Engine.ActiveWorkflow) :
  Engine.runs e !! rid = Some r →
  Engine.timeoutId r = true →
  Engine.promise r = Engine.PromisePending →
  Engine.activeWorkflows e !! workflowId (Engine.runWorkflow r) = Some a →
  let e' := Engine.timeoutFires rid e in
  Engine.promiseOf rid e' = Some (Engine.PromiseRejected Engine.timedOutMessage)
  ∧ Engine.published e'
    = Engine.published e
      ++ [mkEvent CoreEventTypes.WORKFLOW_FAILED
            (PFailed (workflowId (Engine.runWorkflow r)) Engine.timedOutMessage)]
  ∧ Engine.activeWorkflows e'
    = <[workflowId (Engine.runWorkflow r)
          := Engine.mkActive Failed (Engine.activeRun a)]>
        (Engine.activeWorkflows e)
  ∧ Engine.getWorkflowStatus (workflowId (Engine.runWorkflow r)) e' = Failed
  ∧ Engine.errorHandlers e'
    = Engine.errorHandlers e ++ [workflowId (Engine.runWorkflow r)]
  ∧ let e'' := Engine.handleWorkflowErrorResumes
                 (length (Engine.errorHandlers e)) e' in
    Engine.promiseOf rid e''
    = Some (Engine.PromiseRejected Engine.timedOutMessage)
    ∧ Engine.activeWorkflows e''
      = delete (workflowId (Engine.runWorkflow r)) (Engine.activeWorkflows e)
    ∧ Engine.getWorkflowStatus (workflowId (Engine.runWorkflow r)) e'' = Completed.
Proof.
  intros Hr Htimer Hpending Ha e'.
  set (e1 := Engine.abort rid (Engine.updateRun rid Engine.clearTimeout e)).
  assert (e' = Engine.reject rid Engine.timedOutMessage
                 (Engine.handleWorkflowError (workflowId (Engine.runWorkflow r))
                    Engine.timedOutMessage e1)) as ->.
  { unfold e', Engine.timeoutFires. by rewrite Hr, Htimer. }
  destruct (abort_settles_nothing rid (Engine.updateRun rid Engine.clearTimeout e))
    as (Hp & Hact & Hpub). fold e1 in Hp, Hact, Hpub.
  assert (Engine.errorHandlers e1 = Engine.errorHandlers e) as Hhandlers
    by apply (abort_keeps_handlers rid (Engine.updateRun rid Engine.clearTimeout e)).
  assert (Engine.activeWorkflows e1 !! workflowId (Engine.runWorkflow r) = Some a)
    as Ha1 by (by rewrite Hact).
  destruct (handleWorkflowError_active _ Engine.timedOutMessage e1 a Ha1)
    as (Hact' & Hpub' & Hhandlers').
  rewrite Hact in Hact'. rewrite Hpub in Hpub'. rewrite Hhandlers in Hhandlers'.
  set (e2 := Engine.reject rid Engine.timedOutMessage _).
  assert (Engine.promiseOf rid e2
          = Some (Engine.PromiseRejected Engine.timedOutMessage)) as Hrejected.
  { apply promiseOf_reject. rewrite promiseOf_handleWorkflowError, Hp.
    rewrite promiseOf_updateRun by done.
    unfold Engine.promiseOf. by rewrite Hr; simpl; rewrite Hpending. }
  assert (Engine.activeWorkflows e2
          = <[workflowId (Engine.runWorkflow r)
                := Engine.mkActive Failed (Engine.activeRun a)]>
              (Engine.activeWorkflows e)) as Hactive by exact Hact'.
  assert (Engine.errorHandlers e2
          = Engine.errorHandlers e ++ [workflowId (Engine.runWorkflow r)])
    as Hsuspended by exact Hhandlers'.
  destruct (handleWorkflowErrorResumes_last _ e2 _ Hsuspended)
    as (Hdeleted & _ & Hruns & _).
  split_and!; [done|exact Hpub'|done| |done|].
  - unfold Engine.getWorkflowStatus. by rewrite Hactive, lookup_insert_eq.
  - cbv zeta. split_and!.
    + unfold Engine.promiseOf in *. by rewrite Hruns.
    + by rewrite Hdeleted, Hactive, delete_insert_eq.
    + unfold Engine.getWorkflowStatus.
      by rewrite Hdeleted, lookup_delete_eq.
Qed.

Lemma timeoutFires_rejects_witness :
  Engine.promiseOf 0 (Engine.timeoutFires 0 Derived.timed)
  = Some (Engine.PromiseRejected Engine.timedOutMessage).
Proof.
  eapply (proj1 (timeoutFires_rejects 0 Derived.timed _ _ _ _ _ _)).
  Unshelve.
  - exact (Engine.mkRun Scenarios.linear (mkOptions None 1000 false ∅)
             (mkContext "S1" ∅ 0 Running ∅) false false true
             Engine.PromisePending Engine.AwaitStarted 0).
  - exact (Engine.mkActive Running 0).
  - vm_compute. reflexivity.
  - reflexivity.
  - reflexivity.
  - vm_compute. reflexivity.
Defined.

(** *** Sequential runs *)



Lemma promiseOf_publishAll (rid : nat) (events : list Event) (e : Engine.t) :
  Engine.promiseOf rid (Engine.publishAll events e) = Engine.promiseOf rid e.
Proof. done. Qed.

Section SequentialRun.
Import Engine.
Variables (w : Workflow) (options : ExecutionOptions) (ex : NodeExecutor.t)
          (t0 : nat).
Hypothesis Hsucceeds :
  ∀ node, node ∈ nodes w → ∀ inputs context,
    ∃ events outputs,
      NodeExecutor.executeNode ex node inputs context = (events, Done outputs).

#[local] Opaque NodeExecutor.executeNode gatherInputs createWorkflowResult
  topologicalSort findNode.



End SequentialRun.





(** The delete is by workflow id.  The linear run fails at [B]; before the
    suspended [handleWorkflowError] resumes, the workflow is executed
    again, which puts a new entry under the same id; the resuming call
    deletes that entry, and the engine no longer knows the second run,
    which is still pending. *)
Example late_delete_removes_newer_entry :
  let failed := Engine.step 0 Derived.failingRun in
  let again :=
    (Engine.executeWorkflow Scenarios.linear Scenarios.noOptions failed).1 in
  let e := Engine.handleWorkflowErrorResumes 0 again in
  Engine.getWorkflowStatus "S1" failed = Failed
  ∧ Engine.activeWorkflows again !! "S1" = Some (Engine.mkActive Running 1)
  ∧ Engine.activeWorkflows e !! "S1" = None
  ∧ Engine.promiseOf 1 e = Some Engine.PromisePending
  ∧ Engine.stopWorkflow "S1" e = Thrown "No active workflow with ID S1".
Proof. split_and!; by vm_compute. Qed.

(** *** Levels for parallel execution *)

Section OrderedMapFacts.
Context {K V : Type} `{EqDecision K}.

Lemma mapSet_keys (k : K) (v : V) (m : list (K * V)) :
  map fst (mapSet k v m)
  = if decide (k ∈ map fst m) then map fst m else map fst m ++ [k].
Proof.
  induction m as [|[k' v'] m IH].
  - cbn [mapSet map fst]. by rewrite decide_False by apply not_elem_of_nil.
  - cbn [mapSet]. destruct (decide (k' = k)) as [->|Hk].
    + cbn [map fst]. by rewrite decide_True by left.
    + cbn [map fst]. rewrite IH. destruct (decide (k ∈ map fst m)) as [Hin|Hnin].
      * by rewrite decide_True by (by right).
      * rewrite decide_False; [done|].
        rewrite elem_of_cons. intros [->|?]; tauto.
Qed.

Lemma mapSet_elem (k : K) (v : V) (m : list (K * V)) (x : K) :
  x ∈ map fst (mapSet k v m) ↔ x = k ∨ x ∈ map fst m.
Proof.
  rewrite mapSet_keys. case_decide as Hk.
  - split; [by right|]. by intros [->|?].
  - rewrite elem_of_app, list_elem_of_singleton. tauto.
Qed.

Lemma mapSet_NoDup (k : K) (v : V) (m : list (K * V)) :
  NoDup (map fst m) → NoDup (map fst (mapSet k v m)).
Proof.
  intros Hnd. rewrite mapSet_keys. case_decide as Hk; [done|].
  apply NoDup_app. split_and!; [done| |apply NoDup_singleton].
  intros x Hx ->%list_elem_of_singleton. done.
Qed.

Lemma mapGet_Some_elem (k : K) (v : V) (m : list (K * V)) :
  mapGet k m = Some v → k ∈ map fst m.
Proof.
  induction m as [|[k' v'] m IH]; simpl; [done|].
  case_decide as Hk; [subst; by left|]. intros ?. right. by apply IH.
Qed.

Lemma mapGet_elem (k : K) (v : V) (m : list (K * V)) :
  mapGet k m = Some v → v ∈ map snd m.
Proof.
  induction m as [|[k' v'] m IH]; simpl; [done|].
  case_decide as Hk; [intros [= ->]; by left|]. intros ?. right. by apply IH.
Qed.

(** Reading every key of a map without repeated keys gives its values. *)
Lemma mapGet_keys (d : V) (m : list (K * V)) :
  NoDup (map fst m) → map (λ k, default d (mapGet k m)) (map fst m) = map snd m.
Proof.
  induction m as [|[k v] m IH]; [done|].
  cbn [map fst snd]. intros [Hk Hnd]%NoDup_cons.
  cbn [mapGet]. rewrite decide_True by done. simpl. f_equal.
  rewrite <- IH by done. apply map_ext_in. intros k' Hk'.
  rewrite decide_False; [done|]. intros ->. apply Hk. by apply list_elem_of_In.
Qed.
End OrderedMapFacts.

Section Levels.
Context {K A : Type} `{EqDecision K}.

(** [get(k).push(x)], after [set(k, [])] when [k] is new. *)
Lemma mapSet_push (k : K) (x : A) (m : list (K * list A)) :
  concat (map snd (mapSet k (default [] (mapGet k m) ++ [x]) m))
  ≡ₚ concat (map snd m) ++ [x].
Proof.
  induction m as [|[k' g] m IH]; simpl; [done|].
  case_decide as Hk; simpl.
  - rewrite <- !app_assoc. f_equiv. apply Permutation_app_comm.
  - by rewrite IH, app_assoc.
Qed.

Lemma mapSet_push_nonempty (k : K) (x : A) (m : list (K * list A)) :
  Forall (λ g, g ≠ []) (map snd m) →
  Forall (λ g, g ≠ [])
         (map snd (mapSet k (default [] (mapGet k m) ++ [x]) m)).
Proof.
  generalize (default [] (mapGet k m)). intros got.
  induction m as [|[k' g] m IH]; simpl.
  - intros _. constructor; [|done]. by destruct got.
  - intros [Hg Hm]%Forall_cons. case_decide; simpl.
    + constructor; [|done]. by destruct got.
    + constructor; [done|]. by apply IH.
Qed.
End Levels.

Lemma foldl_invariant {A B : Type} (f : A → B → A) (P : list B → A → Prop)
    (l : list B) (a : A) :
  P [] a →
  (∀ seen x acc, x ∈ l → P seen acc → P (seen ++ [x]) (f acc x)) →
  P l (foldl f a l).
Proof.
  intros Ha Hstep.
  assert (∀ seen rest acc, l = seen ++ rest → P seen acc →
            P (seen ++ rest) (foldl f acc rest)) as Hgen.
  { intros seen rest. revert seen.
    induction rest as [|x rest IH]; intros seen acc Hl Hacc; simpl.
    - by rewrite app_nil_r.
    - rewrite (assoc_L (++) seen [x] rest : seen ++ x :: rest = (seen ++ [x]) ++ rest).
      apply IH; [by rewrite <- app_assoc|].
      apply Hstep; [|done]. rewrite Hl. set_solver. }
  by apply (Hgen [] l a).
Qed.

(** X28.  [groupNodesByLevel] loses and repeats nothing: every identifier
    of the execution order, and every target of a connection, is in
    exactly one of the returned levels, the levels hold nothing else, and
    no level is empty. *)
Theorem groupNodesByLevel_partition (workflow : Workflow)
    (executionOrder : list string) :
  let levels := Engine.groupNodesByLevel workflow executionOrder in
  NoDup (concat levels)
  ∧ (∀ id, id ∈ concat levels
           ↔ id ∈ executionOrder ∨ id ∈ map targetNodeId (connections workflow))
  ∧ Forall (λ level, level ≠ []) levels.
Proof.
  unfold Engine.groupNodesByLevel.
  set (levels0 := foldl _ [] executionOrder).
  set (levels := foldl _ levels0 (connections workflow)).
  set (levelGroups := foldl _ [] levels).
  assert (NoDup (map fst levels0)
          ∧ ∀ x, x ∈ map fst levels0 ↔ x ∈ executionOrder) as [Hnd0 Hkeys0].
  { apply (foldl_invariant _
      (λ seen acc, NoDup (map fst acc) ∧ ∀ x, x ∈ map fst acc ↔ x ∈ seen)).
    - split; [constructor|done].
    - intros seen x acc _ [Hnd Hkeys]. split; [by apply mapSet_NoDup|].
      intros y. rewrite mapSet_elem, Hkeys, elem_of_app, list_elem_of_singleton.
      tauto. }
  assert (NoDup (map fst levels)
          ∧ ∀ x, x ∈ map fst levels
                 ↔ x ∈ executionOrder
                   ∨ x ∈ map targetNodeId (connections workflow))
    as [Hnd Hkeys].
  { apply (foldl_invariant _
      (λ seen acc, NoDup (map fst acc)
                   ∧ ∀ x, x ∈ map fst acc
                          ↔ x ∈ executionOrder ∨ x ∈ map targetNodeId seen)).
    - split; [done|]. intros x. rewrite Hkeys0. simpl.
      split; [by left|]. intros [?|[]%elem_of_nil]. done.
    - intros seen c acc _ [Hnd Hkeys]. cbv beta.
      case_decide as Hle.
      + split; [by apply mapSet_NoDup|]. intros x.
        rewrite mapSet_elem, Hkeys, map_app, elem_of_app. simpl.
        rewrite list_elem_of_singleton. tauto.
      + split; [done|]. intros x.
        rewrite Hkeys, map_app, elem_of_app. simpl.
        rewrite list_elem_of_singleton.
        split; [tauto|]. intros [?|[?| ->]]; [tauto..|].
        apply Hkeys.
        destruct (mapGet (targetNodeId c) acc) as [n|] eqn:Hget.
        * by eapply mapGet_Some_elem.
        * simpl in Hle. lia. }
  assert (NoDup (map fst levelGroups)
          ∧ Forall (λ g, g ≠ []) (map snd levelGroups)
          ∧ concat (map snd levelGroups) ≡ₚ map fst levels)
    as (Hndg & Hne & Hperm).
  { apply (foldl_invariant _
      (λ seen acc, NoDup (map fst acc)
                   ∧ Forall (λ g, g ≠ []) (map snd acc)
                   ∧ concat (map snd acc) ≡ₚ map fst seen)).
    - split_and!; [constructor|constructor|done].
    - intros seen [id level] acc _ (Hn & Hf & Hp).
      split_and!; [by apply mapSet_NoDup|by apply mapSet_push_nonempty|].
      by rewrite mapSet_push, Hp, map_app. }
  assert (map (λ level, default [] (mapGet level levelGroups))
              (merge_sort (≤) (map fst levelGroups))
          ≡ₚ map snd levelGroups) as Hresult.
  { rewrite <- (mapGet_keys [] levelGroups) by done.
    apply fmap_Permutation, merge_sort_Permutation. }
  cbv zeta. split_and!.
  - rewrite Hresult, Hperm. done.
  - intros id. rewrite Hresult, Hperm. apply Hkeys.
  - by rewrite Hresult.
Qed.

(** *** A level in parallel mode *)

Section ParallelLevel.
Import Engine.

Lemma abort_keeps_executor (rid : nat) (e : t) :
  nodeExecutor (abort rid e) = nodeExecutor e.
Proof.
  unfold abort. destruct (runs e !! rid) as [r|]; [|done].
  destruct (signalAborted r); [done|].
  destruct (abortListener r); [|done].
  unfold onAbort.
  destruct (runs (updateRun rid clearTimeout (updateRun rid setAborted e)) !! rid)
    as [r'|]; [|done].
  destruct (negb (signalAborted r')); [|done].
  unfold reject, handleWorkflowError. simpl.
  by destruct (_ !! workflowId (runWorkflow r')).
Qed.

(** One node of a level: its events are appended to the log, and the
    executor table stays. *)
Lemma runLevelNode_published (rid : nat) (w : Workflow)
    (context : ExecutionContext) (acc : LevelProgress) (id : string) :
  nodeExecutor (levelEngine (runLevelNode rid w context acc id))
  = nodeExecutor (levelEngine acc)
  ∧ published (levelEngine (runLevelNode rid w context acc id))
    = published (levelEngine acc)
      ++ match findNode w id with
         | Some node =>
             (NodeExecutor.executeNode (nodeExecutor (levelEngine acc)) node
                (gatherInputs node w context) context).1
         | None => []
         end.
Proof.
  unfold runLevelNode. destruct (findNode w id) as [node|].
  2:{ by rewrite app_nil_r. }
  destruct (NodeExecutor.executeNode _ node _ context) as [events [outputs|m|]];
    simpl; [done| |done].
  rewrite abort_keeps_executor.
  by rewrite (proj2 (proj2 (abort_settles_nothing rid _))).
Qed.

Lemma level_published (rid : nat) (w : Workflow) (context : ExecutionContext)
    (level : list string) :
  ∀ acc,
    let joined := foldl (runLevelNode rid w context) acc level in
    nodeExecutor (levelEngine joined) = nodeExecutor (levelEngine acc)
    ∧ (∀ ev, ev ∈ published (levelEngine acc) →
             ev ∈ published (levelEngine joined))
    ∧ ∀ id node ev,
        id ∈ level → findNode w id = Some node →
        ev ∈ (NodeExecutor.executeNode (nodeExecutor (levelEngine acc)) node
                (gatherInputs node w context) context).1 →
        ev ∈ published (levelEngine joined).
Proof.
  induction level as [|x level IH]; intros acc; simpl.
  { split_and!; [done..|]. by intros ??? []%elem_of_nil. }
  destruct (IH (runLevelNode rid w context acc x)) as (Hex & Hold & Hnew).
  destruct (runLevelNode_published rid w context acc x) as [Hex1 Hpub1].
  split_and!.
  - by rewrite Hex, Hex1.
  - intros ev Hev. apply Hold. rewrite Hpub1. apply elem_of_app. by left.
  - intros id node ev [->|Hin]%elem_of_cons Hfind Hev.
    + apply Hold. rewrite Hpub1, Hfind. apply elem_of_app. by right.
    + eapply Hnew; [done..|]. by rewrite Hex1.
Qed.
End ParallelLevel.

(** X29.  In parallel mode every node of a level is started with the
    inputs gathered from the context as it is when the level starts: the
    nodes of one level do not see each other's outputs, and a node is
    started even when a node listed before it in the level fails. *)
Theorem parallel_level_starts_all (rid : nat) (e : Engine.t) (r : Engine.Run)
    (level : list string) (rest : list (list string)) (id : string)
    (node : Node) :
  Engine.runs e !! rid = Some r →
  Engine.pc r = Engine.ParLoop (level :: rest) →
  Engine.signalAborted r = false →
  id ∈ level →
  Engine.findNode (Engine.runWorkflow r) id = Some node →
  is_Some (NodeExecutor.nodeTypeExecutors (Engine.nodeExecutor e) !! nodeType node) →
  mkEvent CoreEventTypes.NODE_EXECUTION_STARTED
    (PNodeStarted (nodeId node) (nodeType node)
       (Engine.gatherInputs node (Engine.runWorkflow r) (Engine.runContext r)))
  ∈ Engine.published (Engine.step rid e).
Proof.
  intros Hr Hpc Hsig Hin Hfind [executor Hex].
  unfold Engine.step. rewrite Hr, Hpc, Hsig.
  destruct (level_published rid (Engine.runWorkflow r) (Engine.runContext r)
              level (Engine.mkLevel e None false)) as (_ & _ & Hnew).
  cbv zeta in Hnew.
  set (joined := foldl _ _ level) in *.
  assert (mkEvent CoreEventTypes.NODE_EXECUTION_STARTED
            (PNodeStarted (nodeId node) (nodeType node)
               (Engine.gatherInputs node (Engine.runWorkflow r)
                  (Engine.runContext r)))
          ∈ Engine.published (Engine.levelEngine joined)) as Hstarted.
  { eapply Hnew; [done..|]. simpl.
    unfold NodeExecutor.executeNode. rewrite Hex.
    destruct (NodeExecutor.runNode _ executor node _ _); simpl; set_solver. }
  destruct (Engine.levelFailure joined) as [m|].
  - unfold Engine.catchError, Engine.reject, Engine.handleWorkflowError. simpl.
    destruct (_ !! workflowId (Engine.runWorkflow r)); simpl; [|done].
    apply elem_of_app. by left.
  - by destruct (Engine.levelPending joined).
Qed.

Lemma parallel_level_starts_all_witness :
  mkEvent CoreEventTypes.NODE_EXECUTION_STARTED
    (PNodeStarted "R" "r" {["x" := VNum 1]})
  ∈ Engine.published
      (Engine.step 0
         (Scenarios.runOf Scenarios.diamondWorkflow Scenarios.diamondExecutors
            true 2)).
Proof.
  refine (parallel_level_starts_all 0
    (Scenarios.runOf Scenarios.diamondWorkflow Scenarios.diamondExecutors true 2)
    (Engine.mkRun Scenarios.diamondWorkflow (mkOptions None 0 true ∅)
       (mkContext "S2" {["S" := {["x" := VNum 1]}]} 0 Running ∅)
       false true false Engine.PromisePending
       (Engine.ParLoop [["L"; "R"]; ["J"]]) 1)
    ["L"; "R"] [["J"]] "R"
    (mkNode "R" "r" "R" [Scenarios.port "x"] [Scenarios.port "z"])
    _ _ _ _ _ _).
  - vm_compute. reflexivity.
  - reflexivity.
  - reflexivity.
  - set_solver.
  - vm_compute. reflexivity.
  - vm_compute. by eexists.
Defined.

(** X30.  After [clearEventSubscriptions] the event has no subscribers, a
    [publish] of it calls nothing and leaves the bus as it is, and the
    subscribers of every other event are untouched; after
    [clearAllSubscriptions] this holds for every event. *)
Theorem clearEventSubscriptions_silences (eventType : string) (data : value)
    (b : EventBus.t) :
  let b' := EventBus.clearEventSubscriptions eventType b in
  EventBus.hasSubscribers eventType b' = false
  ∧ EventBus.getSubscriberCount eventType b' = 0
  ∧ EventBus.publish EventBus.publishFuel eventType data b' = Done (b', [])
  ∧ (∀ other, other ≠ eventType →
       EventBus.subscribersOf other b' = EventBus.subscribersOf other b)
  ∧ ∀ other,
      EventBus.publish EventBus.publishFuel other data
        (EventBus.clearAllSubscriptions b)
      = Done (EventBus.clearAllSubscriptions b, []).
Proof.
  unfold EventBus.hasSubscribers, EventBus.getSubscriberCount,
    EventBus.subscribersOf, EventBus.publishFuel.
  cbv zeta. split_and!.
  - simpl. by rewrite lookup_delete_eq.
  - simpl. by rewrite lookup_delete_eq.
  - rewrite publish_unfold. simpl. by rewrite lookup_delete_eq.
  - intros other Hne. simpl. by rewrite lookup_delete_ne.
  - intros other. rewrite publish_unfold. simpl. by rewrite lookup_empty.
Qed.
